(** * file_io: a shallow embedding of the copy/move core

    The development follows [file_operations.c]: pattern matching and
    filtering first (pure code), then a model of the POSIX calls the core
    issues, then the copy, compare, move and directory routines written
    over that model in a small state monad, then the tools around them
    (the parent of a path, pattern lines, checksums, the filtered copy and
    its statistics), and finally the properties. *)

From Stdlib Require Import String Ascii ZArith List Lia Bool.
From Stdlib.Strings Require Import Byte.
From Stdlib Require Import Floats.
From stdpp Require Import gmap strings list fin_maps.

Local Open Scope string_scope.
Local Open Scope char_scope.
Local Open Scope list_scope.

(** ** Return codes ([file_operations.h]) *)

Definition SUCCESS : Z := 0.
Definition ERROR_FILE_OPEN : Z := -1.
Definition ERROR_FILE_READ : Z := -2.
Definition ERROR_FILE_WRITE : Z := -3.
Definition ERROR_DIR_CREATE : Z := -4.
Definition ERROR_DIR_OPEN : Z := -5.
Definition ERROR_INVALID_PATH : Z := -6.
Definition ERROR_MOVE_FAILED : Z := -7.
Definition ERROR_FILES_DIFFER : Z := -8.

Definition BUFFER_SIZE : nat := Z.to_nat 8192.
Definition MAX_PATH : nat := Z.to_nat 4096.

(** ** Pattern matching

    [match_pattern] delegates to the C library's [fnmatch] with flags 0.
    [fnmatch] is not part of the repository; [Fnmatch] models it for the C
    locale: [*], [?], backslash escapes and bracket expressions with
    negation and ranges.  Named classes ([[:alpha:]]), collating symbols
    and equivalence classes are not modelled. *)

Module Fnmatch.

Inductive token :=
| TStar
| TAny
| TLit (c : ascii)
| TSet (neg : bool) (body : list ascii)
| TNever.

Definition in_range (lo hi c : ascii) : bool :=
  (nat_of_ascii lo <=? nat_of_ascii c)%nat && (nat_of_ascii c <=? nat_of_ascii hi)%nat.

(** Membership of [c] in the body of a bracket expression. *)
Fixpoint set_member (body : list ascii) (c : ascii) : bool :=
  match body with
  | [] => false
  | x :: r =>
      if Ascii.eqb x "\" then
        match r with
        | y :: r' => Ascii.eqb c y || set_member r' c
        | [] => Ascii.eqb c x
        end
      else
        match r with
        | d :: hi :: r' =>
            if Ascii.eqb d "-" then in_range x hi c || set_member r' c
            else Ascii.eqb c x || set_member r c
        | _ => Ascii.eqb c x || set_member r c
        end
  end.

(** The text up to the closing bracket, with the number of characters
    used, the bracket included. *)
Fixpoint close_at (p : list ascii) : option (list ascii * nat) :=
  match p with
  | [] => None
  | c :: r =>
      if Ascii.eqb c "]" then Some ([], 1%nat)
      else if Ascii.eqb c "\" then
        match r with
        | d :: r' =>
            match close_at r' with
            | Some (b, n) => Some (c :: d :: b, S (S n))
            | None => None
            end
        | [] => None
        end
      else
        match close_at r with
        | Some (b, n) => Some (c :: b, S n)
        | None => None
        end
  end.

(** What follows an opening bracket: negation mark, body, length. *)
Definition bracket (p : list ascii) : option (bool * list ascii * nat) :=
  let '(neg, p1, k1) :=
    match p with
    | c :: r => if Ascii.eqb c "!" || Ascii.eqb c "^" then (true, r, 1%nat) else (false, p, 0%nat)
    | [] => (false, p, 0%nat)
    end in
  match p1 with
  | c :: r =>
      if Ascii.eqb c "]" then
        match close_at r with
        | Some (b, n) => Some (neg, c :: b, (k1 + 1 + n)%nat)
        | None => None
        end
      else
        match close_at p1 with
        | Some (b, n) => Some (neg, b, (k1 + n)%nat)
        | None => None
        end
  | [] => None
  end.

(** [skip] counts the characters already consumed by the token before. *)
Fixpoint tokenize (skip : nat) (p : list ascii) : list token :=
  match p with
  | [] => []
  | c :: r =>
      match skip with
      | S k => tokenize k r
      | O =>
          if Ascii.eqb c "*" then TStar :: tokenize 0 r
          else if Ascii.eqb c "?" then TAny :: tokenize 0 r
          else if Ascii.eqb c "\" then
            match r with
            | d :: _ => TLit d :: tokenize 1 r
            | [] => [TNever]
            end
          else if Ascii.eqb c "[" then
            match bracket r with
            | Some (neg, body, n) => TSet neg body :: tokenize n r
            | None => TLit c :: tokenize 0 r
            end
          else TLit c :: tokenize 0 r
      end
  end.

Fixpoint match_tokens (ts : list token) : list ascii -> bool :=
  match ts with
  | [] => fun s => match s with [] => true | _ :: _ => false end
  | TStar :: ts' =>
      fix star (s : list ascii) : bool :=
        match_tokens ts' s || match s with [] => false | _ :: s' => star s' end
  | TAny :: ts' =>
      fun s => match s with _ :: s' => match_tokens ts' s' | [] => false end
  | TLit c :: ts' =>
      fun s => match s with d :: s' => Ascii.eqb c d && match_tokens ts' s' | [] => false end
  | TSet neg body :: ts' =>
      fun s =>
        match s with
        | d :: s' => xorb neg (set_member body d) && match_tokens ts' s'
        | [] => false
        end
  | TNever :: _ => fun _ => false
  end.

Definition FNM_NOMATCH : Z := 1.

(** [fnmatch(pattern, string, 0)] *)
Definition fnmatch (pattern name : string) : Z :=
  if match_tokens (tokenize 0 (list_ascii_of_string pattern)) (list_ascii_of_string name)
  then 0%Z else FNM_NOMATCH.

End Fnmatch.

(** [match_pattern(filename, pattern)]: [fnmatch(pattern, filename, 0) == 0] *)
Definition match_pattern (filename pattern : string) : bool :=
  (Fnmatch.fnmatch pattern filename =? 0)%Z.

(** ** Filtering

    A pattern array is a NULL-terminated array of C strings, or the NULL
    pointer: [None] is the NULL pointer, [Some l] an array whose entries
    before the terminator are [l]. *)

Fixpoint any_pattern_matches (filename : string) (patterns : list string) : bool :=
  match patterns with
  | [] => false
  | p :: rest => if match_pattern filename p then true else any_pattern_matches filename rest
  end.

Definition should_copy_file (filename : string)
    (include_patterns exclude_patterns : option (list string)) : bool :=
  let excluded :=
    match exclude_patterns with
    | Some excl => any_pattern_matches filename excl
    | None => false
    end in
  if excluded then false
  else
    match include_patterns with
    | None => true
    | Some [] => true
    | Some incl => any_pattern_matches filename incl
    end.

(** The glob language of the specification: [*] is any run of characters,
    [?] is one character, everything else stands for itself; the whole name
    is matched. *)
Inductive glob : list ascii -> list ascii -> Prop :=
| glob_end : glob [] []
| glob_star pat run rest : glob pat rest -> glob ("*" :: pat) (run ++ rest)
| glob_one pat c s : glob pat s -> glob ("?" :: pat) (c :: s)
| glob_char pat c s : c <> "*" -> c <> "?" -> glob pat s -> glob (c :: pat) (c :: s).

Definition glob_matches (name pattern : string) : Prop :=
  glob (list_ascii_of_string pattern) (list_ascii_of_string name).

(** The admission rule of the specification. *)
Definition admission (matches : string -> string -> bool) (name : string)
    (includes excludes : list string) : bool :=
  if negb (Nat.eqb (length excludes) 0) && existsb (matches name) excludes then false
  else if Nat.eqb (length includes) 0 then true
  else existsb (matches name) includes.

(** ** Paths

    The kernel resolves a path name component by component.  The model
    resolves by the text, from a working directory that is the root:
    empty components and [.] are dropped, there are no symbolic or hard
    links, and [..] is not walked, it is a component like any other.  A
    property that says which names a run changes is therefore stated for
    paths without a [..] component. *)

Abbreviation key := (list string).

Fixpoint segments (cur s : string) : list string :=
  match s with
  | EmptyString => [cur]
  | String c r =>
      if Ascii.eqb c "/" then cur :: segments EmptyString r
      else segments (cur +:+ String c EmptyString) r
  end.

Definition proper_component (c : string) : bool :=
  negb (String.eqb c "") && negb (String.eqb c ".").

Definition norm (p : string) : key :=
  List.filter proper_component (segments EmptyString p).

Definition last_char (s : string) : option ascii :=
  String.get (String.length s - 1) s.

Definition ends_with_slash (s : string) : bool :=
  match last_char s with
  | Some c => Ascii.eqb c "/"
  | None => false
  end.

(** [strrchr(s, '/')] then skip the slash: the text after the last slash. *)
Fixpoint after_last_slash (s : string) : option string :=
  match s with
  | EmptyString => None
  | String c r =>
      match after_last_slash r with
      | Some t => Some t
      | None => if Ascii.eqb c "/" then Some r else None
      end
  end.

(** [snprintf(buf, size, ...)] and [strncpy] with the terminator forced:
    at most [size - 1] characters are kept. *)
Definition snprintf (size : nat) (s : string) : string :=
  String.substring 0 (size - 1) s.

(** ** The file system and the system calls *)

Inductive node :=
| File (perm : Z) (data : list byte)
| Dir (perm : Z).

Inductive errno :=
| ENOENT | EEXIST | EISDIR | ENOTDIR | ENOTEMPTY | EXDEV | EINVAL | EBUSY
| EBADF | ENAMETOOLONG | EACCES | EPERM | EIO | ENOSPC | EMFILE.

(** Failures that the namespace does not determine: permissions, resource
    limits, device errors.  A cross-device error is never one of them. *)
Inductive fault := FaultAccess | FaultPerm | FaultIO | FaultNoSpace | FaultFiles.

Definition errno_of_fault (f : fault) : errno :=
  match f with
  | FaultAccess => EACCES
  | FaultPerm => EPERM
  | FaultIO => EIO
  | FaultNoSpace => ENOSPC
  | FaultFiles => EMFILE
  end.

#[global] Instance errno_eq_dec : EqDecision errno.
Proof. solve_decision. Defined.

#[global] Instance byte_eq_dec : EqDecision byte := Byte.byte_eq_dec.

#[global] Instance node_eq_dec : EqDecision node.
Proof. solve_decision. Defined.

(** An open file: the file it names and the offset of the next transfer. *)
Record fd := Fd { fd_key : key; fd_off : nat }.

Record stat_buf := StatBuf { st_mode : Z; st_size : Z }.

Inductive syscall :=
| Stat (path : string)
| OpenRd (path : string)
| OpenWr (path : string)
| Read (f : fd) (count : nat)
| Write (f : fd) (buf : list byte)
| Fstat (f : fd)
| Fchmod (f : fd) (mode : Z)
| Close (f : fd)
| Mkdir (path : string)
| Opendir (path : string)
| Closedir (path : string)
| Rename (oldpath newpath : string)
| Unlink (path : string)
| Rmdir (path : string).

(** The history of a run: every system call with its error, if any, and a
    mark where a caller saw [compare_files] report equality. *)
Inductive event :=
| Called (c : syscall) (err : option errno)
| Verified (file1 file2 : string).

(** The world of a run: the names of the file system with what they
    hold, the device that holds what is at each name (for a directory,
    the device of the names inside it), the faults that the environment
    injects (by the number of events so far and by call), and the
    history, newest event first. *)
Record world := World {
  w_fs : gmap key node;
  w_dev : key -> nat;
  w_faults : nat -> syscall -> option fault;
  w_trace : list event
}.

Definition S_IFMT : Z := 61440.
Definition S_IFDIR : Z := 16384.
Definition S_IFREG : Z := 32768.
Definition S_IALLUGO : Z := 4095.
Definition S_ISDIR (mode : Z) : bool := (Z.land mode S_IFMT =? S_IFDIR)%Z.
(** What [stat] gives as the size of a directory. *)
Definition DIR_SIZE : Z := 4096.

Definition stat_of (n : node) : stat_buf :=
  match n with
  | File perm data => StatBuf (Z.lor S_IFREG (Z.land perm S_IALLUGO)) (Z.of_nat (length data))
  | Dir perm => StatBuf (Z.lor S_IFDIR (Z.land perm S_IALLUGO)) DIR_SIZE
  end.

(** The root directory is always there. *)
Definition root_dir : node := Dir 493.

Definition node_at (fs : gmap key node) (k : key) : option node :=
  match k with
  | [] => Some root_dir
  | _ :: _ => fs !! k
  end.

Definition parent (k : key) : key := removelast k.

(** The names in directory [k], in the order of the underlying map. *)
Definition child_name (k k' : key) : option string :=
  match reverse k' with
  | n :: rk => if bool_decide (reverse rk = k) then Some n else None
  | [] => None
  end.

Definition children (fs : gmap key node) (k : key) : list string :=
  omap (fun kv => child_name k kv.1) (map_to_list fs).

Definition check_name (p : string) : option errno :=
  if Nat.eqb (String.length p) 0 then Some ENOENT
  else if (MAX_PATH <=? String.length p)%nat then Some ENAMETOOLONG
  else None.

(** Path resolution: the last component must be a directory when the
    path ends with a slash. *)
Definition resolve (fs : gmap key node) (p : string) : errno + (key * node) :=
  match check_name p with
  | Some e => inl e
  | None =>
      match node_at fs (norm p) with
      | None => inl ENOENT
      | Some (File perm data) =>
          if ends_with_slash p then inl ENOTDIR else inr (norm p, File perm data)
      | Some (Dir perm) => inr (norm p, Dir perm)
      end
  end.

Definition parent_is_dir (fs : gmap key node) (k : key) : option errno :=
  match node_at fs (parent k) with
  | Some (Dir _) => None
  | Some (File _ _) => Some ENOTDIR
  | None => Some ENOENT
  end.

Section Calls.
Context (fs : gmap key node) (dev : key -> nat).

Definition sem_stat (p : string) : errno + (stat_buf * gmap key node) :=
  match resolve fs p with
  | inl e => inl e
  | inr (_, n) => inr (stat_of n, fs)
  end.

Definition sem_open_rd (p : string) : errno + (fd * gmap key node) :=
  match resolve fs p with
  | inl e => inl e
  | inr (k, _) => inr (Fd k 0, fs)
  end.

(** [open(p, O_WRONLY | O_CREAT | O_TRUNC, 0644)]; a new file gets mode
    0644 (420), the umask being 022. *)
Definition sem_open_wr (p : string) : errno + (fd * gmap key node) :=
  match check_name p with
  | Some e => inl e
  | None =>
      let k := norm p in
      match node_at fs k with
      | Some (Dir _) => inl EISDIR
      | Some (File perm _) =>
          if ends_with_slash p then inl ENOTDIR
          else inr (Fd k 0, <[k := File perm []]> fs)
      | None =>
          if ends_with_slash p then inl EISDIR
          else
            match parent_is_dir fs k with
            | Some e => inl e
            | None => inr (Fd k 0, <[k := File 420 []]> fs)
            end
      end
  end.

Definition sem_read (f : fd) (count : nat) : errno + ((list byte * fd) * gmap key node) :=
  match node_at fs (fd_key f) with
  | Some (File _ data) =>
      let chunk := take count (drop (fd_off f) data) in
      inr ((chunk, Fd (fd_key f) (fd_off f + length chunk)), fs)
  | Some (Dir _) => inl EISDIR
  | None => inl EBADF
  end.

Definition write_at (off : nat) (buf data : list byte) : list byte :=
  take off data ++ replicate (off - length data) x00 ++ buf ++ drop (off + length buf) data.

Definition sem_write (f : fd) (buf : list byte) : errno + ((nat * fd) * gmap key node) :=
  match node_at fs (fd_key f) with
  | Some (File perm data) =>
      inr ((length buf, Fd (fd_key f) (fd_off f + length buf)),
           <[fd_key f := File perm (write_at (fd_off f) buf data)]> fs)
  | _ => inl EBADF
  end.

Definition sem_fstat (f : fd) : errno + (stat_buf * gmap key node) :=
  match node_at fs (fd_key f) with
  | Some n => inr (stat_of n, fs)
  | None => inl EBADF
  end.

Definition sem_fchmod (f : fd) (mode : Z) : errno + (unit * gmap key node) :=
  match fd_key f, node_at fs (fd_key f) with
  | _ :: _, Some (File _ data) => inr (tt, <[fd_key f := File (Z.land mode S_IALLUGO) data]> fs)
  | _ :: _, Some (Dir _) => inr (tt, <[fd_key f := Dir (Z.land mode S_IALLUGO)]> fs)
  | _, _ => inl EBADF
  end.

Definition sem_close (f : fd) : errno + (unit * gmap key node) := inr (tt, fs).

(** [mkdir(p, 0755)]; 0755 is 493. *)
Definition sem_mkdir (p : string) : errno + (unit * gmap key node) :=
  match check_name p with
  | Some e => inl e
  | None =>
      let k := norm p in
      match node_at fs k with
      | Some _ => inl EEXIST
      | None =>
          match parent_is_dir fs k with
          | Some e => inl e
          | None => inr (tt, <[k := Dir 493]> fs)
          end
      end
  end.

(** The stream of [opendir]: the two pseudo-entries, then the names. *)
Definition sem_opendir (p : string) : errno + (list string * gmap key node) :=
  match resolve fs p with
  | inl e => inl e
  | inr (k, Dir _) => inr ("."%string :: ".."%string :: children fs k, fs)
  | inr (_, File _ _) => inl ENOTDIR
  end.

Definition sem_closedir (p : string) : errno + (unit * gmap key node) := inr (tt, fs).

Definition sem_unlink (p : string) : errno + (unit * gmap key node) :=
  match resolve fs p with
  | inl e => inl e
  | inr (_, Dir _) => inl EISDIR
  | inr (k, File _ _) => inr (tt, delete k fs)
  end.

Definition sem_rmdir (p : string) : errno + (unit * gmap key node) :=
  match resolve fs p with
  | inl e => inl e
  | inr (_, File _ _) => inl ENOTDIR
  | inr ([], Dir _) => inl EBUSY
  | inr (k, Dir _) =>
      match children fs k with
      | [] => inr (tt, delete k fs)
      | _ :: _ => inl ENOTEMPTY
      end
  end.

Definition strip_prefix (pre k : key) : option key :=
  if bool_decide (take (length pre) k = pre) then Some (drop (length pre) k) else None.

Definition rekey (old new : key) (kv : key * node) : key * node :=
  match strip_prefix old kv.1 with
  | Some suffix => (new ++ suffix, kv.2)
  | None => kv
  end.

Definition move_subtree (old new : key) : gmap key node :=
  list_to_map (rekey old new <$> map_to_list (delete new fs)).

(** [rename]: the mounts of the two directories that hold the names are
    compared before the last components are looked up, as Linux does; a
    file is not renamed onto a directory. *)
Definition sem_rename (oldp newp : string) : errno + (unit * gmap key node) :=
  match check_name oldp, check_name newp with
  | Some e, _ => inl e
  | None, Some e => inl e
  | None, None =>
      let ko := norm oldp in
      let kn := norm newp in
      if negb (Nat.eqb (dev (parent ko)) (dev (parent kn))) then inl EXDEV
      else
        match resolve fs oldp with
        | inl e => inl e
        | inr (_, n_old) =>
            if bool_decide (ko = kn) then inr (tt, fs)
            else
              match ko, kn with
              | [], _ | _, [] => inl EBUSY
              | _, _ =>
                  if bool_decide (is_Some (strip_prefix ko kn)) then inl EINVAL
                  else
                    match parent_is_dir fs kn with
                    | Some e => inl e
                    | None =>
                        match fs !! kn, n_old with
                        | Some (Dir _), File _ _ => inl EISDIR
                        | Some (File _ _), Dir _ => inl ENOTDIR
                        | Some (Dir _), Dir _ =>
                            match children fs kn with
                            | [] => inr (tt, move_subtree ko kn)
                            | _ :: _ => inl ENOTEMPTY
                            end
                        | _, _ => inr (tt, move_subtree ko kn)
                        end
                    end
              end
        end
  end.

End Calls.

(** ** The monad of the embedding

    A C function becomes a function from the world to a result and the
    world after it; [None] stands for a run that has no result here: the
    fuel of a loop ran out, or the C code has undefined behaviour.  Output
    to the terminal ([printf], [display_progress]) is not part of the
    world and is left out. *)

Definition M (A : Type) : Type := world -> option (A * world).

Definition ret {A} (a : A) : M A := fun w => Some (a, w).

Definition bind {A B} (m : M A) (f : A -> M B) : M B :=
  fun w => match m w with
           | Some (a, w') => f a w'
           | None => None
           end.

Definition undefined {A} : M A := fun _ => None.

Notation "x <- m ;; k" := (bind m (fun x => k))
  (at level 100, m at next level, right associativity).

Definition record (e : event) (w : world) : world :=
  World (w_fs w) (w_dev w) (w_faults w) (e :: w_trace w).

Definition with_fs (fs : gmap key node) (w : world) : world :=
  World fs (w_dev w) (w_faults w) (w_trace w).

Definition mark (e : event) : M unit := fun w => Some (tt, record e w).

(** The outcome of a call in a world: the injected fault if there is one
    at this point of the history, the semantics of the call otherwise. *)
Definition outcome {A} (c : syscall)
    (sem : gmap key node -> (key -> nat) -> errno + (A * gmap key node)) (w : world)
    : errno + (A * gmap key node) :=
  match w_faults w (length (w_trace w)) c with
  | Some f => inl (errno_of_fault f)
  | None => sem (w_fs w) (w_dev w)
  end.

Definition call {A} (c : syscall)
    (sem : gmap key node -> (key -> nat) -> errno + (A * gmap key node)) : M (errno + A) :=
  fun w =>
    match outcome c sem w with
    | inl e => Some (inl e, record (Called c (Some e)) w)
    | inr (a, fs') => Some (inr a, record (Called c None) (with_fs fs' w))
    end.

Definition stat (p : string) := call (Stat p) (fun fs _ => sem_stat fs p).
Definition open_rd (p : string) := call (OpenRd p) (fun fs _ => sem_open_rd fs p).
Definition open_wr (p : string) := call (OpenWr p) (fun fs _ => sem_open_wr fs p).
Definition read (f : fd) (n : nat) := call (Read f n) (fun fs _ => sem_read fs f n).
Definition write (f : fd) (buf : list byte) := call (Write f buf) (fun fs _ => sem_write fs f buf).
Definition fstat (f : fd) := call (Fstat f) (fun fs _ => sem_fstat fs f).
Definition fchmod (f : fd) (m : Z) := call (Fchmod f m) (fun fs _ => sem_fchmod fs f m).
Definition close (f : fd) := call (Close f) (fun fs _ => sem_close fs f).
Definition mkdir (p : string) := call (Mkdir p) (fun fs _ => sem_mkdir fs p).
Definition opendir (p : string) := call (Opendir p) (fun fs _ => sem_opendir fs p).
Definition closedir (p : string) := call (Closedir p) (fun fs _ => sem_closedir fs p).
Definition unlink (p : string) := call (Unlink p) (fun fs _ => sem_unlink fs p).
Definition rmdir (p : string) := call (Rmdir p) (fun fs _ => sem_rmdir fs p).
Definition rename (o n : string) := call (Rename o n) (fun fs dev => sem_rename fs dev o n).

Definition failed {A} (r : errno + A) : bool :=
  match r with inl _ => true | inr _ => false end.

(** ** Path inspection *)

Definition path_exists (path : string) : M bool :=
  r <- stat path ;;
  ret (negb (failed r)).

Definition is_directory (path : string) : M bool :=
  r <- stat path ;;
  match r with
  | inl _ => ret false
  | inr st => ret (S_ISDIR (st_mode st))
  end.

Definition get_file_size (path : string) : M Z :=
  r <- stat path ;;
  match r with
  | inl _ => ret (-1)%Z
  | inr st => ret (st_size st)
  end.

(** ** [create_directory] *)

(** [mkdir(tmp, 0755) != 0 && errno != EEXIST] *)
Definition mkdir_refused (r : errno + unit) : bool :=
  match r with
  | inl e => negb (bool_decide (e = EEXIST))
  | inr _ => false
  end.

Definition make_if_missing (tmp : string) : M Z :=
  e <- path_exists tmp ;;
  if e then ret SUCCESS
  else
    r <- mkdir tmp ;;
    if mkdir_refused r then ret ERROR_DIR_CREATE else ret SUCCESS.

(** The loop over the characters of [tmp] from the second one: [before] is
    the text in front of the cursor, which is what [tmp] reads as while the
    slash under the cursor is overwritten by the terminator. *)
Fixpoint create_parents (before rest : string) : M Z :=
  match rest with
  | EmptyString => ret SUCCESS
  | String c r =>
      if Ascii.eqb c "/" then
        res <- make_if_missing before ;;
        if (res =? SUCCESS)%Z then create_parents (before +:+ String c EmptyString) r
        else ret res
      else create_parents (before +:+ String c EmptyString) r
  end.

Definition strip_trailing_slash (tmp : string) : string :=
  if ends_with_slash tmp then String.substring 0 (String.length tmp - 1) tmp else tmp.

Definition create_directory (path : string) : M Z :=
  let tmp := snprintf MAX_PATH path in
  if Nat.eqb (String.length tmp) 0 then undefined
  else
    let tmp := strip_trailing_slash tmp in
    res <- match tmp with
           | EmptyString => ret SUCCESS
           | String c rest => create_parents (String c EmptyString) rest
           end ;;
    if (res =? SUCCESS)%Z then make_if_missing tmp else ret res.

(** ** [copy_file] *)

Definition basename (path : string) : string :=
  match after_last_slash path with
  | Some name => name
  | None => path
  end.

(** The path that [copy_file] opens for writing, given what [stat] said
    about [dest_path]. *)
Definition final_dest_path (src_path dest_path : string) (st : errno + stat_buf) : string :=
  match st with
  | inr s =>
      if S_ISDIR (st_mode s)
      then snprintf MAX_PATH (dest_path +:+ "/" +:+ basename src_path)
      else snprintf MAX_PATH dest_path
  | inl _ => snprintf MAX_PATH dest_path
  end.

(** The copy loop.  [inl code]: the function returned [code] from inside
    the loop or on the read error after it; [inr]: the loop met the end of
    the source. *)
Fixpoint copy_chunks (fuel : nat) (src_fd dest_fd : fd) : M (Z + fd * fd) :=
  match fuel with
  | O => undefined
  | S fuel' =>
      r <- read src_fd BUFFER_SIZE ;;
      match r with
      | inl _ =>
          _ <- close src_fd ;;
          _ <- close dest_fd ;;
          ret (inl ERROR_FILE_READ)
      | inr (chunk, src_fd') =>
          if Nat.eqb (length chunk) 0 then ret (inr (src_fd', dest_fd))
          else
            wr <- write dest_fd chunk ;;
            match wr with
            | inr (n, dest_fd') =>
                if Nat.eqb n (length chunk) then copy_chunks fuel' src_fd' dest_fd'
                else
                  _ <- close src_fd ;;
                  _ <- close dest_fd ;;
                  ret (inl ERROR_FILE_WRITE)
            | inl _ =>
                _ <- close src_fd ;;
                _ <- close dest_fd ;;
                ret (inl ERROR_FILE_WRITE)
            end
      end
  end.

(** [if (fstat(src_fd, &st) == 0) fchmod(dest_fd, st.st_mode);] *)
Definition copy_mode (src_fd dest_fd : fd) : M unit :=
  s <- fstat src_fd ;;
  match s with
  | inr st => _ <- fchmod dest_fd (st_mode st) ;; ret tt
  | inl _ => ret tt
  end.

Definition copy_file (fuel : nat) (src_path dest_path : string) : M Z :=
  total_size <- get_file_size src_path ;;
  o <- open_rd src_path ;;
  match o with
  | inl _ => ret ERROR_FILE_OPEN
  | inr src_fd =>
      st <- stat dest_path ;;
      o <- open_wr (final_dest_path src_path dest_path st) ;;
      match o with
      | inl _ =>
          _ <- close src_fd ;;
          ret ERROR_FILE_OPEN
      | inr dest_fd =>
          l <- copy_chunks fuel src_fd dest_fd ;;
          match l with
          | inl code => ret code
          | inr (src_fd, dest_fd) =>
              _ <- copy_mode src_fd dest_fd ;;
              _ <- close src_fd ;;
              _ <- close dest_fd ;;
              ret SUCCESS
          end
      end
  end.

(** ** [copy_directory] *)

Definition pseudo_entry (name : string) : bool :=
  String.eqb name "." || String.eqb name "..".

Definition join (dir name : string) : string :=
  snprintf MAX_PATH (dir +:+ "/" +:+ name).

(** The [readdir] loop of [copy_directory]; [rec] is the recursive call. *)
Fixpoint copy_entries (rec : string -> string -> M Z) (fuel : nat)
    (src_path dest_path : string) (entries : list string) : M Z :=
  match entries with
  | [] =>
      _ <- closedir src_path ;;
      ret SUCCESS
  | name :: rest =>
      if pseudo_entry name then copy_entries rec fuel src_path dest_path rest
      else
        let src_file := join src_path name in
        let dest_file := join dest_path name in
        d <- is_directory src_file ;;
        result <- (if d then rec src_file dest_file else copy_file fuel src_file dest_file) ;;
        if (result =? SUCCESS)%Z then copy_entries rec fuel src_path dest_path rest
        else
          _ <- closedir src_path ;;
          ret result
  end.

Fixpoint copy_directory (fuel : nat) (src_path dest_path : string) : M Z :=
  match fuel with
  | O => undefined
  | S fuel' =>
      result <- create_directory dest_path ;;
      if (result =? SUCCESS)%Z then
        d <- opendir src_path ;;
        match d with
        | inl _ => ret ERROR_DIR_OPEN
        | inr entries => copy_entries (copy_directory fuel') fuel' src_path dest_path entries
        end
      else ret result
  end.

(** ** [compare_files] *)

Fixpoint compare_chunks (fuel : nat) (fd1 fd2 : fd) : M Z :=
  match fuel with
  | O => undefined
  | S fuel' =>
      r1 <- read fd1 BUFFER_SIZE ;;
      r2 <- read fd2 BUFFER_SIZE ;;
      match r1, r2 with
      | inr (buffer1, fd1'), inr (buffer2, fd2') =>
          if negb (Nat.eqb (length buffer1) (length buffer2)) then
            _ <- close fd1 ;;
            _ <- close fd2 ;;
            ret ERROR_FILES_DIFFER
          else if Nat.eqb (length buffer1) 0 then
            _ <- close fd1 ;;
            _ <- close fd2 ;;
            ret SUCCESS
          else if negb (bool_decide (buffer1 = buffer2)) then
            _ <- close fd1 ;;
            _ <- close fd2 ;;
            ret ERROR_FILES_DIFFER
          else compare_chunks fuel' fd1' fd2'
      | _, _ =>
          _ <- close fd1 ;;
          _ <- close fd2 ;;
          ret ERROR_FILE_READ
      end
  end.

Definition compare_files (fuel : nat) (file1 file2 : string) : M Z :=
  e1 <- path_exists file1 ;;
  e2 <- (if e1 then path_exists file2 else ret false) ;;
  if negb e1 || negb e2 then ret ERROR_FILE_OPEN
  else
    size1 <- get_file_size file1 ;;
    size2 <- get_file_size file2 ;;
    if negb (size1 =? size2)%Z then ret ERROR_FILES_DIFFER
    else
      o1 <- open_rd file1 ;;
      match o1 with
      | inl _ => ret ERROR_FILE_OPEN
      | inr fd1 =>
          o2 <- open_rd file2 ;;
          match o2 with
          | inl _ =>
              _ <- close fd1 ;;
              ret ERROR_FILE_OPEN
          | inr fd2 => compare_chunks fuel fd1 fd2
          end
      end.

(** ** Moving *)

(** The [readdir] loop of [remove_directory]; the results of the
    recursive call, of [unlink] and of [rmdir] are not looked at. *)
Fixpoint remove_entries (rec : string -> M Z) (path : string) (entries : list string) : M unit :=
  match entries with
  | [] => ret tt
  | name :: rest =>
      if pseudo_entry name then remove_entries rec path rest
      else
        let filepath := join path name in
        d <- is_directory filepath ;;
        _ <- (if d then _ <- rec filepath ;; ret tt else _ <- unlink filepath ;; ret tt) ;;
        remove_entries rec path rest
  end.

Fixpoint remove_directory (fuel : nat) (path : string) : M Z :=
  match fuel with
  | O => undefined
  | S fuel' =>
      d <- opendir path ;;
      match d with
      | inl _ => ret ERROR_DIR_OPEN
      | inr entries =>
          _ <- remove_entries (remove_directory fuel') path entries ;;
          _ <- closedir path ;;
          _ <- rmdir path ;;
          ret SUCCESS
      end
  end.

Definition move_file (fuel : nat) (src_path dest_path : string) : M Z :=
  r <- rename src_path dest_path ;;
  match r with
  | inr _ => ret SUCCESS
  | inl e =>
      if bool_decide (e = EXDEV) then
        result <- copy_file fuel src_path dest_path ;;
        if negb (result =? SUCCESS)%Z then ret result
        else
          result <- compare_files fuel src_path dest_path ;;
          if negb (result =? SUCCESS)%Z then
            _ <- unlink dest_path ;;
            ret ERROR_MOVE_FAILED
          else
            _ <- mark (Verified src_path dest_path) ;;
            u <- unlink src_path ;;
            if failed u then ret ERROR_MOVE_FAILED else ret SUCCESS
      else ret ERROR_MOVE_FAILED
  end.

Definition move_directory (fuel : nat) (src_path dest_path : string) : M Z :=
  r <- rename src_path dest_path ;;
  match r with
  | inr _ => ret SUCCESS
  | inl e =>
      if bool_decide (e = EXDEV) then
        result <- copy_directory fuel src_path dest_path ;;
        if negb (result =? SUCCESS)%Z then ret result
        else
          result <- remove_directory fuel src_path ;;
          if negb (result =? SUCCESS)%Z then ret ERROR_MOVE_FAILED else ret SUCCESS
      else ret ERROR_MOVE_FAILED
  end.

(** ** The parent of a path ([get_parent_directory])

    The function writes to the buffer [parent] of [size] bytes; the model
    gives the text that the buffer holds afterwards, from the text of
    [path] at entry (the explorer passes one buffer for both).  A buffer
    of fewer than two bytes is overrun: the run has no result then. *)

(** The loop that cuts the slashes at the end while more than one
    character is left, bounded by the length of the text. *)
Fixpoint trim_slashes (n : nat) (parent : string) : string :=
  match n with
  | O => parent
  | S n' =>
      if (1 <? String.length parent)%nat && ends_with_slash parent
      then trim_slashes n' (String.substring 0 (String.length parent - 1) parent)
      else parent
  end.

Definition get_parent_directory (path : string) (size : nat) : option string :=
  if (size <? 2)%nat then None
  else
    let parent := snprintf size path in
    let parent := trim_slashes (String.length parent) parent in
    match after_last_slash parent with
    | Some tail =>
        let last_slash := (String.length parent - S (String.length tail))%nat in
        if Nat.eqb last_slash 0 then Some (String.substring 0 1 parent)
        else Some (String.substring 0 last_slash parent)
    | None => Some "."%string
    end.

(** ** The pattern lines of the filtered copy ([handle_filtered_copy]) *)

Definition MAX_PATTERNS : nat := 10.

(** The fields of a line between its commas. *)
Fixpoint fields (s : string) : list string :=
  match s with
  | EmptyString => [EmptyString]
  | String c r =>
      if Ascii.eqb c "," then EmptyString :: fields r
      else
        match fields r with
        | f :: fs => String c f :: fs
        | [] => [String c EmptyString]
        end
  end.

Definition nonempty (s : string) : bool := negb (String.eqb s "").

(** The tokens that the calls of [strtok] with the comma as delimiter
    give one after the other: the fields that are not empty. *)
Definition strtok_all (line : string) : list string :=
  List.filter nonempty (fields line).

(** The loop that steps over the spaces in front of a token. *)
Fixpoint skip_spaces (token : string) : string :=
  match token with
  | String c r => if Ascii.eqb c " " then skip_spaces r else token
  | EmptyString => token
  end.

(** The parsing of a pattern line, and what is passed on to the copy: the
    array of the first [MAX_PATTERNS] tokens, or NULL when there is
    none. *)
Definition parse_patterns (line : string) : option (list string) :=
  let patterns := skip_spaces <$> take MAX_PATTERNS (strtok_all line) in
  if Nat.eqb (length patterns) 0 then None else Some patterns.

(** ** The checksum ([calculate_md5], [verify_checksum])

    [unsigned long] is 64 bits wide, as it is where the program builds
    (LP64).  Whether [char] is signed is the compiler's choice:
    [char_signed] says which. *)

Definition ULONG_MAX : Z := 2 ^ 64 - 1.

Definition to_ulong (z : Z) : Z := z mod (ULONG_MAX + 1).

(** The value of a [char] of the buffer. *)
Definition char_value (char_signed : bool) (b : byte) : Z :=
  let n := Z.of_N (Byte.to_N b) in
  if char_signed && (128 <=? n)%Z then (n - 256)%Z else n.

(** One turn of the inner loop: [hash = ((hash << 5) + hash) + c] and
    [hash2 = hash2 * 31 + c], in [unsigned long]. *)
Definition hash_byte (char_signed : bool) (h : Z * Z) (b : byte) : Z * Z :=
  let c := to_ulong (char_value char_signed b) in
  (to_ulong (to_ulong (to_ulong (Z.shiftl h.1 5) + h.1) + c),
   to_ulong (to_ulong (h.2 * 31) + c)).

(** The read loop of [calculate_md5]: [inl] is a read that failed. *)
Fixpoint hash_chunks (char_signed : bool) (fuel : nat) (f : fd) (h : Z * Z)
    : M (errno + Z * Z) :=
  match fuel with
  | O => undefined
  | S fuel' =>
      r <- read f BUFFER_SIZE ;;
      match r with
      | inl e => ret (inl e)
      | inr (chunk, f') =>
          if Nat.eqb (length chunk) 0 then ret (inr h)
          else hash_chunks char_signed fuel' f' (fold_left (hash_byte char_signed) chunk h)
      end
  end.

Definition hex_digit (d : Z) : ascii :=
  match String.get (Z.to_nat d) "0123456789abcdef" with
  | Some c => c
  | None => "0"
  end.

(** [width] hexadecimal digits of [v], the most significant first: what
    the conversion [%016lx] prints of an [unsigned long] for [width] 16. *)
Fixpoint hex (width : nat) (v : Z) : string :=
  match width with
  | O => EmptyString
  | S w => String (hex_digit (Z.shiftr v (4 * Z.of_nat w) mod 16)) (hex w v)
  end.

(** The result code, and the text written to [checksum] when one is
    written. *)
Definition calculate_md5 (char_signed : bool) (fuel : nat) (filepath : string)
    : M (Z * option string) :=
  o <- open_rd filepath ;;
  match o with
  | inl _ => ret (ERROR_FILE_OPEN, None)
  | inr f =>
      l <- hash_chunks char_signed fuel f (5381, 0)%Z ;;
      _ <- close f ;;
      match l with
      | inl _ => ret (ERROR_FILE_READ, None)
      | inr (hash, hash2) => ret (SUCCESS, Some (snprintf 33 (hex 16 hash +:+ hex 16 hash2)))
      end
  end.

Definition verify_checksum (char_signed : bool) (fuel : nat)
    (filepath expected_checksum : string) : M Z :=
  r <- calculate_md5 char_signed fuel filepath ;;
  let '(result, actual_checksum) := r in
  if negb (result =? SUCCESS)%Z then ret result
  else
    match actual_checksum with
    | None => undefined
    | Some actual =>
        if negb (String.eqb actual expected_checksum) then ret ERROR_FILES_DIFFER
        else ret SUCCESS
    end.

(** ** Statistics ([CopyStats])

    [long] and [time_t] are 64 bits wide and signed; arithmetic on them
    that overflows has no defined result.  [double] is the binary64 format
    of the primitive floats. *)

Definition LONG_MAX : Z := 2 ^ 63 - 1.
Definition LONG_MIN : Z := - 2 ^ 63.

(** The result of an operation on [long] when it has one. *)
Definition long (z : Z) : option Z :=
  if (LONG_MIN <=? z)%Z && (z <=? LONG_MAX)%Z then Some z else None.

(** The conversion of a [long] to [double]: to the nearest value. *)
Definition double_of_long (z : Z) : float :=
  if (z =? LONG_MIN)%Z then (-0x1p63)%float
  else if (z <? 0)%Z then PrimFloat.opp (PrimFloat.of_uint63 (Uint63.of_Z (- z)))
  else PrimFloat.of_uint63 (Uint63.of_Z z).

(** The conversion of a [double] to [long]: towards zero, and without a
    defined result when the value is out of range or not a number. *)
Definition long_of_double (f : float) : option Z :=
  match Prim2SF f with
  | S754_zero _ => Some 0%Z
  | S754_finite s m e =>
      let magnitude := if (0 <=? e)%Z then (Z.pos m * 2 ^ e)%Z else (Z.pos m / 2 ^ (- e))%Z in
      long (if s then - magnitude else magnitude)%Z
  | S754_infinity _ => None
  | S754_nan => None
  end.

Record CopyStats := {
  total_files : Z;
  total_dirs : Z;
  total_bytes : Z;
  copied_bytes : Z;
  start_time : Z;
  current_time : Z;
  transfer_speed : float
}.

Definition calculate_speed (stats : CopyStats) : option float :=
  match long (current_time stats - start_time stats) with
  | None => None
  | Some elapsed =>
      if (elapsed <=? 0)%Z then Some 0%float
      else Some (PrimFloat.div (double_of_long (copied_bytes stats)) (double_of_long elapsed))
  end.

Definition estimate_time_remaining (stats : CopyStats) : option Z :=
  if PrimFloat.leb (transfer_speed stats) 0%float || (total_bytes stats <=? 0)%Z then Some 0%Z
  else
    match long (total_bytes stats - copied_bytes stats) with
    | None => None
    | Some remaining_bytes =>
        long_of_double (PrimFloat.div (double_of_long remaining_bytes) (transfer_speed stats))
    end.

(** A computation that has no result when [o] has none. *)
Definition lift {A} (o : option A) : M A :=
  match o with
  | Some a => ret a
  | None => undefined
  end.

Section Clock.

(** The clock that [time(NULL)] reads, by the number of events so far. *)
Context (clock : nat -> Z).

Definition time : M Z := fun w => Some (clock (length (w_trace w)), w).

Definition init_stats : M CopyStats :=
  now <- time ;;
  ret {| total_files := 0; total_dirs := 0; total_bytes := 0; copied_bytes := 0;
         start_time := now; current_time := now; transfer_speed := 0%float |}.

Definition update_stats (stats : CopyStats) (bytes : Z) : M CopyStats :=
  copied <- lift (long (copied_bytes stats + bytes)) ;;
  now <- time ;;
  let stats :=
    {| total_files := total_files stats; total_dirs := total_dirs stats;
       total_bytes := total_bytes stats; copied_bytes := copied;
       start_time := start_time stats; current_time := now;
       transfer_speed := transfer_speed stats |} in
  speed <- lift (calculate_speed stats) ;;
  ret {| total_files := total_files stats; total_dirs := total_dirs stats;
         total_bytes := total_bytes stats; copied_bytes := copied_bytes stats;
         start_time := start_time stats; current_time := current_time stats;
         transfer_speed := speed |}.

(** ** The filtered copy

    The result, and the statistics as the call leaves them; [None] is the
    NULL pointer. *)
Definition copy_file_filtered (fuel : nat) (src_path dest_path : string)
    (include_patterns exclude_patterns : option (list string))
    (stats : option CopyStats) : M (Z * option CopyStats) :=
  let filename := basename src_path in
  if negb (should_copy_file filename include_patterns exclude_patterns)
  then ret (SUCCESS, stats)
  else
    result <- copy_file fuel src_path dest_path ;;
    match stats with
    | Some s =>
        if (result =? SUCCESS)%Z then
          files <- lift (long (total_files s + 1)) ;;
          let s := {| total_files := files; total_dirs := total_dirs s;
                      total_bytes := total_bytes s; copied_bytes := copied_bytes s;
                      start_time := start_time s; current_time := current_time s;
                      transfer_speed := transfer_speed s |} in
          size <- get_file_size dest_path ;;
          if (0 <? size)%Z then
            bytes <- lift (long (total_bytes s + size)) ;;
            let s := {| total_files := total_files s; total_dirs := total_dirs s;
                        total_bytes := bytes; copied_bytes := copied_bytes s;
                        start_time := start_time s; current_time := current_time s;
                        transfer_speed := transfer_speed s |} in
            s <- update_stats s size ;;
            ret (result, Some s)
          else ret (result, Some s)
        else ret (result, stats)
    | None => ret (result, None)
    end.

(** The [readdir] loop of [copy_directory_filtered]; [rec] is the
    recursive call. *)
Fixpoint copy_entries_filtered
    (rec : string -> string -> option CopyStats -> M (Z * option CopyStats))
    (fuel : nat) (src_path dest_path : string)
    (include_patterns exclude_patterns : option (list string))
    (entries : list string) (stats : option CopyStats) : M (Z * option CopyStats) :=
  match entries with
  | [] =>
      _ <- closedir src_path ;;
      ret (SUCCESS, stats)
  | name :: rest =>
      if pseudo_entry name
      then copy_entries_filtered rec fuel src_path dest_path
             include_patterns exclude_patterns rest stats
      else
        let src_file := join src_path name in
        let dest_file := join dest_path name in
        d <- is_directory src_file ;;
        r <- (if d then rec src_file dest_file stats
              else copy_file_filtered fuel src_file dest_file
                     include_patterns exclude_patterns stats) ;;
        let '(result, stats) := r in
        if (result =? SUCCESS)%Z
        then copy_entries_filtered rec fuel src_path dest_path
               include_patterns exclude_patterns rest stats
        else
          _ <- closedir src_path ;;
          ret (result, stats)
  end.

Fixpoint copy_directory_filtered (fuel : nat) (src_path dest_path : string)
    (include_patterns exclude_patterns : option (list string))
    (stats : option CopyStats) : M (Z * option CopyStats) :=
  match fuel with
  | O => undefined
  | S fuel' =>
      result <- create_directory dest_path ;;
      if (result =? SUCCESS)%Z then
        stats <- match stats with
                 | Some s =>
                     dirs <- lift (long (total_dirs s + 1)) ;;
                     ret (Some {| total_files := total_files s; total_dirs := dirs;
                                  total_bytes := total_bytes s;
                                  copied_bytes := copied_bytes s;
                                  start_time := start_time s;
                                  current_time := current_time s;
                                  transfer_speed := transfer_speed s |})
                 | None => ret None
                 end ;;
        d <- opendir src_path ;;
        match d with
        | inl _ => ret (ERROR_DIR_OPEN, stats)
        | inr entries =>
            copy_entries_filtered
              (fun s d st => copy_directory_filtered fuel' s d
                               include_patterns exclude_patterns st)
              fuel' src_path dest_path include_patterns exclude_patterns entries stats
        end
      else ret (result, stats)
  end.

End Clock.

(** ** Notions used by the properties *)

(** The entries of a pattern array; the NULL pointer has none. *)
Definition patterns_of (array : option (list string)) : list string :=
  match array with
  | Some l => l
  | None => []
  end.

(** The characters that [fnmatch] does not read as [*], [?] or
    themselves. *)
Definition special (c : ascii) : bool := Ascii.eqb c "[" || Ascii.eqb c "\".

Definition plain_pattern (pattern : string) : Prop :=
  forallb (fun c => negb (special c)) (list_ascii_of_string pattern) = true.

Definition simple_token (c : ascii) : Fnmatch.token :=
  if Ascii.eqb c "*" then Fnmatch.TStar
  else if Ascii.eqb c "?" then Fnmatch.TAny
  else Fnmatch.TLit c.

(** No call fails for a reason that the namespace does not determine. *)
Definition fault_free (w : world) : Prop :=
  forall t c, w_faults w t c = None.

(** The two calls that carry the mode over in [copy_file] are not made to
    fail. *)
Definition mode_calls_succeed (w : world) : Prop :=
  (forall t f, w_faults w t (Fstat f) = None)
  /\ (forall t f m, w_faults w t (Fchmod f m) = None).

(** The permission bits of a node, as [stat] reports them. *)
Definition perm_bits (n : node) : Z :=
  match n with
  | File perm _ => Z.land perm S_IALLUGO
  | Dir perm => Z.land perm S_IALLUGO
  end.

(** ** A small world for the examples

    A regular file [a.txt] of two bytes in the working directory, an empty
    directory [mnt] where a second device is mounted, and a directory [s]
    with a file [s/f], a subdirectory [s/t] and a file [s/t/g]. *)

Definition no_faults : nat -> syscall -> option fault := fun _ _ => None.

Definition two_devices (k : key) : nat :=
  match k with
  | mount :: _ => if String.eqb mount "mnt" then 1%nat else 0%nat
  | [] => 0%nat
  end.

Definition example_fs : gmap key node :=
  list_to_map
    [ (["a.txt"%string], File 384 [x68; x69]);
      (["mnt"%string], Dir 493);
      (["s"%string], Dir 493);
      (["s"%string; "f"%string], File 420 [x61]);
      (["s"%string; "t"%string], Dir 493);
      (["s"%string; "t"%string; "g"%string], File 420 [x62]) ].

Definition example_world : world := World example_fs two_devices no_faults [].

(** The same world on a file system that refuses to change modes. *)
Definition refuse_fchmod : nat -> syscall -> option fault :=
  fun _ c => match c with Fchmod _ _ => Some FaultPerm | _ => None end.

Definition chmod_refused_world : world := World example_fs two_devices refuse_fchmod [].

(** The same world in which the copy on the second device cannot be read
    back. *)
Definition refuse_read_back : nat -> syscall -> option fault :=
  fun _ c =>
    match c with
    | OpenRd p => if String.eqb p "mnt/b" then Some FaultAccess else None
    | _ => None
    end.

Definition unreadable_copy_world : world :=
  World example_fs two_devices refuse_read_back [].

(** The same world with a source tree that is read-only: no name can be
    unlinked. *)
Definition refuse_unlink : nat -> syscall -> option fault :=
  fun _ c => match c with Unlink _ => Some FaultAccess | _ => None end.

Definition unlink_refused_world : world := World example_fs two_devices refuse_unlink [].

(** ** Histories *)

(** The name that an event removed, if it removed one. *)
Definition removed (e : event) : option string :=
  match e with
  | Called (Unlink p) None => Some p
  | Called (Rmdir p) None => Some p
  | _ => None
  end.

(** The events after which the source of a move may be deleted according
    to the specification: the rename of the move succeeded, or the
    destination was compared with the source and found equal. *)
Definition licence (src_path dest_path : string) (e : event) : bool :=
  match e with
  | Called (Rename o n) None => String.eqb o src_path && String.eqb n dest_path
  | Verified a b => String.eqb a src_path && String.eqb b dest_path
  | _ => false
  end.

(** Events that neither remove a name nor license a removal. *)
Definition quiet (e : event) : bool :=
  match e with
  | Called (Unlink _) _ | Called (Rmdir _) _ | Called (Rename _ _) _ | Verified _ _ => false
  | _ => true
  end.

Definition same_key (k k' : key) : bool := bool_decide (k = k').

(** [k'] is [k] or lies under it. *)
Definition within (k k' : key) : bool := bool_decide (take (length k) k' = k).

(** No part of the source is removed before a licence: [h] is a history
    in the order of time, [licensed] tells whether a licence was seen
    before it, [is_source] recognises the names that belong to the
    source. *)
Fixpoint deletes_guarded (is_source : key -> bool) (src_path dest_path : string)
    (licensed : bool) (h : list event) : bool :=
  match h with
  | [] => true
  | e :: rest =>
      match removed e with
      | Some p => licensed || negb (is_source (norm p))
      | None => true
      end
      && deletes_guarded is_source src_path dest_path
           (licensed || licence src_path dest_path e) rest
  end.

Definition is_quiet (e : event) : Prop := quiet e = true.

(** The event opens, for reading, the name [k] or a name under it. *)
Definition opens_to_read (k : key) (e : event) : bool :=
  match e with
  | Called (OpenRd p) _ => within k (norm p)
  | _ => false
  end.

(** Every run of [m] that has a result adds to the history, and adds only
    events that satisfy [P]. *)
Definition emits {A} (P : event -> Prop) (m : M A) : Prop :=
  forall w a w', m w = Some (a, w') ->
    exists new, w_trace w' = new ++ w_trace w /\ Forall P new.

(** ** What a run does to the file system *)

(** Every run of [m] that has a result takes the file system to one that
    is related to it by [R]. *)
Definition steps (R : gmap key node -> gmap key node -> Prop) {A} (m : M A) : Prop :=
  forall w a w', m w = Some (a, w') -> R (w_fs w) (w_fs w').

(** Only the name [kd] may have changed. *)
Definition frame (kd : key) (fs fs' : gmap key node) : Prop :=
  forall k, k <> kd -> fs' !! k = fs !! k.

(** Nothing that was there is gone. *)
Definition keeps (fs fs' : gmap key node) : Prop :=
  forall k, is_Some (fs !! k) -> is_Some (fs' !! k).

(** ** Directories that exist *)

(** Every name of the file system has a parent that is a directory. *)
Definition closedb (fs : gmap key node) : bool :=
  forallb (fun kv : key * node =>
             match parent_is_dir fs kv.1 with None => true | Some _ => false end)
          (map_to_list fs).

(** [p] names a directory. *)
Definition dir_at (fs : gmap key node) (p : string) : Prop :=
  exists k perm, resolve fs p = inr (k, Dir perm).

(** A [stat] call that worked. *)
Definition is_stat (e : event) : Prop := exists q, e = Called (Stat q) None.


(** The example world with a file already in the destination [mnt]. *)
Definition merge_world : world :=
  World (<[["mnt"%string; "old"%string] := File 420 [x63]]> example_fs) two_devices no_faults [].

(** The example world with a directory [mnt/d] on the second device. *)
Definition shelf_world : world :=
  World (<[["mnt"%string; "d"%string] := Dir 493]> example_fs) two_devices no_faults [].

(** ** Notions used by the properties of the tools *)

(** *** Texts *)

Definition has_slash (s : string) : bool :=
  existsb (Ascii.eqb "/") (list_ascii_of_string s).

Definition starts_with_slash (s : string) : bool :=
  match s with
  | String c _ => Ascii.eqb c "/"
  | EmptyString => false
  end.

Fixpoint slashes (n : nat) : string :=
  match n with
  | O => EmptyString
  | S n' => String "/" (slashes n')
  end.

Fixpoint spaces (n : nat) : string :=
  match n with
  | O => EmptyString
  | S n' => String " " (spaces n')
  end.

(** The last component of a path, the slashes at its end aside. *)
Definition final_component (path : string) : string :=
  basename (trim_slashes (String.length path) path).

(** Going up [n] times, as the explorer does when 0 is entered [n]
    times. *)
Fixpoint ascend (n : nat) (path : string) : option string :=
  match n with
  | O => Some path
  | S n' =>
      match get_parent_directory path MAX_PATH with
      | Some parent => ascend n' parent
      | None => None
      end
  end.

Definition has_comma (s : string) : bool :=
  existsb (Ascii.eqb ",") (list_ascii_of_string s).

Definition starts_with_space (s : string) : bool :=
  match s with
  | String c _ => Ascii.eqb c " "
  | EmptyString => false
  end.

(** A pattern that can be written in a line: not empty, no comma, no
    space in front. *)
Definition writable (p : string) : bool :=
  nonempty p && negb (has_comma p) && negb (starts_with_space p).

Fixpoint comma_separated (l : list string) : string :=
  match l with
  | [] => EmptyString
  | [p] => p
  | p :: rest => p +:+ String "," (comma_separated rest)
  end.

(** *** Checksums *)

(** The polynomial of the bytes in [base], from [start]. *)
Definition polynomial (char_signed : bool) (base start : Z) (data : list byte) : Z :=
  fold_left (fun acc b => acc * base + char_value char_signed b)%Z data start.

(** The checksum of a content: the two polynomials in 33 and in 31,
    reduced to 64 bits, in hexadecimal. *)
Definition checksum_of (char_signed : bool) (data : list byte) : string :=
  hex 16 (to_ulong (polynomial char_signed 33 5381 data))
  +:+ hex 16 (to_ulong (polynomial char_signed 31 0 data)).

Definition is_hex (c : ascii) : bool :=
  existsb (Ascii.eqb c) (list_ascii_of_string "0123456789abcdef").

(** The example world with a second file [b.txt] that holds the bytes of
    [a.txt]. *)
Definition twin_world : world :=
  World (<[["b.txt"%string] := File 420 [x68; x69]]> example_fs) two_devices no_faults [].

(** The example world on a device that cannot be read. *)
Definition refuse_read : nat -> syscall -> option fault :=
  fun _ c => match c with Read _ _ => Some FaultIO | _ => None end.

Definition read_refused_world : world := World example_fs two_devices refuse_read [].

(** *** Statistics *)

(** What a filtered copy does to the statistics: the start time stays,
    the counters do not go down, and the bytes copied grow by what the
    bytes counted grow. *)
Definition advances (s s' : CopyStats) : Prop :=
  start_time s' = start_time s
  /\ (total_files s <= total_files s')%Z
  /\ (total_dirs s <= total_dirs s')%Z
  /\ (total_bytes s <= total_bytes s')%Z
  /\ (copied_bytes s' - copied_bytes s = total_bytes s' - total_bytes s)%Z.

Definition advances_if_given (stats stats' : option CopyStats) : Prop :=
  match stats, stats' with
  | Some s, Some s' => advances s s'
  | None, None => True
  | _, _ => False
  end.

(** A clock that ticks with every event, and the statistics that
    [init_stats] leaves at time 0. *)
Definition ticking (events : nat) : Z := Z.of_nat events.

Definition fresh_stats : CopyStats :=
  {| total_files := 0; total_dirs := 0; total_bytes := 0; copied_bytes := 0;
     start_time := 0; current_time := 0; transfer_speed := 0%float |}.

(** *** Histories and worlds *)

(** The events of a walk: looking at names, making directories. *)
Definition walks (e : event) : bool :=
  match e with
  | Called (Stat _) _ | Called (Mkdir _) _ | Called (Opendir _) _ | Called (Closedir _) _ => true
  | _ => false
  end.

Definition is_walk (e : event) : Prop := walks e = true.

(** Every run of [m] leaves the devices and the faults of the world as
    they are. *)
Definition same_env {A} (m : M A) : Prop :=
  forall w a w', m w = Some (a, w') -> w_faults w' = w_faults w /\ w_dev w' = w_dev w.

(** No [stat] call is made to fail. *)
Definition stat_calls_succeed (w : world) : Prop :=
  forall t p, w_faults w t (Stat p) = None.

(** *** File systems *)

(** The namespace of the model holds regular files and directories, and a
    path is resolved by its text: a component [..] is a name like any
    other.  The properties that say which names a run changes are stated
    for paths and names without such components.  A path that is cut at
    [MAX_PATH] can end in the first characters of a name, so names that
    begin with two dots are left out as well. *)
Definition starts_with_dots (c : string) : bool := String.prefix ".." c.

Definition no_dots (k : key) : bool := forallb (fun c => negb (starts_with_dots c)) k.

Definition no_dots_fs (fs : gmap key node) : bool :=
  forallb (fun kv : key * node => no_dots kv.1) (map_to_list fs).

Definition holds_dir (fs : gmap key node) (k : key) : bool :=
  match fs !! k with
  | Some (Dir _) => true
  | _ => false
  end.

(** What is a directory stays one. *)
Definition dirs_stay (fs fs' : gmap key node) : Prop :=
  forall k, holds_dir fs k = true -> holds_dir fs' k = true.

(** Only [kd] and the names under it may have changed. *)
Definition changes_within (kd : key) (fs fs' : gmap key node) : Prop :=
  forall k, within kd k = false -> fs' !! k = fs !! k.

(** Of the names that are neither [kd] nor under it, those that were
    there are as they were. *)
Definition spares_outside (kd : key) (fs fs' : gmap key node) : Prop :=
  forall k, within kd k = false -> is_Some (fs !! k) -> fs' !! k = fs !! k.

Definition is_dir (o : option node) : Prop := exists perm, o = Some (Dir perm).

Definition not_file (o : option node) : Prop := forall perm data, o <> Some (File perm data).

(** A regular file sits at the name [k] or at one of the names above
    it. *)
Definition file_in_the_way (fs : gmap key node) (k : key) : bool :=
  existsb (fun n => match node_at fs (take n k) with
                    | Some (File _ _) => true
                    | _ => false
                    end)
          (seq 0 (S (length k))).

(** [fs'] is [fs] with new directories at [k] or at names above it. *)
Definition made (k : key) (fs fs' : gmap key node) : Prop :=
  forall k', fs' !! k' = fs !! k'
             \/ (fs !! k' = None /\ fs' !! k' = Some (Dir 493) /\ exists n, k' = take n k).

(** The names of the directories that a text passes through before its
    last component. *)
Definition dir_part (s : string) : key :=
  List.filter proper_component (removelast (segments EmptyString s)).

(** *** Trees that can be removed *)

(** A name as a directory holds it: not empty, no slash, neither [.] nor
    [..]. *)
Definition plain_name (name : string) : bool :=
  nonempty name && negb (has_slash name) && negb (pseudo_entry name).

(** The length of the text that the joins build from [path] for the
    components [comps] under it. *)
Fixpoint joined_length (start : nat) (comps : list string) : nat :=
  match comps with
  | [] => start
  | c :: rest => joined_length (start + 1 + String.length c) rest
  end.

(** The tree under the directory [path] is one that [remove_directory]
    can walk with [fuel]: every name in it is made of plain names, has its
    parent directory, is within the depth that the fuel allows, and has a
    path of less than [MAX_PATH] characters. *)
Definition walkable (fs : gmap key node) (path : string) (fuel : nat) : bool :=
  forallb (fun kv : key * node =>
             let k := norm path in
             if within k kv.1 && negb (bool_decide (kv.1 = k)) then
               let comps := drop (length k) kv.1 in
               forallb plain_name comps
               && (joined_length (String.length path) comps <? MAX_PATH)%nat
               && (length comps <? fuel)%nat
               && holds_dir fs (removelast kv.1)
             else true)
          (map_to_list fs).

(** [fs] is [fs0] without the trees under [k] whose first names are in
    [gone]. *)
Definition removed_under (k : key) (gone : list string) (fs0 fs : gmap key node) : Prop :=
  forall k', fs !! k' = if existsb (fun m => within (k ++ [m]) k') gone then None else fs0 !! k'.

(** The names that the loop of [remove_directory] has dealt with after
    [names], when it had dealt with [gone] before. *)
Definition dealt_with (names gone : list string) : list string :=
  fold_left (fun acc n => if pseudo_entry n then acc else n :: acc) names gone.

(** * Properties *)

(** ** Filtering *)

Lemma any_pattern_matches_existsb name patterns :
  any_pattern_matches name patterns = existsb (match_pattern name) patterns.
Proof.
  induction patterns as [|p rest IH]; simpl; [reflexivity|].
  rewrite IH. destruct (match_pattern name p); reflexivity.
Qed.


(** C5: [should_copy_file] is the admission rule of the specification: a
    match in a non-empty exclude list rejects, otherwise an empty include
    list admits, otherwise some include pattern has to match.  A NULL array
    counts as an empty list.  In particular nothing is rejected without
    patterns, a single exclude pattern rejects exactly the names it matches,
    and a name matched by an exclude pattern is rejected whatever the
    include list says. *)
Theorem should_copy_file_admission :
  forall (name : string) (include_patterns exclude_patterns : option (list string)),
    should_copy_file name include_patterns exclude_patterns
      = admission match_pattern name (patterns_of include_patterns) (patterns_of exclude_patterns)
    /\ should_copy_file name (Some []) (Some []) = true
    /\ (forall p, should_copy_file name (Some []) (Some [p]) = false <-> match_pattern name p = true)
    /\ (forall incl excl p,
          In p excl -> match_pattern name p = true ->
          should_copy_file name (Some incl) (Some excl) = false).
Proof.
  intros name incl excl. repeat split.
  - unfold should_copy_file, admission.
    destruct excl as [ex|]; simpl.
    + rewrite any_pattern_matches_existsb.
      destruct ex as [|e ex]; simpl.
      * destruct incl as [[|i inc]|]; simpl; try reflexivity.
        rewrite any_pattern_matches_existsb. reflexivity.
      * destruct (match_pattern name e || existsb (match_pattern name) ex); simpl;
          [reflexivity|].
        destruct incl as [[|i inc]|]; simpl; try reflexivity.
        rewrite any_pattern_matches_existsb. reflexivity.
    + destruct incl as [[|i inc]|]; simpl; try reflexivity.
      rewrite any_pattern_matches_existsb. reflexivity.
  - unfold should_copy_file; simpl. destruct (match_pattern name p); [reflexivity|discriminate].
  - unfold should_copy_file; simpl. destruct (match_pattern name p); [reflexivity|discriminate].
  - intros inc ex p Hin Hm. unfold should_copy_file.
    rewrite any_pattern_matches_existsb.
    assert (existsb (match_pattern name) ex = true) as ->; [|reflexivity].
    apply existsb_exists. exists p. split; assumption.
Qed.

(** ** Pattern matching *)




Lemma tokenize_plain p :
  forallb (fun c => negb (special c)) p = true ->
  Fnmatch.tokenize 0 p = List.map simple_token p.
Proof.
  induction p as [|c r IH]; simpl; [reflexivity|].
  intros H. apply andb_prop in H as [Hc Hr]. rewrite IH by exact Hr.
  unfold special in Hc. apply negb_true_iff, orb_false_elim in Hc as [Hb He].
  unfold simple_token. rewrite Hb, He.
  destruct (Ascii.eqb c "*"); [reflexivity|].
  destruct (Ascii.eqb c "?"); reflexivity.
Qed.

Lemma match_star_skip ts run rest :
  Fnmatch.match_tokens ts rest = true ->
  Fnmatch.match_tokens (Fnmatch.TStar :: ts) (run ++ rest) = true.
Proof.
  intros H. induction run as [|c run IH]; simpl.
  - destruct rest; simpl in *; rewrite H; reflexivity.
  - simpl in IH. rewrite IH. apply orb_true_r.
Qed.

Lemma match_star_split ts s :
  Fnmatch.match_tokens (Fnmatch.TStar :: ts) s = true ->
  exists run rest, s = run ++ rest /\ Fnmatch.match_tokens ts rest = true.
Proof.
  induction s as [|c s IH]; simpl; intros H.
  - exists [], []. split; [reflexivity|]. rewrite orb_false_r in H. exact H.
  - apply orb_prop in H as [H|H].
    + exists [], (c :: s). split; [reflexivity|exact H].
    + destruct (IH H) as (run & rest & -> & Hm).
      exists (c :: run), rest. split; [reflexivity|exact Hm].
Qed.

Lemma glob_sound p : forall s,
  Fnmatch.match_tokens (List.map simple_token p) s = true -> glob p s.
Proof.
  induction p as [|c p IH]; intros s H.
  - destruct s; [constructor|discriminate].
  - change (List.map simple_token (c :: p)) with (simple_token c :: List.map simple_token p) in H.
    unfold simple_token at 1 in H.
    destruct (Ascii.eqb_spec c "*") as [->|Hstar].
    + apply match_star_split in H as (run & rest & -> & Hm).
      apply glob_star, IH, Hm.
    + destruct (Ascii.eqb_spec c "?") as [->|Hone].
      * destruct s as [|d s]; [discriminate|]. apply glob_one, IH, H.
      * destruct s as [|d s]; [discriminate|]. simpl in H.
        apply andb_prop in H as [Hcd Hm].
        apply Ascii.eqb_eq in Hcd as <-.
        apply glob_char; auto.
Qed.

Lemma glob_complete p s :
  glob p s -> Fnmatch.match_tokens (List.map simple_token p) s = true.
Proof.
  induction 1 as [|pat run rest _ IH|pat c s _ IH|pat c s Hstar Hone _ IH].
  - reflexivity.
  - apply (match_star_skip _ run rest IH).
  - exact IH.
  - change (List.map simple_token (c :: pat)) with (simple_token c :: List.map simple_token pat).
    unfold simple_token at 1.
    apply Ascii.eqb_neq in Hstar, Hone. rewrite Hstar, Hone.
    simpl. rewrite Ascii.eqb_refl. exact IH.
Qed.

(** C6, as the code has it: on a pattern without an opening bracket and
    without a backslash, [match_pattern] is the anchored, case-sensitive
    glob match in which [*] is any run of characters and [?] is one
    character.  A bracket or a backslash is handed to [fnmatch], which
    reads them as a bracket expression and as an escape. *)
Theorem match_pattern_plain_glob :
  forall name pattern : string,
    plain_pattern pattern ->
    (match_pattern name pattern = true <-> glob_matches name pattern).
Proof.
  intros name pattern Hplain. unfold match_pattern, Fnmatch.fnmatch, glob_matches.
  rewrite (tokenize_plain _ Hplain).
  split.
  - intros H. apply glob_sound.
    destruct (Fnmatch.match_tokens _ _); [reflexivity|discriminate].
  - intros H. rewrite (glob_complete _ _ H). reflexivity.
Qed.

Lemma match_pattern_plain_glob_witness :
  plain_pattern "*.t?t" /\
  (match_pattern "report.txt" "*.t?t" = true <-> glob_matches "report.txt" "*.t?t").
Proof.
  split; [reflexivity|].
  apply (match_pattern_plain_glob "report.txt" "*.t?t"). reflexivity.
Defined.

(** The unrestricted reading of C6 fails: [fnmatch] knows bracket
    expressions, so the pattern [[ab]] accepts the name [a], which the
    glob language without character classes does not. *)
Lemma match_pattern_bracket_class :
  match_pattern "a" "[ab]" = true /\ ~ glob_matches "a" "[ab]".
Proof.
  split; [reflexivity|].
  unfold glob_matches; simpl. intros H. inversion H.
Qed.

(** ** The monad and the system calls *)

Lemma bind_Some {A B} (m : M A) (f : A -> M B) w b w'' :
  bind m f w = Some (b, w'') <->
  exists a w', m w = Some (a, w') /\ f a w' = Some (b, w'').
Proof.
  unfold bind. split.
  - destruct (m w) as [[a w']|]; [|discriminate]. intros H. exists a, w'. auto.
  - intros (a & w' & -> & H). exact H.
Qed.

Lemma ret_Some {A} (a b : A) w w' : ret a w = Some (b, w') <-> a = b /\ w = w'.
Proof. unfold ret. split; [intros [= -> ->]; auto | intros [-> ->]; reflexivity]. Qed.

Lemma call_Some {A} (c : syscall)
    (sem : gmap key node -> (key -> nat) -> errno + (A * gmap key node))
    (w : world) (r : errno + A) (w' : world) :
  call c sem w = Some (r, w') ->
  match r with
  | inl e => outcome c sem w = inl e /\ w' = record (Called c (Some e)) w
  | inr a => exists fs', outcome c sem w = inr (a, fs')
                         /\ w' = record (Called c None) (with_fs fs' w)
  end.
Proof.
  unfold call. destruct (outcome c sem w) as [e|[a fs']]; intros [= <- <-]; eauto.
Qed.

Lemma call_total {A} (c : syscall) (sem : gmap key node -> (key -> nat) -> errno + (A * gmap key node)) w :
  exists r w', call c sem w = Some (r, w').
Proof. unfold call. destruct (outcome c sem w) as [e|[a fs']]; eauto. Qed.

Lemma outcome_fault_free {A} (c : syscall)
    (sem : gmap key node -> (key -> nat) -> errno + (A * gmap key node)) (w : world) :
  fault_free w -> outcome c sem w = sem (w_fs w) (w_dev w).
Proof. intros H. unfold outcome. rewrite H. reflexivity. Qed.

Lemma outcome_inr {A} (c : syscall)
    (sem : gmap key node -> (key -> nat) -> errno + (A * gmap key node)) (w : world) a fs' :
  outcome c sem w = inr (a, fs') -> sem (w_fs w) (w_dev w) = inr (a, fs').
Proof. unfold outcome. destruct (w_faults w _ c); [discriminate|auto]. Qed.

Lemma outcome_not_EXDEV_fault {A} (c : syscall)
    (sem : gmap key node -> (key -> nat) -> errno + (A * gmap key node)) (w : world) :
  outcome c sem w = inl EXDEV -> sem (w_fs w) (w_dev w) = inl EXDEV.
Proof.
  unfold outcome. destruct (w_faults w _ c) as [f|]; [|auto].
  destruct f; discriminate.
Qed.

Lemma call_fault_free {A} (c : syscall)
    (sem : gmap key node -> (key -> nat) -> errno + (A * gmap key node)) (w : world) :
  fault_free w ->
  call c sem w =
    match sem (w_fs w) (w_dev w) with
    | inl e => Some (inl e, record (Called c (Some e)) w)
    | inr (a, fs') => Some (inr a, record (Called c None) (with_fs fs' w))
    end.
Proof. intros H. unfold call. rewrite (outcome_fault_free _ _ _ H). reflexivity. Qed.

Lemma fault_free_record e w : fault_free w -> fault_free (record e w).
Proof. exact (fun H => H). Qed.

Lemma fault_free_with_fs fs w : fault_free w -> fault_free (with_fs fs w).
Proof. exact (fun H => H). Qed.

(** ** Mode bits *)

Lemma S_ISDIR_file perm : S_ISDIR (Z.lor S_IFREG (Z.land perm S_IALLUGO)) = false.
Proof.
  unfold S_ISDIR. rewrite Z.land_lor_distr_l, <- Z.land_assoc.
  change (Z.land S_IALLUGO S_IFMT) with 0%Z. rewrite Z.land_0_r. reflexivity.
Qed.

Lemma S_ISDIR_dir perm : S_ISDIR (Z.lor S_IFDIR (Z.land perm S_IALLUGO)) = true.
Proof.
  unfold S_ISDIR. rewrite Z.land_lor_distr_l, <- Z.land_assoc.
  change (Z.land S_IALLUGO S_IFMT) with 0%Z. rewrite Z.land_0_r. reflexivity.
Qed.

Lemma S_ISDIR_stat_of n :
  S_ISDIR (st_mode (stat_of n)) = match n with Dir _ => true | File _ _ => false end.
Proof. destruct n; simpl; [apply S_ISDIR_file | apply S_ISDIR_dir]. Qed.

(** [fchmod] keeps the permission bits of the mode that [fstat] gave. *)
Lemma perm_of_st_mode n : Z.land (st_mode (stat_of n)) S_IALLUGO = perm_bits n.
Proof.
  destruct n; simpl; rewrite Z.land_lor_distr_l, <- Z.land_assoc, Z.land_diag;
    reflexivity.
Qed.

(** ** Path names *)

Lemma substring_all s n : (String.length s <= n)%nat -> String.substring 0 n s = s.
Proof.
  revert n. induction s as [|c s IH]; intros n H; destruct n; simpl in *;
    try reflexivity; try lia.
  rewrite IH by lia. reflexivity.
Qed.

Lemma check_name_None p :
  check_name p = None -> (0 < String.length p < MAX_PATH)%nat.
Proof.
  unfold check_name.
  destruct (Nat.eqb_spec (String.length p) 0); [discriminate|].
  destruct (Nat.leb_spec MAX_PATH (String.length p)); [discriminate|]. lia.
Qed.

Lemma snprintf_short p : (String.length p < MAX_PATH)%nat -> snprintf MAX_PATH p = p.
Proof. intros H. unfold snprintf. apply substring_all. lia. Qed.

Lemma resolve_inr fs p k n :
  resolve fs p = inr (k, n) ->
  check_name p = None /\ k = norm p /\ node_at fs k = Some n
  /\ (ends_with_slash p = true -> exists perm, n = Dir perm).
Proof.
  unfold resolve. destruct (check_name p); [discriminate|].
  destruct (node_at fs (norm p)) as [[perm data|perm]|] eqn:E; [| |discriminate].
  - destruct (ends_with_slash p) eqn:Es; [discriminate|].
    intros [= <- <-]. repeat split; auto. discriminate.
  - intros [= <- <-]. repeat split; eauto.
Qed.

Lemma resolve_File fs p k perm data :
  resolve fs p = inr (k, File perm data) ->
  check_name p = None /\ k = norm p /\ k <> [] /\ fs !! k = Some (File perm data)
  /\ ends_with_slash p = false.
Proof.
  intros H. destruct (resolve_inr _ _ _ _ H) as (Hc & -> & Hn & Hs).
  repeat split; auto.
  - intros E. rewrite E in Hn. discriminate.
  - destruct (norm p); [discriminate|exact Hn].
  - destruct (ends_with_slash p); [|reflexivity].
    destruct (Hs eq_refl) as [? ?]; discriminate.
Qed.

Lemma node_at_cons fs c k : node_at fs (c :: k) = fs !! (c :: k).
Proof. reflexivity. Qed.

Lemma node_at_nonempty fs k : k <> [] -> node_at fs k = fs !! k.
Proof. destruct k; [congruence|reflexivity]. Qed.

Lemma node_at_File fs k perm data :
  node_at fs k = Some (File perm data) -> k <> [] /\ fs !! k = Some (File perm data).
Proof. destruct k; [discriminate|]. simpl. split; [discriminate|assumption]. Qed.

Lemma BUFFER_SIZE_pos : (0 < BUFFER_SIZE)%nat.
Proof. unfold BUFFER_SIZE. lia. Qed.

Lemma MAX_PATH_big : (1 < MAX_PATH)%nat.
Proof. unfold MAX_PATH. lia. Qed.

(** ** Chunks *)

Lemma take_length_take {A} (n : nat) (l : list A) : take (length (take n l)) l = take n l.
Proof.
  rewrite length_take. destruct (Nat.le_ge_cases n (length l)).
  - rewrite Nat.min_l by assumption. reflexivity.
  - rewrite Nat.min_r by assumption. rewrite !take_ge by lia. reflexivity.
Qed.

Lemma chunk_split {A} (n off : nat) (l : list A) :
  drop off l = take n (drop off l) ++ drop (off + length (take n (drop off l))) l.
Proof.
  rewrite <- drop_drop. set (rest := drop off l).
  rewrite <- (take_length_take n rest) at 1.
  symmetry. apply take_drop.
Qed.

Lemma chunk_empty {A} (n : nat) (l : list A) :
  (0 < n)%nat -> length (take n l) = 0%nat -> l = [].
Proof.
  intros Hn H. rewrite length_take in H. destruct l; [reflexivity|]. simpl in H. lia.
Qed.

(** ** What the calls do *)

Lemma sem_stat_resolved fs p k n :
  resolve fs p = inr (k, n) -> sem_stat fs p = inr (stat_of n, fs).
Proof. intros H. unfold sem_stat. rewrite H. reflexivity. Qed.

Lemma sem_open_rd_resolved fs p k n :
  resolve fs p = inr (k, n) -> sem_open_rd fs p = inr (Fd k 0, fs).
Proof. intros H. unfold sem_open_rd. rewrite H. reflexivity. Qed.

Lemma sem_open_wr_File fs p k perm data :
  resolve fs p = inr (k, File perm data) ->
  sem_open_wr fs p = inr (Fd k 0, <[k := File perm []]> fs).
Proof.
  intros H. destruct (resolve_File _ _ _ _ _ H) as (Hc & -> & Hne & Hlook & Hslash).
  unfold sem_open_wr. rewrite Hc, (node_at_nonempty _ _ Hne), Hlook, Hslash. reflexivity.
Qed.

Lemma final_dest_path_file src dest n :
  (String.length dest < MAX_PATH)%nat ->
  S_ISDIR (st_mode (stat_of n)) = false ->
  final_dest_path src dest (inr (stat_of n)) = dest.
Proof. intros Hl Hd. unfold final_dest_path. rewrite Hd. apply snprintf_short, Hl. Qed.

(** A call leaves the devices and the faults as they are, and adds one
    event to the history. *)
Lemma call_env {A} (c : syscall)
    (sem : gmap key node -> (key -> nat) -> errno + (A * gmap key node))
    (w : world) (r : errno + A) (w' : world) :
  call c sem w = Some (r, w') ->
  w_faults w' = w_faults w /\ w_dev w' = w_dev w
  /\ exists err, w_trace w' = Called c err :: w_trace w.
Proof.
  intros H. apply call_Some in H. destruct r as [e|a].
  - destruct H as [_ ->]. simpl. eauto.
  - destruct H as (fs' & _ & ->). simpl. eauto.
Qed.

Lemma call_failed_fs {A} (c : syscall)
    (sem : gmap key node -> (key -> nat) -> errno + (A * gmap key node))
    (w : world) (e : errno) (w' : world) :
  call c sem w = Some (inl e, w') -> w_fs w' = w_fs w.
Proof. intros H. apply call_Some in H as [_ ->]. reflexivity. Qed.

Lemma stat_inv p w r w' :
  stat p w = Some (r, w') ->
  w_fs w' = w_fs w /\ w_faults w' = w_faults w
  /\ (forall st, r = inr st -> exists k n, resolve (w_fs w) p = inr (k, n) /\ st = stat_of n).
Proof.
  intros H. pose proof (call_env _ _ _ _ _ H) as (Hf & _ & _).
  apply call_Some in H. destruct r as [e|st].
  - destruct H as [_ ->]. repeat split; auto. discriminate.
  - destruct H as (fs' & Ho & ->). apply outcome_inr in Ho. unfold sem_stat in Ho.
    destruct (resolve (w_fs w) p) as [|[k n]] eqn:E; [discriminate|].
    injection Ho as <- <-. repeat split; auto. intros st' [= <-]. eauto.
Qed.

Lemma open_rd_inv p w r w' :
  open_rd p w = Some (r, w') ->
  w_fs w' = w_fs w /\ w_faults w' = w_faults w
  /\ (forall f, r = inr f -> exists n, resolve (w_fs w) p = inr (fd_key f, n) /\ fd_off f = 0%nat).
Proof.
  intros H. pose proof (call_env _ _ _ _ _ H) as (Hf & _ & _).
  apply call_Some in H. destruct r as [e|f].
  - destruct H as [_ ->]. repeat split; auto. discriminate.
  - destruct H as (fs' & Ho & ->). apply outcome_inr in Ho. unfold sem_open_rd in Ho.
    destruct (resolve (w_fs w) p) as [|[k n]] eqn:E; [discriminate|].
    injection Ho as <- <-. repeat split; auto. intros f' [= <-]. eauto.
Qed.

Lemma open_wr_inv p w r w' :
  open_wr p w = Some (r, w') ->
  w_faults w' = w_faults w
  /\ match r with
     | inl _ => w_fs w' = w_fs w
     | inr f =>
         f = Fd (norm p) 0 /\ norm p <> [] /\ check_name p = None
         /\ ends_with_slash p = false
         /\ (forall perm, node_at (w_fs w) (norm p) <> Some (Dir perm))
         /\ exists perm, w_fs w' = <[norm p := File perm []]> (w_fs w)
     end.
Proof.
  intros H. pose proof (call_env _ _ _ _ _ H) as (Hf & _ & _).
  apply call_Some in H. destruct r as [e|f].
  - destruct H as [_ ->]. split; auto.
  - destruct H as (fs' & Ho & ->). apply outcome_inr in Ho. unfold sem_open_wr in Ho.
    destruct (check_name p); [discriminate|].
    split; [exact Hf|].
    destruct (norm p) as [|c k] eqn:Ek.
    + simpl in Ho. discriminate.
    + rewrite node_at_cons in *.
      destruct (w_fs w !! (c :: k)) as [[perm data|perm]|].
      * destruct (ends_with_slash p); [discriminate|].
        injection Ho as <- <-. repeat split; eauto; discriminate.
      * discriminate.
      * destruct (ends_with_slash p); [discriminate|].
        destruct (parent_is_dir (w_fs w) (c :: k)); [discriminate|].
        injection Ho as <- <-. repeat split; eauto; discriminate.
Qed.

Lemma read_inv f count w r w' :
  read f count w = Some (r, w') ->
  w_fs w' = w_fs w /\ w_faults w' = w_faults w
  /\ (forall chunk f', r = inr (chunk, f') ->
        exists perm data, node_at (w_fs w) (fd_key f) = Some (File perm data)
          /\ chunk = take count (drop (fd_off f) data)
          /\ f' = Fd (fd_key f) (fd_off f + length chunk)).
Proof.
  intros H. pose proof (call_env _ _ _ _ _ H) as (Hf & _ & _).
  apply call_Some in H. destruct r as [e|[chunk f']].
  - destruct H as [_ ->]. repeat split; auto. discriminate.
  - destruct H as (fs' & Ho & ->). apply outcome_inr in Ho. unfold sem_read in Ho.
    destruct (node_at (w_fs w) (fd_key f)) as [[perm data|perm]|] eqn:E; try discriminate.
    injection Ho as <- <- <-. repeat split; auto.
    intros chunk' f'' [= <- <-]. eauto.
Qed.

Lemma write_inv f buf w r w' :
  write f buf w = Some (r, w') ->
  w_faults w' = w_faults w
  /\ match r with
     | inl _ => w_fs w' = w_fs w
     | inr (n, f') =>
         n = length buf /\ f' = Fd (fd_key f) (fd_off f + length buf)
         /\ exists perm data, node_at (w_fs w) (fd_key f) = Some (File perm data)
              /\ w_fs w' = <[fd_key f := File perm (write_at (fd_off f) buf data)]> (w_fs w)
     end.
Proof.
  intros H. pose proof (call_env _ _ _ _ _ H) as (Hf & _ & _).
  apply call_Some in H. destruct r as [e|[n f']].
  - destruct H as [_ ->]. split; auto.
  - destruct H as (fs' & Ho & ->). apply outcome_inr in Ho. unfold sem_write in Ho.
    destruct (node_at (w_fs w) (fd_key f)) as [[perm data|perm]|] eqn:E; try discriminate.
    injection Ho as <- <- <-. repeat split; eauto.
Qed.

Lemma close_inv f w r w' :
  close f w = Some (r, w') -> w_fs w' = w_fs w /\ w_faults w' = w_faults w.
Proof.
  intros H. pose proof (call_env _ _ _ _ _ H) as (Hf & _ & _).
  apply call_Some in H. destruct r as [e|[]].
  - destruct H as [_ ->]. auto.
  - destruct H as (fs' & Ho & ->). apply outcome_inr in Ho.
    injection Ho as <-. auto.
Qed.

Lemma get_file_size_inv p w z w' :
  get_file_size p w = Some (z, w') -> w_fs w' = w_fs w /\ w_faults w' = w_faults w.
Proof.
  unfold get_file_size. intros H. apply bind_Some in H as (r & w1 & Hs & H).
  apply stat_inv in Hs as (Hfs & Hf & _).
  destruct r; apply ret_Some in H as [_ <-]; auto.
Qed.

(** ** Histories of runs *)


Lemma emits_ret {A} (P : event -> Prop) (a : A) : emits P (ret a).
Proof. intros w b w' [= <- <-]. exists []. split; [reflexivity|constructor]. Qed.

Lemma emits_undefined {A} (P : event -> Prop) : emits P (@undefined A).
Proof. intros w b w' [=]. Qed.

Lemma emits_bind {A B} (P : event -> Prop) (m : M A) (f : A -> M B) :
  emits P m -> (forall a, emits P (f a)) -> emits P (bind m f).
Proof.
  intros Hm Hf w b w'' H. apply bind_Some in H as (a & w' & H1 & H2).
  destruct (Hm _ _ _ H1) as (n1 & E1 & F1). destruct (Hf _ _ _ _ H2) as (n2 & E2 & F2).
  exists (n2 ++ n1). split.
  - rewrite E2, E1, app_assoc. reflexivity.
  - apply Forall_app. split; assumption.
Qed.

Lemma emits_call {A} (P : event -> Prop) (c : syscall)
    (sem : gmap key node -> (key -> nat) -> errno + (A * gmap key node)) :
  (forall err, P (Called c err)) -> emits P (call c sem).
Proof.
  intros HP w r w' H. destruct (call_env _ _ _ _ _ H) as (_ & _ & err & E).
  exists [Called c err]. split; [exact E|]. constructor; [apply HP|constructor].
Qed.

Lemma emits_mark (P : event -> Prop) (e : event) : P e -> emits P (mark e).
Proof.
  intros HP w [] w' [= <-]. exists [e]. split; [reflexivity|].
  constructor; [exact HP|constructor].
Qed.

Lemma emits_weaken {A} (P Q : event -> Prop) (m : M A) :
  (forall e, P e -> Q e) -> emits P m -> emits Q m.
Proof.
  intros HPQ Hm w a w' H. destruct (Hm _ _ _ H) as (new & E & F).
  exists new. split; [exact E|]. eapply Forall_impl; eauto.
Qed.

Ltac emits_step :=
  match goal with
  | |- emits _ (bind _ _) => apply emits_bind; [|intros ?]
  | |- emits _ (ret _) => apply emits_ret
  | |- emits _ undefined => apply emits_undefined
  | |- emits _ (call _ _) => apply emits_call; intros ?; reflexivity
  | |- emits _ (mark _) => apply emits_mark; reflexivity
  | |- emits _ (match ?x with _ => _ end) => destruct x
  | |- emits _ (if ?x then _ else _) => destruct x
  end.

Ltac emits_auto := repeat emits_step.


Lemma quiet_path_exists p : emits is_quiet (path_exists p).
Proof. unfold path_exists, stat. emits_auto. Qed.

Lemma quiet_is_directory p : emits is_quiet (is_directory p).
Proof. unfold is_directory, stat. emits_auto. Qed.

Lemma quiet_get_file_size p : emits is_quiet (get_file_size p).
Proof. unfold get_file_size, stat. emits_auto. Qed.

Lemma quiet_make_if_missing p : emits is_quiet (make_if_missing p).
Proof.
  unfold make_if_missing. apply emits_bind; [apply quiet_path_exists|intros e].
  unfold mkdir. emits_auto.
Qed.

Lemma quiet_create_parents rest : forall before, emits is_quiet (create_parents before rest).
Proof.
  induction rest as [|c r IH]; intros before; cbn [create_parents].
  - apply emits_ret.
  - destruct (Ascii.eqb c "/"); [|apply IH].
    apply emits_bind; [apply quiet_make_if_missing|intros res].
    destruct (res =? SUCCESS)%Z; [apply IH|apply emits_ret].
Qed.

Lemma quiet_create_directory p : emits is_quiet (create_directory p).
Proof.
  unfold create_directory.
  destruct (Nat.eqb _ 0); [apply emits_undefined|].
  apply emits_bind.
  - destruct (strip_trailing_slash _); [apply emits_ret|apply quiet_create_parents].
  - intros res. destruct (res =? SUCCESS)%Z; [apply quiet_make_if_missing|apply emits_ret].
Qed.

Lemma quiet_copy_chunks fuel : forall s d, emits is_quiet (copy_chunks fuel s d).
Proof.
  induction fuel as [|fuel IH]; intros s d; cbn [copy_chunks].
  - apply emits_undefined.
  - unfold read, write, close.
    apply emits_bind; [emits_auto|intros r].
    destruct r as [e|[chunk s']]; [emits_auto|].
    destruct (Nat.eqb (length chunk) 0); [emits_auto|].
    apply emits_bind; [emits_auto|intros wr].
    destruct wr as [e|[n d']]; [emits_auto|].
    destruct (Nat.eqb n (length chunk)); [apply IH|emits_auto].
Qed.

Lemma quiet_copy_mode s d : emits is_quiet (copy_mode s d).
Proof. unfold copy_mode, fstat, fchmod. emits_auto. Qed.

Lemma quiet_copy_file fuel src dest : emits is_quiet (copy_file fuel src dest).
Proof.
  unfold copy_file.
  apply emits_bind; [apply quiet_get_file_size|intros z].
  unfold open_rd, stat, open_wr, close.
  apply emits_bind; [emits_auto|intros o].
  destruct o as [e|s]; [emits_auto|].
  apply emits_bind; [emits_auto|intros st].
  apply emits_bind; [emits_auto|intros o].
  destruct o as [e|d]; [emits_auto|].
  apply emits_bind; [apply quiet_copy_chunks|intros l].
  destruct l as [code|[s' d']]; [emits_auto|].
  apply emits_bind; [apply quiet_copy_mode|intros u]. emits_auto.
Qed.

Lemma quiet_copy_entries rec fuel src dest entries :
  (forall a b, emits is_quiet (rec a b)) ->
  emits is_quiet (copy_entries rec fuel src dest entries).
Proof.
  intros Hrec. induction entries as [|name rest IH]; cbn [copy_entries].
  - unfold closedir. emits_auto.
  - destruct (pseudo_entry name); [exact IH|].
    apply emits_bind; [apply quiet_is_directory|intros d].
    apply emits_bind.
    + destruct d; [apply Hrec|apply quiet_copy_file].
    + intros result. destruct (result =? SUCCESS)%Z; [exact IH|].
      unfold closedir. emits_auto.
Qed.

Lemma quiet_copy_directory fuel : forall src dest, emits is_quiet (copy_directory fuel src dest).
Proof.
  induction fuel as [|fuel IH]; intros src dest; cbn [copy_directory].
  - apply emits_undefined.
  - apply emits_bind; [apply quiet_create_directory|intros result].
    destruct (result =? SUCCESS)%Z; [|apply emits_ret].
    unfold opendir. apply emits_bind; [emits_auto|intros d].
    destruct d as [e|entries]; [apply emits_ret|].
    apply quiet_copy_entries, IH.
Qed.

Lemma quiet_compare_chunks fuel : forall a b, emits is_quiet (compare_chunks fuel a b).
Proof.
  induction fuel as [|fuel IH]; intros a b; cbn [compare_chunks].
  - apply emits_undefined.
  - unfold read, close.
    apply emits_bind; [emits_auto|intros r1].
    apply emits_bind; [emits_auto|intros r2].
    destruct r1 as [e1|[b1 a']], r2 as [e2|[b2 b']]; try solve [emits_auto].
    destruct (negb (Nat.eqb (length b1) (length b2))); [emits_auto|].
    destruct (Nat.eqb (length b1) 0); [emits_auto|].
    destruct (negb (bool_decide (b1 = b2))); [emits_auto|apply IH].
Qed.

Lemma quiet_compare_files fuel f1 f2 : emits is_quiet (compare_files fuel f1 f2).
Proof.
  unfold compare_files.
  apply emits_bind; [apply quiet_path_exists|intros e1].
  apply emits_bind; [destruct e1; [apply quiet_path_exists|apply emits_ret]|intros e2].
  destruct (negb e1 || negb e2); [apply emits_ret|].
  apply emits_bind; [apply quiet_get_file_size|intros s1].
  apply emits_bind; [apply quiet_get_file_size|intros s2].
  destruct (negb (s1 =? s2)%Z); [apply emits_ret|].
  unfold open_rd, close.
  apply emits_bind; [emits_auto|intros o1].
  destruct o1 as [e|a]; [emits_auto|].
  apply emits_bind; [emits_auto|intros o2].
  destruct o2 as [e|b]; [emits_auto|apply quiet_compare_chunks].
Qed.

(** ** Effects of runs on the file system *)

Section Steps.
Context (R : gmap key node -> gmap key node -> Prop).
Context (R_refl : forall fs, R fs fs).
Context (R_trans : forall a b c, R a b -> R b c -> R a c).

Lemma steps_ret {A} (a : A) : steps R (ret a).
Proof. intros w b w' [= <- <-]. apply R_refl. Qed.

Lemma steps_undefined {A} : steps R (@undefined A).
Proof. intros w b w' [=]. Qed.

Lemma steps_mark (e : event) : steps R (mark e).
Proof. intros w [] w' [= <-]. apply R_refl. Qed.

Lemma steps_bind {A B} (m : M A) (f : A -> M B) :
  steps R m -> (forall a, steps R (f a)) -> steps R (bind m f).
Proof.
  intros Hm Hf w b w'' H. apply bind_Some in H as (a & w' & H1 & H2).
  eapply R_trans; [eapply Hm, H1|eapply Hf, H2].
Qed.

Lemma steps_call {A} (c : syscall)
    (sem : gmap key node -> (key -> nat) -> errno + (A * gmap key node)) :
  (forall fs dev a fs', sem fs dev = inr (a, fs') -> R fs fs') -> steps R (call c sem).
Proof.
  intros Hsem w r w' H. apply call_Some in H. destruct r as [e|a].
  - destruct H as [_ ->]. apply R_refl.
  - destruct H as (fs' & Ho & ->). apply outcome_inr in Ho. eapply Hsem, Ho.
Qed.

Lemma steps_stat p : steps R (stat p).
Proof.
  apply steps_call. intros fs dev a fs'. unfold sem_stat.
  destruct (resolve fs p) as [|[]]; intros [= _ <-]. apply R_refl.
Qed.

Lemma steps_open_rd p : steps R (open_rd p).
Proof.
  apply steps_call. intros fs dev a fs'. unfold sem_open_rd.
  destruct (resolve fs p) as [|[]]; intros [= _ <-]. apply R_refl.
Qed.

Lemma steps_read f n : steps R (read f n).
Proof.
  apply steps_call. intros fs dev a fs'. unfold sem_read.
  destruct (node_at fs (fd_key f)) as [[]|]; intros [= _ <-]. apply R_refl.
Qed.

Lemma steps_fstat f : steps R (fstat f).
Proof.
  apply steps_call. intros fs dev a fs'. unfold sem_fstat.
  destruct (node_at fs (fd_key f)); intros [= _ <-]. apply R_refl.
Qed.

Lemma steps_close f : steps R (close f).
Proof. apply steps_call. intros fs dev a fs' [= _ <-]. apply R_refl. Qed.

Lemma steps_opendir p : steps R (opendir p).
Proof.
  apply steps_call. intros fs dev a fs'. unfold sem_opendir.
  destruct (resolve fs p) as [|[? []]]; intros [= _ <-]. apply R_refl.
Qed.

Lemma steps_closedir p : steps R (closedir p).
Proof. apply steps_call. intros fs dev a fs' [= _ <-]. apply R_refl. Qed.

Lemma steps_path_exists p : steps R (path_exists p).
Proof. apply steps_bind; [apply steps_stat|intros; apply steps_ret]. Qed.

Lemma steps_is_directory p : steps R (is_directory p).
Proof. apply steps_bind; [apply steps_stat|intros []; apply steps_ret]. Qed.

Lemma steps_get_file_size p : steps R (get_file_size p).
Proof. apply steps_bind; [apply steps_stat|intros []; apply steps_ret]. Qed.

Lemma steps_closes {A} (a b : fd) (x : A) :
  steps R (bind (close a) (fun _ => bind (close b) (fun _ => ret x))).
Proof.
  apply steps_bind; [apply steps_close|intros _].
  apply steps_bind; [apply steps_close|intros _]. apply steps_ret.
Qed.

Lemma steps_compare_chunks fuel : forall a b, steps R (compare_chunks fuel a b).
Proof.
  induction fuel as [|fuel IH]; intros a b; cbn [compare_chunks].
  - apply steps_undefined.
  - apply steps_bind; [apply steps_read|intros r1].
    apply steps_bind; [apply steps_read|intros r2].
    destruct r1 as [e1|[b1 a']], r2 as [e2|[b2 b']]; try apply steps_closes.
    destruct (negb (Nat.eqb (length b1) (length b2))); [apply steps_closes|].
    destruct (Nat.eqb (length b1) 0); [apply steps_closes|].
    destruct (negb (bool_decide (b1 = b2))); [apply steps_closes|apply IH].
Qed.

Lemma steps_compare_files fuel f1 f2 : steps R (compare_files fuel f1 f2).
Proof.
  unfold compare_files.
  apply steps_bind; [apply steps_path_exists|intros e1].
  apply steps_bind; [destruct e1; [apply steps_path_exists|apply steps_ret]|intros e2].
  destruct (negb e1 || negb e2); [apply steps_ret|].
  apply steps_bind; [apply steps_get_file_size|intros s1].
  apply steps_bind; [apply steps_get_file_size|intros s2].
  destruct (negb (s1 =? s2)%Z); [apply steps_ret|].
  apply steps_bind; [apply steps_open_rd|intros o1].
  destruct o1 as [e|a]; [apply steps_ret|].
  apply steps_bind; [apply steps_open_rd|intros o2].
  destruct o2 as [e|b]; [|apply steps_compare_chunks].
  apply steps_bind; [apply steps_close|intros _; apply steps_ret].
Qed.

End Steps.

Lemma frame_refl kd fs : frame kd fs fs.
Proof. intros k _. reflexivity. Qed.

Lemma frame_trans kd a b c : frame kd a b -> frame kd b c -> frame kd a c.
Proof. intros H1 H2 k Hk. rewrite (H2 k Hk). apply H1, Hk. Qed.

Lemma frame_insert kd n fs : frame kd fs (<[kd := n]> fs).
Proof. intros k Hk. apply lookup_insert_ne. congruence. Qed.

Lemma keeps_refl fs : keeps fs fs.
Proof. intros k H. exact H. Qed.

Lemma keeps_trans a b c : keeps a b -> keeps b c -> keeps a c.
Proof. intros H1 H2 k Hk. apply H2, H1, Hk. Qed.

Lemma keeps_insert k n fs : keeps fs (<[k := n]> fs).
Proof.
  intros k' H. destruct (decide (k = k')) as [<-|Hne].
  - rewrite lookup_insert_eq. eauto.
  - rewrite lookup_insert_ne by exact Hne. exact H.
Qed.

(** [compare_files] changes nothing, whatever fails. *)
Lemma compare_files_reads_only fuel f1 f2 w r w' :
  compare_files fuel f1 f2 w = Some (r, w') -> w_fs w' = w_fs w.
Proof.
  intros H. symmetry.
  apply (steps_compare_files eq (fun _ => eq_refl) (fun a b c => @eq_trans _ a b c)
           fuel f1 f2 w r w' H).
Qed.

(** ** Copying a file onto itself *)

Local Opaque BUFFER_SIZE MAX_PATH.

Ltac ff_step :=
  unfold bind at 1; rewrite call_fault_free by assumption;
  cbn [w_fs w_dev record with_fs].

(** C9: [copy_file(p, p)] on a regular file, when no call fails: the file
    is opened for writing, which truncates it, before the one read, which
    meets the end of the file at once; nothing is written, the result is
    [SUCCESS] and the file is left empty. *)
Theorem copy_file_onto_itself :
  forall (fuel : nat) (p : string) (w : world) (k : key) (perm : Z) (data : list byte),
    fault_free w ->
    resolve (w_fs w) p = inr (k, File perm data) ->
    exists w',
      copy_file (S fuel) p p w = Some (SUCCESS, w')
      /\ w_fs w' = <[k := File (Z.land perm S_IALLUGO) []]> (w_fs w)
      /\ w_trace w' =
           [ Called (Close (Fd k 0)) None;
             Called (Close (Fd k 0)) None;
             Called (Fchmod (Fd k 0) (st_mode (stat_of (File perm [])))) None;
             Called (Fstat (Fd k 0)) None;
             Called (Read (Fd k 0) BUFFER_SIZE) None;
             Called (OpenWr p) None;
             Called (Stat p) None;
             Called (OpenRd p) None;
             Called (Stat p) None ] ++ w_trace w.
Proof.
  intros fuel p w k perm data Hff Hres.
  destruct (resolve_File _ _ _ _ _ Hres) as (Hc & Hk & Hne & Hlook & Hslash).
  pose proof (check_name_None _ Hc) as Hlen.
  unfold copy_file, get_file_size, stat, open_rd, open_wr.
  unfold bind at 1. ff_step. rewrite (sem_stat_resolved _ _ _ _ Hres). cbn [ret].
  ff_step. rewrite (sem_open_rd_resolved _ _ _ _ Hres).
  ff_step. rewrite (sem_stat_resolved _ _ _ _ Hres).
  rewrite final_dest_path_file by (try apply S_ISDIR_stat_of; lia).
  ff_step. rewrite (sem_open_wr_File _ _ _ _ _ Hres).
  unfold bind at 1. cbn [copy_chunks]. unfold read. ff_step.
  unfold sem_read. cbn [fd_key fd_off].
  rewrite (node_at_nonempty _ _ Hne), lookup_insert_eq, drop_0, take_nil.
  cbn [length Nat.eqb ret Nat.add].
  unfold copy_mode, fstat, fchmod, close.
  unfold bind at 1. ff_step. unfold sem_fstat. cbn [fd_key].
  rewrite (node_at_nonempty _ _ Hne), lookup_insert_eq.
  ff_step. unfold sem_fchmod. cbn [fd_key].
  rewrite (node_at_nonempty _ _ Hne), lookup_insert_eq.
  destruct k as [|c k]; [congruence|].
  cbn [ret]. ff_step. cbn [sem_close]. ff_step. cbn [sem_close ret].
  eexists. split; [reflexivity|]. cbn [w_fs w_trace record with_fs].
  split; [|reflexivity].
  rewrite insert_insert_eq, perm_of_st_mode. reflexivity.
Qed.

Lemma copy_file_onto_itself_witness :
  fault_free example_world
  /\ resolve (w_fs example_world) "a.txt" = inr (["a.txt"%string], File 384 [x68; x69])
  /\ exists w',
       copy_file 1 "a.txt" "a.txt" example_world = Some (SUCCESS, w')
       /\ w_fs w' = <[["a.txt"%string] := File (Z.land 384 S_IALLUGO) []]> (w_fs example_world)
       /\ w_trace w' =
            [ Called (Close (Fd ["a.txt"%string] 0)) None;
              Called (Close (Fd ["a.txt"%string] 0)) None;
              Called (Fchmod (Fd ["a.txt"%string] 0) (st_mode (stat_of (File 384 [])))) None;
              Called (Fstat (Fd ["a.txt"%string] 0)) None;
              Called (Read (Fd ["a.txt"%string] 0) BUFFER_SIZE) None;
              Called (OpenWr "a.txt") None;
              Called (Stat "a.txt") None;
              Called (OpenRd "a.txt") None;
              Called (Stat "a.txt") None ] ++ w_trace example_world.
Proof.
  split; [intros t c; reflexivity|].
  split; [vm_compute; reflexivity|].
  apply (copy_file_onto_itself 0 "a.txt" example_world ["a.txt"%string] 384 [x68; x69]).
  - intros t c; reflexivity.
  - vm_compute; reflexivity.
Defined.

(** ** A rename that fails for another reason than the devices *)

(** C8: when the rename fails with an error other than [EXDEV], both
    [move_file] and [move_directory] return [ERROR_MOVE_FAILED] at once:
    the failed rename is the only call of the run, and the file system is
    as it was. *)
Theorem move_without_fallback :
  forall (fuel : nat) (src_path dest_path : string) (w w1 : world) (e : errno),
    rename src_path dest_path w = Some (inl e, w1) ->
    e <> EXDEV ->
    move_file fuel src_path dest_path w = Some (ERROR_MOVE_FAILED, w1)
    /\ move_directory fuel src_path dest_path w = Some (ERROR_MOVE_FAILED, w1)
    /\ w_fs w1 = w_fs w
    /\ w_trace w1 = Called (Rename src_path dest_path) (Some e) :: w_trace w.
Proof.
  intros fuel src dest w w1 e Hren Hne.
  unfold move_file, move_directory, bind. rewrite Hren.
  rewrite bool_decide_eq_false_2 by exact Hne.
  apply call_Some in Hren as [_ ->]. auto.
Qed.

Lemma move_without_fallback_witness :
  exists w1,
    rename "missing" "b.txt" example_world = Some (inl ENOENT, w1)
    /\ ENOENT <> EXDEV
    /\ move_file 1 "missing" "b.txt" example_world = Some (ERROR_MOVE_FAILED, w1)
    /\ move_directory 1 "missing" "b.txt" example_world = Some (ERROR_MOVE_FAILED, w1)
    /\ w_fs w1 = w_fs example_world
    /\ w_trace w1 = Called (Rename "missing" "b.txt") (Some ENOENT) :: w_trace example_world.
Proof.
  eexists. split; [vm_compute; reflexivity|]. split; [discriminate|].
  apply (move_without_fallback 1 "missing" "b.txt" example_world _ ENOENT).
  - vm_compute; reflexivity.
  - discriminate.
Defined.

(** ** Comparing two files *)

Lemma sem_read_File fs f count perm data :
  node_at fs (fd_key f) = Some (File perm data) ->
  sem_read fs f count =
    inr ((take count (drop (fd_off f) data),
          Fd (fd_key f) (fd_off f + length (take count (drop (fd_off f) data)))), fs).
Proof. intros H. unfold sem_read. rewrite H. reflexivity. Qed.

Lemma compare_chunks_spec k1 k2 p1 p2 d1 d2 : forall fuel off w,
  fault_free w ->
  node_at (w_fs w) k1 = Some (File p1 d1) ->
  node_at (w_fs w) k2 = Some (File p2 d2) ->
  (length (drop off d1) < fuel)%nat ->
  exists w',
    compare_chunks fuel (Fd k1 off) (Fd k2 off) w
      = Some (if bool_decide (drop off d1 = drop off d2) then SUCCESS else ERROR_FILES_DIFFER, w')
    /\ w_fs w' = w_fs w /\ fault_free w'.
Proof.
  induction fuel as [|fuel IH]; intros off w Hff H1 H2 Hfuel; [lia|].
  cbn [compare_chunks]. unfold read, close.
  ff_step. rewrite (sem_read_File _ (Fd k1 off) _ _ _ H1). cbn [fd_key fd_off].
  ff_step. rewrite (sem_read_File _ (Fd k2 off) _ _ _ H2). cbn [fd_key fd_off].
  set (c1 := take BUFFER_SIZE (drop off d1)).
  set (c2 := take BUFFER_SIZE (drop off d2)).
  pose proof (chunk_split BUFFER_SIZE off d1) as S1. fold c1 in S1.
  pose proof (chunk_split BUFFER_SIZE off d2) as S2. fold c2 in S2.
  destruct (Nat.eqb_spec (length c1) (length c2)) as [Hlen|Hlen]; cbn [negb].
  - destruct (Nat.eqb_spec (length c1) 0) as [Hz|Hnz].
    + ff_step. cbn [sem_close]. ff_step. cbn [sem_close ret].
      rewrite bool_decide_eq_true_2.
      { eexists. split; [reflexivity|split; [reflexivity|exact Hff]]. }
      rewrite (chunk_empty _ _ BUFFER_SIZE_pos Hz).
      rewrite Hz in Hlen. symmetry in Hlen.
      rewrite (chunk_empty _ _ BUFFER_SIZE_pos Hlen). reflexivity.
    + destruct (decide (c1 = c2)) as [Heq|Hneq].
      * rewrite (bool_decide_eq_true_2 _ Heq). cbn [negb].
        rewrite <- Hlen.
        assert (length (drop (off + length c1) d1) < fuel)%nat as Hm.
        { unfold c1 in Hnz |- *. rewrite length_drop in *.
          rewrite length_take, length_drop in Hnz |- *. lia. }
        destruct (IH (off + length c1)%nat
                    (record (Called (Read (Fd k2 off) BUFFER_SIZE) None)
                       (with_fs (w_fs w)
                          (record (Called (Read (Fd k1 off) BUFFER_SIZE) None)
                             (with_fs (w_fs w) w)))))
          as (w' & Hrun & Hfs & Hff'); auto.
        exists w'. split; [|split; [exact Hfs|exact Hff']].
        rewrite Hrun. do 2 f_equal.
        rewrite (bool_decide_ext (drop (off + length c1) d1 = drop (off + length c1) d2)
                   (drop off d1 = drop off d2)); [reflexivity|].
        clearbody c1 c2. subst c2. rewrite S1, S2.
        split; [intros ->; reflexivity|]. apply app_inv_head.
      * rewrite (bool_decide_eq_false_2 _ Hneq). cbn [negb].
        ff_step. cbn [sem_close]. ff_step. cbn [sem_close ret].
        rewrite (bool_decide_eq_false_2 (drop off d1 = drop off d2)).
        { eexists. split; [reflexivity|split; [reflexivity|exact Hff]]. }
        intros E. apply Hneq. unfold c1, c2. rewrite E. reflexivity.
  - ff_step. cbn [sem_close]. ff_step. cbn [sem_close ret].
    rewrite (bool_decide_eq_false_2 (drop off d1 = drop off d2)).
    { eexists. split; [reflexivity|split; [reflexivity|exact Hff]]. }
    intros E. apply Hlen. unfold c1, c2. rewrite E. reflexivity.
Qed.

(** With equal sizes the answer of [compare_files] is that of the
    comparison of the contents. *)
Lemma compare_files_same_size fuel file1 file2 w k1 k2 p1 p2 d1 d2 :
  fault_free w ->
  resolve (w_fs w) file1 = inr (k1, File p1 d1) ->
  resolve (w_fs w) file2 = inr (k2, File p2 d2) ->
  length d1 = length d2 -> (length d1 < fuel)%nat ->
  exists w',
    compare_files fuel file1 file2 w
      = Some (if bool_decide (d1 = d2) then SUCCESS else ERROR_FILES_DIFFER, w')
    /\ w_fs w' = w_fs w.
Proof.
  intros Hff R1 R2 Hlen Hfuel.
  destruct (resolve_File _ _ _ _ _ R1) as (_ & _ & Hne1 & L1 & _).
  destruct (resolve_File _ _ _ _ _ R2) as (_ & _ & Hne2 & L2 & _).
  unfold compare_files, path_exists, get_file_size, stat, open_rd.
  unfold bind at 1. ff_step. rewrite (sem_stat_resolved _ _ _ _ R1). cbn [ret failed negb].
  unfold bind at 1. ff_step. rewrite (sem_stat_resolved _ _ _ _ R2). cbn [ret failed negb orb].
  unfold bind at 1. ff_step. rewrite (sem_stat_resolved _ _ _ _ R1). cbn [ret].
  unfold bind at 1. ff_step. rewrite (sem_stat_resolved _ _ _ _ R2). cbn [ret stat_of st_size].
  rewrite Hlen, Z.eqb_refl. cbn [negb].
  ff_step. rewrite (sem_open_rd_resolved _ _ _ _ R1).
  ff_step. rewrite (sem_open_rd_resolved _ _ _ _ R2).
  match goal with
  | |- exists w', compare_chunks _ _ _ ?W = _ /\ _ =>
      destruct (compare_chunks_spec k1 k2 p1 p2 d1 d2 fuel 0 W) as (w' & Hrun & Hfs & _)
  end; auto.
  - cbn [w_fs record with_fs]. rewrite node_at_nonempty by assumption. exact L1.
  - cbn [w_fs record with_fs]. rewrite node_at_nonempty by assumption. exact L2.
  - exists w'. rewrite Hrun. split; [reflexivity|exact Hfs].
Qed.

(** C7: [compare_files] on two regular files, when no call fails.  Unequal
    sizes give [ERROR_FILES_DIFFER] after the four [stat] calls of the
    existence and size checks, with no file opened or read.  With equal
    sizes the result is [SUCCESS] when the contents are equal and
    [ERROR_FILES_DIFFER] when they are not.  The loop itself, from any
    common offset, reads both files in chunks of [BUFFER_SIZE] and answers
    [SUCCESS] exactly when what is left of both files is the same, so that
    a difference in chunk length or in a byte gives [ERROR_FILES_DIFFER]. *)
Theorem compare_files_spec :
  forall (fuel : nat) (file1 file2 : string) (w : world)
         (k1 k2 : key) (p1 p2 : Z) (d1 d2 : list byte),
    fault_free w ->
    resolve (w_fs w) file1 = inr (k1, File p1 d1) ->
    resolve (w_fs w) file2 = inr (k2, File p2 d2) ->
    (length d1 <> length d2 ->
       exists w',
         compare_files fuel file1 file2 w = Some (ERROR_FILES_DIFFER, w')
         /\ w_fs w' = w_fs w
         /\ w_trace w' =
              [ Called (Stat file2) None; Called (Stat file1) None;
                Called (Stat file2) None; Called (Stat file1) None ] ++ w_trace w)
    /\ (length d1 = length d2 -> (length d1 < fuel)%nat ->
         exists w',
           compare_files fuel file1 file2 w
             = Some (if bool_decide (d1 = d2) then SUCCESS else ERROR_FILES_DIFFER, w')
           /\ w_fs w' = w_fs w)
    /\ (forall off, (length (drop off d1) < fuel)%nat ->
         exists w',
           compare_chunks fuel (Fd k1 off) (Fd k2 off) w
             = Some (if bool_decide (drop off d1 = drop off d2)
                     then SUCCESS else ERROR_FILES_DIFFER, w')
           /\ w_fs w' = w_fs w).
Proof.
  intros fuel file1 file2 w k1 k2 p1 p2 d1 d2 Hff R1 R2.
  destruct (resolve_File _ _ _ _ _ R1) as (_ & _ & Hne1 & L1 & _).
  destruct (resolve_File _ _ _ _ _ R2) as (_ & _ & Hne2 & L2 & _).
  repeat split.
  - intros Hlen. unfold compare_files, path_exists, get_file_size, stat.
    unfold bind at 1. ff_step. rewrite (sem_stat_resolved _ _ _ _ R1). cbn [ret failed negb].
    unfold bind at 1. ff_step. rewrite (sem_stat_resolved _ _ _ _ R2). cbn [ret failed negb orb].
    unfold bind at 1. ff_step. rewrite (sem_stat_resolved _ _ _ _ R1). cbn [ret].
    unfold bind at 1. ff_step. rewrite (sem_stat_resolved _ _ _ _ R2). cbn [ret stat_of st_size].
    destruct (Z.eqb_spec (Z.of_nat (length d1)) (Z.of_nat (length d2))) as [E|E]; [lia|].
    cbn [negb]. eexists. split; [reflexivity|]. split; reflexivity.
  - intros Hlen Hfuel. eapply compare_files_same_size; eauto.
  - intros off Hfuel.
    destruct (compare_chunks_spec k1 k2 p1 p2 d1 d2 fuel off w) as (w' & Hrun & Hfs & _);
      auto; try (rewrite node_at_nonempty by assumption; assumption).
    exists w'. split; assumption.
Qed.

Lemma compare_files_spec_witness :
  fault_free example_world
  /\ resolve (w_fs example_world) "s/f" = inr (["s"%string; "f"%string], File 420 [x61])
  /\ resolve (w_fs example_world) "s/t/g"
       = inr (["s"%string; "t"%string; "g"%string], File 420 [x62])
  /\ (length [x61] = length [x62] -> (length [x61] < 2)%nat ->
       exists w',
         compare_files 2 "s/f" "s/t/g" example_world
           = Some (if bool_decide ([x61] = [x62]) then SUCCESS else ERROR_FILES_DIFFER, w')
         /\ w_fs w' = w_fs example_world).
Proof.
  split; [intros t c; reflexivity|].
  split; [vm_compute; reflexivity|].
  split; [vm_compute; reflexivity|].
  apply (compare_files_spec 2 "s/f" "s/t/g" example_world
           ["s"%string; "f"%string] ["s"%string; "t"%string; "g"%string] 420 420 [x61] [x62]).
  - intros t c; reflexivity.
  - vm_compute; reflexivity.
  - vm_compute; reflexivity.
Defined.

(** ** What an equal answer means *)

Lemma closes_result {A} (a b : fd) (x y : A) w w' :
  bind (close a) (fun _ => bind (close b) (fun _ => ret x)) w = Some (y, w') -> x = y.
Proof.
  intros H. apply bind_Some in H as (? & ? & _ & H). apply bind_Some in H as (? & ? & _ & H).
  apply ret_Some in H as [E _]. exact E.
Qed.

(** Whatever fails, a comparison loop that answers [SUCCESS] has read the
    same bytes from two regular files. *)
Lemma compare_chunks_sound k1 k2 fuel : forall off w w',
  compare_chunks fuel (Fd k1 off) (Fd k2 off) w = Some (SUCCESS, w') ->
  exists p1 p2 d1 d2,
    node_at (w_fs w) k1 = Some (File p1 d1)
    /\ node_at (w_fs w) k2 = Some (File p2 d2)
    /\ drop off d1 = drop off d2.
Proof.
  induction fuel as [|fuel IH]; intros off w w' H; [discriminate|].
  cbn [compare_chunks] in H.
  apply bind_Some in H as (r1 & w1 & Hr1 & H).
  apply bind_Some in H as (r2 & w2 & Hr2 & H).
  apply read_inv in Hr1 as (Hfs1 & _ & Hr1). apply read_inv in Hr2 as (Hfs2 & _ & Hr2).
  destruct r1 as [e1|[b1 f1]]; [destruct r2 as [?|[? ?]]; apply closes_result in H; discriminate|].
  destruct r2 as [e2|[b2 f2]]; [apply closes_result in H; discriminate|].
  destruct (Hr1 _ _ eq_refl) as (p1 & d1 & N1 & -> & ->).
  destruct (Hr2 _ _ eq_refl) as (p2 & d2 & N2 & -> & ->).
  cbn [fd_key fd_off] in *. rewrite Hfs1 in N2.
  exists p1, p2, d1, d2. split; [exact N1|]. split; [exact N2|].
  set (c1 := take BUFFER_SIZE (drop off d1)) in *.
  set (c2 := take BUFFER_SIZE (drop off d2)) in *.
  destruct (Nat.eqb_spec (length c1) (length c2)) as [Hlen|Hlen]; cbn [negb] in H;
    [|apply closes_result in H; discriminate].
  destruct (Nat.eqb_spec (length c1) 0) as [Hz|Hnz].
  - rewrite (chunk_empty _ _ BUFFER_SIZE_pos Hz).
    rewrite Hz in Hlen. symmetry in Hlen.
    rewrite (chunk_empty _ _ BUFFER_SIZE_pos Hlen). reflexivity.
  - destruct (decide (c1 = c2)) as [Heq|Hneq].
    + rewrite (bool_decide_eq_true_2 _ Heq) in H. cbn [negb] in H.
      rewrite <- Hlen in H.
      apply IH in H as (p1' & p2' & d1' & d2' & N1' & N2' & Hrest).
      rewrite Hfs2, Hfs1 in N1', N2'. rewrite N1 in N1'. rewrite N2 in N2'.
      injection N1' as <- <-. injection N2' as <- <-.
      rewrite (chunk_split BUFFER_SIZE off d1), (chunk_split BUFFER_SIZE off d2).
      fold c1 c2. rewrite <- Hlen, Hrest, Heq. reflexivity.
    + rewrite (bool_decide_eq_false_2 _ Hneq) in H. cbn [negb] in H.
      apply closes_result in H. discriminate.
Qed.

(** Whatever fails, [compare_files] answers [SUCCESS] only for two regular
    files with the same bytes. *)
Lemma compare_files_sound fuel file1 file2 w w' :
  compare_files fuel file1 file2 w = Some (SUCCESS, w') ->
  exists k1 k2 p1 p2 data,
    resolve (w_fs w) file1 = inr (k1, File p1 data)
    /\ resolve (w_fs w) file2 = inr (k2, File p2 data).
Proof.
  unfold compare_files. intros H.
  apply bind_Some in H as (e1 & w1 & H1 & H).
  apply (steps_path_exists eq (fun _ => eq_refl) (fun a b c => @eq_trans _ a b c)) in H1.
  apply bind_Some in H as (e2 & w2 & H2 & H).
  assert (w_fs w1 = w_fs w2) as Hfs2.
  { destruct e1; [|apply ret_Some in H2 as [_ <-]; reflexivity].
    apply (steps_path_exists eq (fun _ => eq_refl) (fun a b c => @eq_trans _ a b c)) in H2.
    exact H2. }
  destruct (negb e1 || negb e2); [apply ret_Some in H as [[=] _]|].
  apply bind_Some in H as (s1 & w3 & H3 & H). apply get_file_size_inv in H3 as (Hfs3 & _).
  apply bind_Some in H as (s2 & w4 & H4 & H). apply get_file_size_inv in H4 as (Hfs4 & _).
  destruct (negb (s1 =? s2)%Z); [apply ret_Some in H as [[=] _]|].
  apply bind_Some in H as (o1 & w5 & H5 & H).
  apply open_rd_inv in H5 as (Hfs5 & _ & Ho1).
  destruct o1 as [e|[k1 off1]]; [apply ret_Some in H as [[=] _]|].
  destruct (Ho1 _ eq_refl) as (n1 & R1 & Hoff1). cbn [fd_key fd_off] in *. subst off1.
  apply bind_Some in H as (o2 & w6 & H6 & H).
  apply open_rd_inv in H6 as (Hfs6 & _ & Ho2).
  destruct o2 as [e|[k2 off2]].
  { apply bind_Some in H as (? & ? & _ & H). apply ret_Some in H as [[=] _]. }
  destruct (Ho2 _ eq_refl) as (n2 & R2 & Hoff2). cbn [fd_key fd_off] in *. subst off2.
  apply compare_chunks_sound in H as (p1 & p2 & d1 & d2 & N1 & N2 & Heq).
  rewrite !drop_0 in Heq. subst d2.
  assert (w_fs w6 = w_fs w) as Hall by congruence.
  assert (w_fs w5 = w_fs w) as H5 by congruence.
  assert (w_fs w4 = w_fs w) as H4 by congruence.
  rewrite Hall in N1, N2. rewrite H4 in R1. rewrite H5 in R2.
  destruct (resolve_inr _ _ _ _ R1) as (_ & _ & N1' & _).
  destruct (resolve_inr _ _ _ _ R2) as (_ & _ & N2' & _).
  rewrite N1 in N1'. rewrite N2 in N2'. injection N1' as <-. injection N2' as <-.
  exists k1, k2, p1, p2, d1. auto.
Qed.

(** ** Copying a file *)

Lemma write_at_end (off n : nat) (ds : list byte) :
  (off <= length ds)%nat ->
  write_at off (take n (drop off ds)) (take off ds)
    = take (off + length (take n (drop off ds))) ds.
Proof.
  intros Hoff. unfold write_at.
  rewrite take_take, Nat.min_id.
  replace (length (take off ds)) with off by (rewrite length_take; lia).
  rewrite Nat.sub_diag. cbn [replicate app].
  rewrite (drop_ge (take off ds)) by (rewrite length_take; lia).
  rewrite app_nil_r, <- take_take_drop, take_length_take. reflexivity.
Qed.

Lemma node_at_insert_ne fs k k' n :
  k <> k' -> k <> [] -> node_at (<[k := n]> fs) k' = node_at fs k'.
Proof.
  intros Hne Hk. destruct k'; [reflexivity|]. simpl. apply lookup_insert_ne. exact Hne.
Qed.

Lemma node_at_insert_eq fs k n : k <> [] -> node_at (<[k := n]> fs) k = Some n.
Proof. intros Hk. destruct k; [congruence|]. simpl. apply lookup_insert_eq. Qed.

(** An error code from inside the loop is never [SUCCESS]. *)
Lemma copy_chunks_code fuel : forall s d w code w',
  copy_chunks fuel s d w = Some (inl code, w') -> code <> SUCCESS.
Proof.
  induction fuel as [|fuel IH]; intros s d w code w' H; [discriminate|].
  cbn [copy_chunks] in H.
  apply bind_Some in H as (r & w1 & _ & H).
  destruct r as [e|[chunk s']].
  - apply bind_Some in H as (? & ? & _ & H). apply bind_Some in H as (? & ? & _ & H).
    apply ret_Some in H as [[= <-] _]. discriminate.
  - destruct (Nat.eqb (length chunk) 0); [apply ret_Some in H as [[=] _]|].
    apply bind_Some in H as (wr & w2 & _ & H).
    destruct wr as [e|[n d']].
    + apply bind_Some in H as (? & ? & _ & H). apply bind_Some in H as (? & ? & _ & H).
      apply ret_Some in H as [[= <-] _]. discriminate.
    + destruct (Nat.eqb n (length chunk)); [eapply IH, H|].
      apply bind_Some in H as (? & ? & _ & H). apply bind_Some in H as (? & ? & _ & H).
      apply ret_Some in H as [[= <-] _]. discriminate.
Qed.

(** A loop that ends at the end of the source has read from a file. *)
Lemma copy_chunks_reads fuel s d w r w' :
  copy_chunks fuel s d w = Some (inr r, w') ->
  exists ps ds, node_at (w_fs w) (fd_key s) = Some (File ps ds).
Proof.
  destruct fuel as [|fuel]; [discriminate|]. cbn [copy_chunks]. intros H.
  apply bind_Some in H as (rr & w1 & Hr & H).
  destruct rr as [e|[chunk s']].
  - apply bind_Some in H as (? & ? & _ & H). apply bind_Some in H as (? & ? & _ & H).
    apply ret_Some in H as [[=] _].
  - apply read_inv in Hr as (_ & _ & Hr).
    destruct (Hr _ _ eq_refl) as (ps & ds & Hn & _). eauto.
Qed.

Lemma copy_chunks_ok ks kd ps ds pd fuel : forall off w sfd dfd w',
  node_at (w_fs w) ks = Some (File ps ds) ->
  node_at (w_fs w) kd = Some (File pd (take off ds)) ->
  (off <= length ds)%nat ->
  copy_chunks fuel (Fd ks off) (Fd kd off) w = Some (inr (sfd, dfd), w') ->
  fd_key sfd = ks /\ fd_key dfd = kd
  /\ node_at (w_fs w') ks = Some (File ps ds)
  /\ node_at (w_fs w') kd = Some (File pd ds)
  /\ w_faults w' = w_faults w.
Proof.
  induction fuel as [|fuel IH]; intros off w sfd dfd w' Hs Hd Hoff H; [discriminate|].
  cbn [copy_chunks] in H.
  apply bind_Some in H as (r & w1 & Hr & H).
  destruct r as [e|[chunk s']].
  { apply bind_Some in H as (? & ? & _ & H). apply bind_Some in H as (? & ? & _ & H).
    apply ret_Some in H as [[=] _]. }
  apply read_inv in Hr as (Hfs1 & Hf1 & Hr).
  destruct (Hr _ _ eq_refl) as (ps' & ds' & Hn & -> & ->). clear Hr.
  cbn [fd_key fd_off] in *. rewrite Hs in Hn. injection Hn as <- <-.
  destruct (Nat.eqb_spec (length (take BUFFER_SIZE (drop off ds))) 0) as [Hz|Hnz].
  - apply ret_Some in H as [[= <- <-] <-]. cbn [fd_key]. rewrite Hfs1.
    repeat split; auto.
    rewrite Hd. do 2 f_equal. apply take_ge.
    apply (chunk_empty _ _ BUFFER_SIZE_pos) in Hz.
    apply (f_equal length) in Hz. rewrite length_drop in Hz. simpl in Hz. lia.
  - apply bind_Some in H as (wr & w2 & Hw & H).
    destruct wr as [e|[n d']].
    { apply bind_Some in H as (? & ? & _ & H). apply bind_Some in H as (? & ? & _ & H).
      apply ret_Some in H as [[=] _]. }
    apply write_inv in Hw as (Hf2 & -> & -> & pd' & dd' & Hn & Hfs2).
    cbn [fd_key fd_off] in *. rewrite Hfs1, Hd in Hn. injection Hn as <- <-.
    rewrite Nat.eqb_refl in H.
    assert (ks <> kd) as Hne.
    { intros ->. rewrite Hs in Hd. injection Hd as _ Hd.
      apply Hnz. apply (f_equal length) in Hd. rewrite length_take in Hd.
      rewrite length_take, length_drop. lia. }
    destruct (node_at_File _ _ _ _ Hs) as [Hks _].
    destruct (node_at_File _ _ _ _ Hd) as [Hkd _].
    rewrite write_at_end in Hfs2 by exact Hoff.
    apply IH in H.
    + destruct H as (K1 & K2 & N1 & N2 & F). repeat split; auto. congruence.
    + rewrite Hfs2, node_at_insert_ne by auto. rewrite Hfs1. exact Hs.
    + rewrite Hfs2, node_at_insert_eq by auto. reflexivity.
    + rewrite length_take, length_drop. lia.
Qed.

Lemma copy_mode_inv sfd dfd w u w' pd dd :
  copy_mode sfd dfd w = Some (u, w') ->
  node_at (w_fs w) (fd_key dfd) = Some (File pd dd) ->
  w_faults w' = w_faults w
  /\ exists pd',
       node_at (w_fs w') (fd_key dfd) = Some (File pd' dd)
       /\ (forall k, k <> fd_key dfd -> node_at (w_fs w') k = node_at (w_fs w) k)
       /\ (mode_calls_succeed w ->
           forall n, node_at (w_fs w) (fd_key sfd) = Some n ->
                     Z.land pd' S_IALLUGO = perm_bits n).
Proof.
  unfold copy_mode. intros H Hd.
  destruct (node_at_File _ _ _ _ Hd) as [Hkd _].
  apply bind_Some in H as (s & w1 & Hs & H).
  pose proof (call_env _ _ _ _ _ Hs) as (Hf1 & _ & _).
  apply call_Some in Hs. destruct s as [e|st].
  - destruct Hs as [Ho ->]. apply ret_Some in H as [_ <-].
    split; [reflexivity|]. exists pd. split; [exact Hd|]. split; [reflexivity|].
    intros [Hst _] n Hn. exfalso.
    unfold outcome in Ho. rewrite Hst in Ho. unfold sem_fstat in Ho.
    rewrite Hn in Ho. discriminate.
  - destruct Hs as (fs' & Ho & ->). apply outcome_inr in Ho.
    unfold sem_fstat in Ho.
    destruct (node_at (w_fs w) (fd_key sfd)) as [n'|] eqn:Hn'; [|discriminate].
    injection Ho as <- <-.
    apply bind_Some in H as (r2 & w2 & Hc & H). apply ret_Some in H as [_ <-].
    pose proof (call_env _ _ _ _ _ Hc) as (Hf2 & _ & _).
    split; [rewrite Hf2; reflexivity|].
    apply call_Some in Hc. destruct r2 as [e|[]].
    + destruct Hc as [Ho ->]. exists pd. split; [exact Hd|]. split; [reflexivity|].
      intros [_ Hch] n Hn. exfalso.
      unfold outcome in Ho. cbn [w_faults record with_fs] in Ho. rewrite Hch in Ho.
      cbn [w_fs record with_fs] in Ho. unfold sem_fchmod in Ho. rewrite Hd in Ho.
      destruct (fd_key dfd); [congruence|discriminate].
    + destruct Hc as (fs2 & Ho & ->). apply outcome_inr in Ho.
      cbn [w_fs record with_fs] in Ho. unfold sem_fchmod in Ho. rewrite Hd in Ho.
      destruct (fd_key dfd) as [|c kd] eqn:Ek; [congruence|].
      injection Ho as <-. cbn [w_fs record with_fs].
      exists (Z.land (st_mode (stat_of n')) S_IALLUGO).
      split; [apply node_at_insert_eq; discriminate|].
      split; [intros k Hk; apply node_at_insert_ne; auto; discriminate|].
      intros _ n [= <-]. rewrite <- Z.land_assoc, Z.land_diag. apply perm_of_st_mode.
Qed.

(** C1, as the code has it.  When [copy_file] returns [SUCCESS], the
    source and the file that was opened for writing are regular files with
    the same bytes, so that [compare_files] on them answers [SUCCESS] when
    no call fails and the fuel covers the length; and the permission bits
    of the two are equal provided [fstat] and [fchmod] are not made to
    fail.  The result of [fchmod] is not looked at, so its failure still
    gives [SUCCESS]. *)
Theorem copy_file_fidelity :
  forall (fuel : nat) (src_path dest_path : string) (w w' : world),
    copy_file fuel src_path dest_path w = Some (SUCCESS, w') ->
    exists (final : string) (ks kd : key) (ps pd : Z) (data : list byte),
      (exists new, w_trace w' = new ++ w_trace w /\ In (Called (OpenWr final) None) new)
      /\ (exists st, final = final_dest_path src_path dest_path st)
      /\ resolve (w_fs w') src_path = inr (ks, File ps data)
      /\ resolve (w_fs w') final = inr (kd, File pd data)
      /\ (forall fuel2 w2,
            w_fs w2 = w_fs w' -> fault_free w2 -> (length data < fuel2)%nat ->
            exists w3, compare_files fuel2 src_path final w2 = Some (SUCCESS, w3))
      /\ (mode_calls_succeed w -> perm_bits (File pd data) = perm_bits (File ps data)).
Proof.
  intros fuel src dest w w' H. unfold copy_file in H.
  apply bind_Some in H as (z & w1 & Hsize & H).
  destruct (quiet_get_file_size _ _ _ _ Hsize) as (n1 & T1 & _).
  apply get_file_size_inv in Hsize as (Hfs1 & Hf1).
  apply bind_Some in H as (o & w2 & Hopen & H).
  destruct o as [e|sfd]; [apply ret_Some in H as [[=] _]|].
  pose proof (call_env _ _ _ _ _ Hopen) as (_ & _ & e2 & T2).
  apply open_rd_inv in Hopen as (Hfs2 & Hf2 & Hres).
  destruct (Hres _ eq_refl) as (n0 & Hres0 & Hoff0). clear Hres.
  destruct sfd as [ks off0]. cbn [fd_key fd_off] in *. subst off0.
  apply bind_Some in H as (st & w3 & Hstat & H).
  pose proof (call_env _ _ _ _ _ Hstat) as (_ & _ & e3 & T3).
  apply stat_inv in Hstat as (Hfs3 & Hf3 & _).
  set (final := final_dest_path src dest st) in *.
  apply bind_Some in H as (o & w4 & Hwr & H).
  destruct o as [e|dfd].
  { apply bind_Some in H as (? & ? & _ & H). apply ret_Some in H as [[=] _]. }
  pose proof (call_env _ _ _ _ _ Hwr) as (_ & _ & err & T4).
  assert (err = None) as ->.
  { apply call_Some in Hwr as (? & _ & ->). cbn [w_trace record with_fs] in T4. congruence. }
  apply open_wr_inv in Hwr as (Hf4 & -> & Hkd & Hcn & Hslash & Hnodir & perm0 & Hfs4).
  set (kd := norm final) in *.
  apply bind_Some in H as (l & w5 & Hloop & H).
  destruct l as [code|[sfd' dfd']].
  { apply ret_Some in H as [-> _]. exfalso. eapply copy_chunks_code; eauto. }
  destruct (quiet_copy_chunks _ _ _ _ _ _ Hloop) as (n5 & T5 & _).
  destruct (copy_chunks_reads _ _ _ _ _ _ Hloop) as (ps & ds & Hsrc4).
  cbn [fd_key] in Hsrc4.
  assert (node_at (w_fs w4) kd = Some (File perm0 (take 0 ds))) as Hdst4.
  { rewrite Hfs4. apply node_at_insert_eq, Hkd. }
  pose proof (copy_chunks_ok _ _ _ _ _ _ _ _ _ _ _ Hsrc4 Hdst4 (Nat.le_0_l _) Hloop)
    as (K1 & K2 & Hsrc5 & Hdst5 & Hf5).
  apply bind_Some in H as (u & w6 & Hmode & H).
  destruct (quiet_copy_mode _ _ _ _ _ Hmode) as (n6 & T6 & _).
  rewrite <- K2 in Hdst5.
  destruct (copy_mode_inv _ _ _ _ _ _ _ Hmode Hdst5) as (Hf6 & pd' & Hdst6 & Hframe & Hperm).
  rewrite K2 in Hdst5, Hdst6, Hframe.
  apply bind_Some in H as (c1 & w7 & Hc1 & H).
  apply bind_Some in H as (c2 & w8 & Hc2 & H).
  apply ret_Some in H as [_ <-].
  pose proof (call_env _ _ _ _ _ Hc1) as (_ & _ & e7 & T7).
  pose proof (call_env _ _ _ _ _ Hc2) as (_ & _ & e8 & T8).
  apply close_inv in Hc1 as (Hfs7 & Hf7). apply close_inv in Hc2 as (Hfs8 & Hf8).
  (* the source as it was when it was opened *)
  destruct (resolve_inr _ _ _ _ Hres0) as (Hcs & Hks & Hn0 & Hs_slash).
  rewrite Hfs1 in Hn0.
  assert (exists ps', node_at (w_fs w8) ks = Some (File ps' ds)
                      /\ (mode_calls_succeed w -> Z.land pd' S_IALLUGO = Z.land ps' S_IALLUGO))
    as (ps' & Hsrc8 & Hperm8).
  { rewrite Hfs8, Hfs7. destruct (decide (ks = kd)) as [E|E].
    - exists pd'. rewrite E. split; [exact Hdst6|reflexivity].
    - exists ps. rewrite Hframe by exact E. split; [exact Hsrc5|].
      intros Hm. apply (Hperm) with (n := File ps ds).
      + unfold mode_calls_succeed. rewrite Hf5, Hf4, Hf3, Hf2, Hf1. exact Hm.
      + rewrite K1. exact Hsrc5. }
  assert (ends_with_slash src = false) as Hs_noslash.
  { destruct (ends_with_slash src); [|reflexivity].
    destruct (Hs_slash eq_refl) as [pm ->].
    destruct (decide (ks = kd)) as [E|E].
    - exfalso. apply (Hnodir pm). rewrite Hfs3, Hfs2, Hfs1, <- E. exact Hn0.
    - rewrite Hfs4, node_at_insert_ne, Hfs3, Hfs2, Hfs1, Hn0 in Hsrc4 by auto. discriminate. }
  assert (resolve (w_fs w8) src = inr (ks, File ps' ds)) as R1.
  { unfold resolve. rewrite Hcs, <- Hks, Hsrc8, Hs_noslash. reflexivity. }
  assert (resolve (w_fs w8) final = inr (kd, File pd' ds)) as R2.
  { unfold resolve. fold kd. rewrite Hcn, Hfs8, Hfs7, Hdst6, Hslash. reflexivity. }
  exists final, ks, kd, ps', pd', ds.
  split.
  { exists ([Called (Close dfd') e8; Called (Close sfd') e7] ++ n6 ++ n5
            ++ [Called (OpenWr final) None; Called (Stat dest) e3; Called (OpenRd src) e2]
            ++ n1).
    split.
    - rewrite T8, T7, T6, T5, T4, T3, T2, T1. cbn [app]. rewrite <- !app_assoc. reflexivity.
    - apply in_cons, in_cons, in_or_app. right. apply in_or_app. right. left. reflexivity. }
  split; [exists st; reflexivity|].
  split; [exact R1|]. split; [exact R2|].
  split.
  - intros fuel2 v Hfs Hff Hfuel. rewrite <- Hfs in R1, R2.
    destruct (compare_files_same_size fuel2 src final v ks kd ps' pd' ds ds Hff R1 R2
                eq_refl Hfuel) as (v' & Hrun & _).
    rewrite bool_decide_eq_true_2 in Hrun by reflexivity. eauto.
  - intros Hm. cbn [perm_bits]. apply Hperm8, Hm.
Qed.

Lemma copy_file_fidelity_witness :
  exists w' (final : string) (ks kd : key) (ps pd : Z) (data : list byte),
    copy_file 2 "a.txt" "b.txt" example_world = Some (SUCCESS, w')
    /\ (exists new, w_trace w' = new ++ w_trace example_world
                    /\ In (Called (OpenWr final) None) new)
    /\ (exists st, final = final_dest_path "a.txt" "b.txt" st)
    /\ resolve (w_fs w') "a.txt" = inr (ks, File ps data)
    /\ resolve (w_fs w') final = inr (kd, File pd data)
    /\ (forall fuel2 w2,
          w_fs w2 = w_fs w' -> fault_free w2 -> (length data < fuel2)%nat ->
          exists w3, compare_files fuel2 "a.txt" final w2 = Some (SUCCESS, w3))
    /\ (mode_calls_succeed example_world -> perm_bits (File pd data) = perm_bits (File ps data)).
Proof.
  destruct (copy_file 2 "a.txt" "b.txt" example_world) as [[r w']|] eqn:E;
    [|vm_compute in E; discriminate].
  assert (r = SUCCESS) as -> by (vm_compute in E; injection E as <- _; reflexivity).
  destruct (copy_file_fidelity _ _ _ _ _ E) as (final & ks & kd & ps & pd & data & H).
  exists w', final, ks, kd, ps, pd, data. split; [reflexivity|exact H].
Defined.

(** The unconditional reading of C1 fails: on a destination whose mode
    cannot be changed, [fchmod] fails, [copy_file] still returns
    [SUCCESS], and the new file keeps the mode it was created with. *)
Lemma copy_file_mode_not_carried :
  exists w',
    copy_file 2 "a.txt" "b.txt" chmod_refused_world = Some (SUCCESS, w')
    /\ w_fs w' !! ["a.txt"%string] = Some (File 384 [x68; x69])
    /\ w_fs w' !! ["b.txt"%string] = Some (File 420 [x68; x69])
    /\ perm_bits (File 420 [x68; x69]) <> perm_bits (File 384 [x68; x69]).
Proof.
  eexists. split; [vm_compute; reflexivity|].
  split; [vm_compute; reflexivity|]. split; [vm_compute; reflexivity|].
  vm_compute. discriminate.
Qed.

(** ** Moving: what is deleted, and when *)

Lemma quiet_removed e : is_quiet e -> removed e = None.
Proof. destruct e as [[] []|]; simpl; intros H; try reflexivity; discriminate. Qed.

Lemma quiet_licence src dest e : is_quiet e -> licence src dest e = false.
Proof. destruct e as [[] []|]; simpl; intros H; try reflexivity; discriminate. Qed.

Lemma guarded_quiet_prefix is_source src dest licensed h1 h2 :
  Forall is_quiet h1 ->
  deletes_guarded is_source src dest licensed (h1 ++ h2)
    = deletes_guarded is_source src dest licensed h2.
Proof.
  induction 1 as [|e h1 He _ IH]; [reflexivity|].
  cbn [app deletes_guarded].
  rewrite (quiet_removed _ He), (quiet_licence _ _ _ He), orb_false_r. exact IH.
Qed.

Lemma guarded_quiet is_source src dest licensed h :
  Forall is_quiet h -> deletes_guarded is_source src dest licensed h = true.
Proof.
  intros H. rewrite <- (app_nil_r h). rewrite guarded_quiet_prefix by exact H. reflexivity.
Qed.

Lemma Forall_rev_quiet (h : list event) : Forall is_quiet h -> Forall is_quiet (rev h).
Proof. apply List.Forall_rev. Qed.

Lemma check_name_not_EXDEV p e : check_name p = Some e -> e <> EXDEV.
Proof.
  unfold check_name. destruct (Nat.eqb _ 0); [intros [= <-]; discriminate|].
  destruct (_ <=? _)%nat; [intros [= <-]; discriminate|discriminate].
Qed.

Lemma resolve_not_EXDEV fs p e : resolve fs p = inl e -> e <> EXDEV.
Proof.
  unfold resolve. destruct (check_name p) eqn:Ec.
  - intros [= <-]. eapply check_name_not_EXDEV, Ec.
  - destruct (node_at fs (norm p)) as [[? ?|?]|]; [| |intros [= <-]; discriminate].
    + destruct (ends_with_slash p); [intros [= <-]; discriminate|discriminate].
    + discriminate.
Qed.

Lemma parent_is_dir_not_EXDEV fs k e : parent_is_dir fs k = Some e -> e <> EXDEV.
Proof.
  unfold parent_is_dir. destruct (node_at fs (parent k)) as [[? ?|?]|];
    intros [= <-]; discriminate.
Qed.

(** A cross-device error tells that the two names are held by
    directories on different devices, so they are different names. *)
Lemma rename_EXDEV src dest w w1 :
  rename src dest w = Some (inl EXDEV, w1) ->
  norm src <> norm dest
  /\ w_trace w1 = Called (Rename src dest) (Some EXDEV) :: w_trace w.
Proof.
  intros H. apply call_Some in H as [Ho ->]. split; [|reflexivity].
  apply outcome_not_EXDEV_fault in Ho.
  destruct (Nat.eqb_spec (w_dev w (parent (norm src))) (w_dev w (parent (norm dest)))) as [E|E];
    [|intros E'; apply E; rewrite E'; reflexivity].
  exfalso. unfold sem_rename in Ho.
  rewrite E, Nat.eqb_refl in Ho. cbn [negb] in Ho.
  destruct (check_name src) eqn:C1.
  { injection Ho as ->. eapply check_name_not_EXDEV; eauto. }
  destruct (check_name dest) eqn:C2.
  { injection Ho as ->. eapply check_name_not_EXDEV; eauto. }
  destruct (resolve (w_fs w) src) as [e|[k n]] eqn:R.
  { injection Ho as ->. eapply resolve_not_EXDEV; eauto. }
  destruct (bool_decide (norm src = norm dest)); [discriminate|].
  destruct (norm src); [discriminate|].
  destruct (norm dest); [discriminate|].
  destruct (bool_decide _); [discriminate|].
  destruct (parent_is_dir _ _) eqn:P.
  { injection Ho as ->. eapply parent_is_dir_not_EXDEV; eauto. }
  repeat match type of Ho with
         | match ?x with _ => _ end = _ => destruct x; try discriminate
         end.
Qed.

Lemma grows_remove_entries rec path entries :
  (forall p, emits (fun _ => True) (rec p)) ->
  emits (fun _ => True) (remove_entries rec path entries).
Proof.
  intros Hrec. induction entries as [|name rest IH]; cbn [remove_entries].
  - apply emits_ret.
  - destruct (pseudo_entry name); [exact IH|].
    apply emits_bind.
    { eapply emits_weaken; [|apply quiet_is_directory]. auto. }
    intros d. apply emits_bind; [|intros _; exact IH].
    destruct d.
    + apply emits_bind; [apply Hrec|intros; apply emits_ret].
    + unfold unlink. apply emits_bind; [|intros; apply emits_ret].
      apply emits_call. auto.
Qed.

Lemma grows_remove_directory fuel : forall path,
  emits (fun _ => True) (remove_directory fuel path).
Proof.
  induction fuel as [|fuel IH]; intros path; cbn [remove_directory].
  - apply emits_undefined.
  - unfold opendir, closedir, rmdir.
    apply emits_bind; [apply emits_call; auto|intros d].
    destruct d as [e|entries]; [apply emits_ret|].
    apply emits_bind; [apply grows_remove_entries, IH|intros _].
    apply emits_bind; [apply emits_call; auto|intros _].
    apply emits_bind; [apply emits_call; auto|intros _].
    apply emits_ret.
Qed.

Lemma move_file_guarded fuel src dest w r w' :
  move_file fuel src dest w = Some (r, w') ->
  exists new, w_trace w' = new ++ w_trace w
    /\ deletes_guarded (same_key (norm src)) src dest false (rev new) = true.
Proof.
  unfold move_file. intros H.
  apply bind_Some in H as (rr & w1 & Hren & H).
  destruct rr as [e|[]].
  - destruct (decide (e = EXDEV)) as [->|Hne].
    + rewrite bool_decide_eq_true_2 in H by reflexivity.
      destruct (rename_EXDEV _ _ _ _ Hren) as [Hkeys T1].
      apply bind_Some in H as (res & w2 & Hcopy & H).
      destruct (quiet_copy_file _ _ _ _ _ _ Hcopy) as (n2 & T2 & Q2).
      destruct (negb (res =? SUCCESS)%Z).
      { apply ret_Some in H as [_ <-]. exists (n2 ++ [Called (Rename src dest) (Some EXDEV)]).
        split; [rewrite T2, T1, <- app_assoc; reflexivity|].
        rewrite rev_app_distr. cbn [rev app deletes_guarded removed licence orb andb].
        apply guarded_quiet, Forall_rev_quiet, Q2. }
      apply bind_Some in H as (res2 & w3 & Hcmp & H).
      destruct (quiet_compare_files _ _ _ _ _ _ Hcmp) as (n3 & T3 & Q3).
      destruct (negb (res2 =? SUCCESS)%Z).
      * apply bind_Some in H as (u & w4 & Hun & H). apply ret_Some in H as [_ <-].
        destruct (call_env _ _ _ _ _ Hun) as (_ & _ & err & T4).
        exists (Called (Unlink dest) err :: n3 ++ n2 ++ [Called (Rename src dest) (Some EXDEV)]).
        split; [rewrite T4, T3, T2, T1; cbn [app]; rewrite <- !app_assoc; reflexivity|].
        cbn [rev]. rewrite !rev_app_distr. cbn [rev app deletes_guarded removed licence orb andb].
        rewrite <- app_assoc, guarded_quiet_prefix by (apply Forall_rev_quiet, Q2).
        rewrite guarded_quiet_prefix by (apply Forall_rev_quiet, Q3).
        cbn [deletes_guarded]. rewrite andb_true_r.
        destruct err; cbn [removed]; [reflexivity|].
        cbn [orb]. unfold same_key. rewrite bool_decide_eq_false_2; [reflexivity|].
        intros E. apply Hkeys. exact E.
      * apply bind_Some in H as ([] & w4 & Hmark & H).
        injection Hmark as <-.
        apply bind_Some in H as (u & w5 & Hun & H).
        destruct (call_env _ _ _ _ _ Hun) as (_ & _ & err & T5).
        assert (w' = w5) as -> by (destruct (failed u); apply ret_Some in H as [_ <-]; reflexivity).
        exists (Called (Unlink src) err :: Verified src dest :: n3 ++ n2
                  ++ [Called (Rename src dest) (Some EXDEV)]).
        split; [rewrite T5; cbn [w_trace record]; rewrite T3, T2, T1; cbn [app];
                rewrite <- !app_assoc; reflexivity|].
        cbn [rev]. rewrite !rev_app_distr. cbn [rev app deletes_guarded removed licence orb andb].
        rewrite <- !app_assoc, guarded_quiet_prefix by (apply Forall_rev_quiet, Q2).
        rewrite guarded_quiet_prefix by (apply Forall_rev_quiet, Q3).
        cbn [app deletes_guarded removed licence orb andb].
        rewrite !String.eqb_refl. cbn [andb orb].
        destruct err; reflexivity.
    + rewrite bool_decide_eq_false_2 in H by exact Hne.
      apply ret_Some in H as [_ <-].
      destruct (call_env _ _ _ _ _ Hren) as (_ & _ & err & T1).
      apply call_Some in Hren as [_ E]. 
      exists [Called (Rename src dest) (Some e)]. split; [rewrite E; reflexivity|reflexivity].
  - apply ret_Some in H as [_ <-].
    apply call_Some in Hren as (fs' & _ & ->).
    exists [Called (Rename src dest) None]. split; reflexivity.
Qed.


Lemma rename_EXDEV_devices src dest w w1 :
  rename src dest w = Some (inl EXDEV, w1) ->
  w_dev w (parent (norm src)) <> w_dev w (parent (norm dest)).
Proof.
  intros H. apply call_Some in H as [Ho _].
  apply outcome_not_EXDEV_fault in Ho.
  destruct (Nat.eqb_spec (w_dev w (parent (norm src))) (w_dev w (parent (norm dest)))) as [E|E];
    [|exact E].
  exfalso. unfold sem_rename in Ho.
  rewrite E, Nat.eqb_refl in Ho. cbn [negb] in Ho.
  destruct (check_name src) eqn:C1.
  { injection Ho as ->. eapply check_name_not_EXDEV; eauto. }
  destruct (check_name dest) eqn:C2.
  { injection Ho as ->. eapply check_name_not_EXDEV; eauto. }
  destruct (resolve (w_fs w) src) as [e|[k n]] eqn:R.
  { injection Ho as ->. eapply resolve_not_EXDEV; eauto. }
  destruct (bool_decide (norm src = norm dest)); [discriminate|].
  destruct (norm src); [discriminate|].
  destruct (norm dest); [discriminate|].
  destruct (bool_decide _); [discriminate|].
  destruct (parent_is_dir _ _) eqn:P.
  { injection Ho as ->. eapply parent_is_dir_not_EXDEV; eauto. }
  repeat match type of Ho with
         | match ?x with _ => _ end = _ => destruct x; try discriminate
         end.
Qed.

(** The run of a file move, as far as removals go. *)
Lemma move_file_removals fuel src dest w r w' :
  move_file fuel src dest w = Some (r, w') ->
  exists before after,
    w_trace w' = after ++ before ++ w_trace w
    /\ Forall (fun e => removed e = None) before
    /\ (Forall (fun e => forall p, removed e = Some p ->
                  p = dest
                  /\ w_dev w (parent (norm p)) <> w_dev w (parent (norm src))) after
        \/ exists w1 w2 w3 k1 k2 p1 p2 data,
             rename src dest w = Some (inl EXDEV, w1)
             /\ copy_file fuel src dest w1 = Some (SUCCESS, w2)
             /\ compare_files fuel src dest w2 = Some (SUCCESS, w3)
             /\ w_trace w3 = before ++ w_trace w
             /\ resolve (w_fs w3) src = inr (k1, File p1 data)
             /\ resolve (w_fs w3) dest = inr (k2, File p2 data)).
Proof.
  unfold move_file. intros H.
  apply bind_Some in H as (rr & w1 & Hren & H).
  destruct (call_env _ _ _ _ _ Hren) as (_ & _ & err & T1).
  assert (removed (Called (Rename src dest) err) = None) as Hr1 by reflexivity.
  assert (Forall (fun e => removed e = None) [Called (Rename src dest) err]) as Hb1
      by (constructor; [exact Hr1|constructor]).
  destruct rr as [e|[]].
  - destruct (decide (e = EXDEV)) as [->|Hne].
    + rewrite bool_decide_eq_true_2 in H by reflexivity.
      pose proof (rename_EXDEV_devices _ _ _ _ Hren) as Hdev.
      apply bind_Some in H as (res & w2 & Hcopy & H).
      destruct (quiet_copy_file _ _ _ _ _ _ Hcopy) as (n2 & T2 & Q2).
      assert (Forall (fun e => removed e = None) (n2 ++ [Called (Rename src dest) err])) as Hb2.
      { apply Forall_app. split; [|exact Hb1].
        eapply Forall_impl; [exact Q2|]. intros ev. apply quiet_removed. }
      destruct (Z.eqb_spec res SUCCESS) as [->|Hres]; cbn [negb] in H.
      2:{ apply ret_Some in H as [_ <-].
          exists (n2 ++ [Called (Rename src dest) err]), [].
          split; [rewrite T2, T1, <- app_assoc; reflexivity|].
          split; [exact Hb2|]. left. constructor. }
      apply bind_Some in H as (res2 & w3 & Hcmp & H).
      destruct (quiet_compare_files _ _ _ _ _ _ Hcmp) as (n3 & T3 & Q3).
      assert (Forall (fun e => removed e = None)
                (n3 ++ n2 ++ [Called (Rename src dest) err])) as Hb3.
      { apply Forall_app. split; [|exact Hb2].
        eapply Forall_impl; [exact Q3|]. intros ev. apply quiet_removed. }
      assert (w_trace w3 = (n3 ++ n2 ++ [Called (Rename src dest) err]) ++ w_trace w) as T3'.
      { rewrite T3, T2, T1, <- !app_assoc. reflexivity. }
      destruct (Z.eqb_spec res2 SUCCESS) as [->|Hres2]; cbn [negb] in H.
      * apply bind_Some in H as ([] & w4 & Hmark & H).
        injection Hmark as <-.
        apply bind_Some in H as (u & w5 & Hun & H).
        destruct (call_env _ _ _ _ _ Hun) as (_ & _ & err5 & T5).
        assert (w' = w5) as -> by (destruct (failed u); apply ret_Some in H as [_ <-]; reflexivity).
        destruct (compare_files_sound _ _ _ _ _ Hcmp) as (k1 & k2 & p1 & p2 & data & R1 & R2).
        rewrite <- (compare_files_reads_only _ _ _ _ _ _ Hcmp) in R1, R2.
        exists (n3 ++ n2 ++ [Called (Rename src dest) err]),
               [Called (Unlink src) err5; Verified src dest].
        split; [rewrite T5; cbn [w_trace record app]; rewrite T3'; reflexivity|].
        split; [exact Hb3|]. right.
        exists w1, w2, w3, k1, k2, p1, p2, data. auto 10.
      * apply bind_Some in H as (u & w4 & Hun & H). apply ret_Some in H as [_ <-].
        destruct (call_env _ _ _ _ _ Hun) as (_ & _ & err4 & T4).
        exists (n3 ++ n2 ++ [Called (Rename src dest) err]), [Called (Unlink dest) err4].
        split; [rewrite T4, T3'; reflexivity|].
        split; [exact Hb3|]. left.
        constructor; [|constructor].
        intros p Hp. destruct err4; cbn [removed] in Hp; [discriminate|].
        injection Hp as <-. split; [reflexivity|]. intros E. apply Hdev. symmetry. exact E.
    + rewrite bool_decide_eq_false_2 in H by exact Hne.
      apply ret_Some in H as [_ <-].
      exists [Called (Rename src dest) err], [].
      split; [rewrite T1; reflexivity|]. split; [exact Hb1|]. left. constructor.
  - apply ret_Some in H as [_ <-].
    exists [Called (Rename src dest) err], [].
    split; [rewrite T1; reflexivity|]. split; [exact Hb1|]. left. constructor.
Qed.

(** C2, as the code has it.  The history of a file move is in two parts.
    The first removes nothing.  The second either removes nothing but the
    destination path, which a directory on another device holds (the
    clean-up after a comparison that failed), or it follows a run in which
    the rename failed with [EXDEV], [copy_file] returned [SUCCESS] and
    [compare_files] returned [SUCCESS] on the source and the destination
    path, which are then regular files with the same bytes: the source is
    not unlinked before that.  A run whose rename succeeded removes
    nothing.  A directory move deletes without any comparison: every
    removal of its run comes after [copy_directory] returned [SUCCESS] for
    the fallback copy, and a run whose rename succeeded removes nothing. *)
Theorem source_deleted_only_after :
  (forall (fuel : nat) (src_path dest_path : string) (w : world) (r : Z) (w' : world),
      move_file fuel src_path dest_path w = Some (r, w') ->
      exists before after,
        w_trace w' = after ++ before ++ w_trace w
        /\ Forall (fun e => removed e = None) before
        /\ (Forall (fun e => forall p, removed e = Some p ->
                      p = dest_path
                      /\ w_dev w (parent (norm p)) <> w_dev w (parent (norm src_path))) after
            \/ exists w1 w2 w3 k1 k2 p1 p2 data,
                 rename src_path dest_path w = Some (inl EXDEV, w1)
                 /\ copy_file fuel src_path dest_path w1 = Some (SUCCESS, w2)
                 /\ compare_files fuel src_path dest_path w2 = Some (SUCCESS, w3)
                 /\ w_trace w3 = before ++ w_trace w
                 /\ resolve (w_fs w3) src_path = inr (k1, File p1 data)
                 /\ resolve (w_fs w3) dest_path = inr (k2, File p2 data)))
  /\ (forall (fuel : nat) (src_path dest_path : string) (w : world) (r : Z) (w' : world),
        move_directory fuel src_path dest_path w = Some (r, w') ->
        exists before after,
          w_trace w' = after ++ before ++ w_trace w
          /\ Forall (fun e => removed e = None) before
          /\ (after = [] \/
              exists w1 w2,
                rename src_path dest_path w = Some (inl EXDEV, w1)
                /\ copy_directory fuel src_path dest_path w1 = Some (SUCCESS, w2)
                /\ w_trace w2 = before ++ w_trace w)).
Proof.
  split; [exact move_file_removals|].
  intros fuel src dest w r w'.
  unfold move_directory. intros H.
  apply bind_Some in H as (rr & w1 & Hren & H).
  destruct (call_env _ _ _ _ _ Hren) as (_ & _ & err & T1).
  assert (removed (Called (Rename src dest) err) = None) as Hr1 by reflexivity.
  destruct rr as [e|[]].
  - destruct (decide (e = EXDEV)) as [->|Hne].
    + rewrite bool_decide_eq_true_2 in H by reflexivity.
      apply bind_Some in H as (res & w2 & Hcopy & H).
      destruct (quiet_copy_directory _ _ _ _ _ _ Hcopy) as (n2 & T2 & Q2).
      assert (Forall (fun e => removed e = None) (n2 ++ [Called (Rename src dest) err])) as Hb.
      { apply Forall_app. split; [|constructor; [exact Hr1|constructor]].
        eapply Forall_impl; [exact Q2|]. intros ev. apply quiet_removed. }
      destruct (Z.eqb_spec res SUCCESS) as [->|Hres]; cbn [negb] in H.
      * apply bind_Some in H as (res2 & w3 & Hrm & H).
        destruct (grows_remove_directory _ _ _ _ _ Hrm) as (n3 & T3 & _).
        assert (w' = w3) as ->
          by (destruct (negb (res2 =? SUCCESS)%Z); apply ret_Some in H as [_ <-]; reflexivity).
        exists (n2 ++ [Called (Rename src dest) err]), n3.
        split; [rewrite T3, T2, T1, <- app_assoc; reflexivity|].
        split; [exact Hb|]. right. exists w1, w2.
        split; [exact Hren|]. split; [exact Hcopy|].
        rewrite T2, T1, <- app_assoc. reflexivity.
      * apply ret_Some in H as [_ <-].
        exists (n2 ++ [Called (Rename src dest) err]), [].
        split; [rewrite T2, T1, <- app_assoc; reflexivity|]. split; [exact Hb|]. left. reflexivity.
    + rewrite bool_decide_eq_false_2 in H by exact Hne.
      apply ret_Some in H as [_ <-].
      exists [Called (Rename src dest) err], [].
      split; [rewrite T1; reflexivity|]. split; [|left; reflexivity].
      constructor; [exact Hr1|constructor].
  - apply ret_Some in H as [_ <-].
    exists [Called (Rename src dest) err], [].
    split; [rewrite T1; reflexivity|]. split; [|left; reflexivity].
    constructor; [exact Hr1|constructor].
Qed.

Lemma source_deleted_only_after_witness :
  (exists w' before after,
     move_file 2 "a.txt" "mnt/b" example_world = Some (SUCCESS, w')
     /\ w_trace w' = after ++ before ++ w_trace example_world
     /\ Forall (fun e => removed e = None) before
     /\ (Forall (fun e => forall p, removed e = Some p ->
                   p = "mnt/b"%string
                   /\ w_dev example_world (parent (norm p))
                      <> w_dev example_world (parent (norm "a.txt"))) after
         \/ exists w1 w2 w3 k1 k2 p1 p2 data,
              rename "a.txt" "mnt/b" example_world = Some (inl EXDEV, w1)
              /\ copy_file 2 "a.txt" "mnt/b" w1 = Some (SUCCESS, w2)
              /\ compare_files 2 "a.txt" "mnt/b" w2 = Some (SUCCESS, w3)
              /\ w_trace w3 = before ++ w_trace example_world
              /\ resolve (w_fs w3) "a.txt" = inr (k1, File p1 data)
              /\ resolve (w_fs w3) "mnt/b" = inr (k2, File p2 data)))
  /\ (exists w' before after,
        move_directory 5 "s" "mnt/s" example_world = Some (SUCCESS, w')
        /\ w_trace w' = after ++ before ++ w_trace example_world
        /\ Forall (fun e => removed e = None) before
        /\ (after = [] \/
            exists w1 w2,
              rename "s" "mnt/s" example_world = Some (inl EXDEV, w1)
              /\ copy_directory 5 "s" "mnt/s" w1 = Some (SUCCESS, w2)
              /\ w_trace w2 = before ++ w_trace example_world)).
Proof.
  split.
  - destruct (move_file 2 "a.txt" "mnt/b" example_world) as [[r w']|] eqn:E;
      [|vm_compute in E; discriminate].
    assert (r = SUCCESS) as -> by (vm_compute in E; injection E as <- _; reflexivity).
    destruct (proj1 source_deleted_only_after _ _ _ _ _ _ E) as (before & after & T & F & D).
    exists w', before, after. auto.
  - destruct (move_directory 5 "s" "mnt/s" example_world) as [[r w']|] eqn:E;
      [|vm_compute in E; discriminate].
    assert (r = SUCCESS) as -> by (vm_compute in E; injection E as <- _; reflexivity).
    destruct (proj2 source_deleted_only_after _ _ _ _ _ _ E) as (before & after & T & F & D).
    exists w', before, after. auto.
Defined.

(** The reading of C2 that asks for a comparison before a directory is
    deleted fails: across devices [move_directory] removes the files of the
    source although the rename failed and nothing was compared: no file of
    the destination is ever opened for reading. *)
Lemma directory_deleted_unverified :
  exists w',
    move_directory 5 "s" "mnt/s" example_world = Some (SUCCESS, w')
    /\ deletes_guarded (within (norm "s")) "s" "mnt/s" false (rev (w_trace w')) = false
    /\ w_fs w' !! ["s"%string; "f"%string] = None
    /\ In (Called (Rename "s" "mnt/s") (Some EXDEV)) (w_trace w')
    /\ In (Called (Unlink "s/f") None) (w_trace w')
    /\ existsb (opens_to_read ["mnt"%string]) (w_trace w') = false.
Proof.
  eexists. split; [vm_compute; reflexivity|].
  split; [vm_compute; reflexivity|]. split; [vm_compute; reflexivity|].
  split; [vm_compute; tauto|]. split; [vm_compute; tauto|].
  vm_compute; reflexivity.
Qed.

(** ** What a copy and a failed move leave behind *)

Lemma frame_copy_chunks kd fuel : forall s d w r w',
  fd_key d = kd ->
  copy_chunks fuel s d w = Some (r, w') -> frame kd (w_fs w) (w_fs w').
Proof.
  induction fuel as [|fuel IH]; intros s d w r w' Hd H; [discriminate|].
  cbn [copy_chunks] in H.
  apply bind_Some in H as (rr & w1 & Hr & H).
  apply read_inv in Hr as (Hfs1 & _ & _).
  assert (forall (x : Z + fd * fd) v,
            bind (close s) (fun _ => bind (close d) (fun _ => ret x)) v = Some (r, w') ->
            w_fs w' = w_fs v) as Hcl.
  { intros x v Hx. symmetry.
    apply (steps_closes eq (fun _ => eq_refl) (fun a b c => @eq_trans _ a b c) s d x v r w' Hx). }
  destruct rr as [e|[chunk s']].
  { rewrite (Hcl _ _ H), Hfs1. apply frame_refl. }
  destruct (Nat.eqb (length chunk) 0).
  { apply ret_Some in H as [_ <-]. rewrite Hfs1. apply frame_refl. }
  apply bind_Some in H as (wr & w2 & Hw & H).
  apply write_inv in Hw as (_ & Hw).
  destruct wr as [e|[n d']].
  { rewrite (Hcl _ _ H), Hw, Hfs1. apply frame_refl. }
  destruct Hw as (_ & -> & perm & data & _ & Hfs2).
  assert (frame kd (w_fs w) (w_fs w2)) as F2.
  { rewrite Hfs2, Hfs1, Hd. apply frame_insert. }
  destruct (Nat.eqb n (length chunk)).
  - eapply frame_trans; [exact F2|]. eapply IH; [|exact H]. exact Hd.
  - rewrite (Hcl _ _ H). exact F2.
Qed.

Lemma copy_chunks_fds fuel : forall s d w s' d' w',
  copy_chunks fuel s d w = Some (inr (s', d'), w') ->
  fd_key s' = fd_key s /\ fd_key d' = fd_key d.
Proof.
  induction fuel as [|fuel IH]; intros s d w s' d' w' H; [discriminate|].
  cbn [copy_chunks] in H.
  apply bind_Some in H as (rr & w1 & Hr & H).
  destruct rr as [e|[chunk s1]].
  { apply bind_Some in H as (? & ? & _ & H). apply bind_Some in H as (? & ? & _ & H).
    apply ret_Some in H as [[=] _]. }
  apply read_inv in Hr as (_ & _ & Hr).
  destruct (Hr _ _ eq_refl) as (? & ? & _ & _ & ->).
  destruct (Nat.eqb (length chunk) 0).
  { apply ret_Some in H as [[= <- <-] _]. auto. }
  apply bind_Some in H as (wr & w2 & Hw & H).
  apply write_inv in Hw as (_ & Hw).
  destruct wr as [e|[n d1]].
  { apply bind_Some in H as (? & ? & _ & H). apply bind_Some in H as (? & ? & _ & H).
    apply ret_Some in H as [[=] _]. }
  destruct Hw as (_ & -> & _).
  destruct (Nat.eqb n (length chunk)).
  - apply IH in H. exact H.
  - apply bind_Some in H as (? & ? & _ & H). apply bind_Some in H as (? & ? & _ & H).
    apply ret_Some in H as [[=] _].
Qed.

Lemma frame_copy_mode s d w u w' :
  copy_mode s d w = Some (u, w') -> frame (fd_key d) (w_fs w) (w_fs w').
Proof.
  unfold copy_mode. intros H.
  apply bind_Some in H as (r & w1 & Hs & H).
  assert (w_fs w1 = w_fs w) as Hfs1.
  { symmetry. apply (steps_fstat eq (fun _ => eq_refl) s w r w1 Hs). }
  destruct r as [e|st].
  - apply ret_Some in H as [_ <-]. rewrite Hfs1. apply frame_refl.
  - apply bind_Some in H as (r2 & w2 & Hc & H). apply ret_Some in H as [_ <-].
    rewrite <- Hfs1.
    refine (steps_call (frame (fd_key d)) (frame_refl _) _ _ _ _ _ _ Hc).
    intros fs dev a fs'. unfold sem_fchmod.
    destruct (fd_key d) as [|c k]; [discriminate|].
    destruct (node_at fs (c :: k)) as [[]|]; intros E; inversion E; subst;
      apply frame_insert.
Qed.

(** [copy_file] changes at most the one name that it opens for writing. *)
Lemma copy_file_frame fuel src dest w r w' :
  copy_file fuel src dest w = Some (r, w') ->
  exists st,
    (forall s, st = inr s -> exists k n, resolve (w_fs w) dest = inr (k, n) /\ s = stat_of n)
    /\ frame (norm (final_dest_path src dest st)) (w_fs w) (w_fs w').
Proof.
  unfold copy_file. intros H.
  apply bind_Some in H as (z & w1 & Hsize & H).
  apply get_file_size_inv in Hsize as (Hfs1 & _).
  apply bind_Some in H as (o & w2 & Hopen & H).
  apply open_rd_inv in Hopen as (Hfs2 & _ & _).
  destruct o as [e|sfd].
  { apply ret_Some in H as [_ <-]. exists (inl e). split; [discriminate|].
    rewrite Hfs2, Hfs1. apply frame_refl. }
  apply bind_Some in H as (st & w3 & Hstat & H).
  apply stat_inv in Hstat as (Hfs3 & _ & Hst).
  exists st. split.
  { intros s ->. rewrite <- Hfs1, <- Hfs2. apply Hst. reflexivity. }
  set (final := final_dest_path src dest st) in *.
  apply bind_Some in H as (o & w4 & Hwr & H).
  apply open_wr_inv in Hwr as (_ & Hwr).
  destruct o as [e|dfd].
  { apply bind_Some in H as (c & w5 & Hc & H). apply ret_Some in H as [_ <-].
    apply close_inv in Hc as (Hfs5 & _).
    rewrite Hfs5, Hwr, Hfs3, Hfs2, Hfs1. apply frame_refl. }
  destruct Hwr as (-> & _ & _ & _ & _ & perm & Hfs4).
  assert (frame (norm final) (w_fs w) (w_fs w4)) as F4.
  { rewrite Hfs4, Hfs3, Hfs2, Hfs1. apply frame_insert. }
  apply bind_Some in H as (l & w5 & Hloop & H).
  pose proof (frame_copy_chunks (norm final) _ _ (Fd (norm final) 0) _ _ _ eq_refl Hloop) as F5.
  destruct l as [code|[s' d']].
  { apply ret_Some in H as [_ <-]. eapply frame_trans; eauto. }
  destruct (copy_chunks_fds _ _ _ _ _ _ _ Hloop) as [_ Hd']. cbn [fd_key] in Hd'.
  apply bind_Some in H as (u & w6 & Hmode & H).
  apply frame_copy_mode in Hmode. rewrite Hd' in Hmode.
  apply bind_Some in H as (c1 & w7 & Hc1 & H).
  apply bind_Some in H as (c2 & w8 & Hc2 & H).
  apply ret_Some in H as [_ <-].
  apply close_inv in Hc1 as (Hfs7 & _). apply close_inv in Hc2 as (Hfs8 & _).
  rewrite Hfs8, Hfs7. eapply frame_trans; [|exact Hmode]. eapply frame_trans; eauto.
Qed.

Lemma rename_EXDEV_names src dest w w1 :
  rename src dest w = Some (inl EXDEV, w1) ->
  check_name dest = None /\ w_fs w1 = w_fs w.
Proof.
  intros H. split; [|eapply call_failed_fs, H].
  apply call_Some in H as [Ho _]. apply outcome_not_EXDEV_fault in Ho.
  unfold sem_rename in Ho.
  destruct (check_name src) eqn:C1.
  { injection Ho as ->. exfalso. eapply check_name_not_EXDEV; eauto. }
  destruct (check_name dest) eqn:C2; [|reflexivity].
  injection Ho as ->. exfalso. eapply check_name_not_EXDEV; eauto.
Qed.

Lemma frame_unlink p w u w' :
  unlink p w = Some (u, w') ->
  frame (norm p) (w_fs w) (w_fs w')
  /\ (u = inr tt -> w_fs w' !! norm p = None).
Proof.
  intros H. apply call_Some in H. destruct u as [e|[]].
  - destruct H as [_ ->]. split; [apply frame_refl|discriminate].
  - destruct H as (fs' & Ho & ->). apply outcome_inr in Ho. unfold sem_unlink in Ho.
    destruct (resolve (w_fs w) p) as [e|[k [perm data|perm]]] eqn:R; try discriminate.
    injection Ho as <-. apply resolve_inr in R as (_ & -> & _).
    cbn [w_fs record with_fs]. split.
    + intros k Hk. apply lookup_delete_ne. congruence.
    + intros _. apply lookup_delete_eq.
Qed.

(** When the destination of a file move is not a directory, a failed
    verification is followed by the removal of what was written: every
    other name is as it was before the move, the source among them, and
    the destination is gone if [unlink] did not fail. *)
Lemma move_file_cleans_up fuel src dest w w1 w2 w3 res :
  rename src dest w = Some (inl EXDEV, w1) ->
  copy_file fuel src dest w1 = Some (SUCCESS, w2) ->
  compare_files fuel src dest w2 = Some (res, w3) ->
  res <> SUCCESS ->
  (forall k perm, resolve (w_fs w) dest <> inr (k, Dir perm)) ->
  exists u w',
    unlink dest w3 = Some (u, w')
    /\ move_file fuel src dest w = Some (ERROR_MOVE_FAILED, w')
    /\ frame (norm dest) (w_fs w) (w_fs w')
    /\ w_fs w' !! norm src = w_fs w !! norm src
    /\ (u = inr tt -> w_fs w' !! norm dest = None).
Proof.
  intros Hren Hcopy Hcmp Hres Hnodir.
  destruct (rename_EXDEV _ _ _ _ Hren) as [Hkeys _].
  destruct (rename_EXDEV_names _ _ _ _ Hren) as [Hcn Hfs1].
  destruct (copy_file_frame _ _ _ _ _ _ Hcopy) as (st & Hst & F2).
  assert (final_dest_path src dest st = dest) as Hfinal.
  { pose proof (check_name_None _ Hcn) as Hlen.
    unfold final_dest_path. destruct st as [e|s]; [apply snprintf_short; lia|].
    destruct (Hst s eq_refl) as (k & n & R & ->).
    rewrite S_ISDIR_stat_of. destruct n as [perm data|perm].
    - apply snprintf_short; lia.
    - exfalso. rewrite Hfs1 in R. eapply Hnodir, R. }
  rewrite Hfinal, Hfs1 in F2.
  pose proof (compare_files_reads_only _ _ _ _ _ _ Hcmp) as Hfs3.
  destruct (call_total (Unlink dest) (fun fs _ => sem_unlink fs dest) w3) as (u & w' & Hun).
  fold (unlink dest) in Hun.
  destruct (frame_unlink _ _ _ _ Hun) as [F4 Hgone].
  assert (frame (norm dest) (w_fs w) (w_fs w')) as F.
  { eapply frame_trans; [exact F2|]. rewrite <- Hfs3. exact F4. }
  exists u, w'. split; [exact Hun|]. split.
  - unfold move_file. unfold bind at 1. rewrite Hren.
    rewrite bool_decide_eq_true_2 by reflexivity.
    unfold bind at 1. rewrite Hcopy. cbn [negb Z.eqb SUCCESS].
    unfold bind at 1. rewrite Hcmp.
    destruct (Z.eqb_spec res SUCCESS) as [E|_]; [contradiction|]. cbn [negb].
    unfold bind at 1. rewrite Hun. reflexivity.
  - split; [exact F|]. split; [apply F, Hkeys|exact Hgone].
Qed.

(** The lemma at work: the copy cannot be opened for the comparison, the
    move fails, the copy is removed and [a.txt] is as it was. *)
Lemma move_file_cleans_up_example :
  exists w',
    move_file 2 "a.txt" "mnt/b" unreadable_copy_world = Some (ERROR_MOVE_FAILED, w')
    /\ frame (norm "mnt/b") (w_fs unreadable_copy_world) (w_fs w')
    /\ w_fs w' !! norm "mnt/b" = None.
Proof.
  eassert (rename "a.txt" "mnt/b" unreadable_copy_world = Some (inl EXDEV, _)) as E1
    by (vm_compute; reflexivity).
  match type of E1 with
  | _ = Some (_, ?w1) =>
      eassert (copy_file 2 "a.txt" "mnt/b" w1 = Some (SUCCESS, _)) as E2
        by (vm_compute; reflexivity)
  end.
  match type of E2 with
  | _ = Some (_, ?w2) =>
      eassert (compare_files 2 "a.txt" "mnt/b" w2 = Some (ERROR_FILE_OPEN, _)) as E3
        by (vm_compute; reflexivity)
  end.
  destruct (move_file_cleans_up 2 "a.txt" "mnt/b" _ _ _ _ _ E1 E2 E3)
    as (u & w' & Hun & Hmove & F & _ & Hgone).
  - discriminate.
  - intros k perm. vm_compute. discriminate.
  - exists w'. split; [exact Hmove|]. split; [exact F|]. apply Hgone.
    vm_compute in Hun. injection Hun as <- _. reflexivity.
Qed.

(** [move_file] answers [SUCCESS] only when the rename worked or the
    source was unlinked: a source that cannot be deleted after the copy
    makes the move fail. *)
Lemma move_file_success_ends fuel src dest w w' :
  move_file fuel src dest w = Some (SUCCESS, w') ->
  hd_error (w_trace w') = Some (Called (Rename src dest) None)
  \/ hd_error (w_trace w') = Some (Called (Unlink src) None).
Proof.
  unfold move_file. intros H.
  apply bind_Some in H as (rr & w1 & Hren & H).
  destruct rr as [e|[]].
  - destruct (bool_decide (e = EXDEV)); [|apply ret_Some in H as [[=] _]].
    apply bind_Some in H as (res & w2 & Hcopy & H).
    destruct (Z.eqb_spec res SUCCESS) as [->|Hres]; cbn [negb] in H;
      [|apply ret_Some in H as [-> _]; congruence].
    apply bind_Some in H as (res2 & w3 & Hcmp & H).
    destruct (Z.eqb_spec res2 SUCCESS) as [->|Hres2]; cbn [negb] in H.
    + apply bind_Some in H as ([] & w4 & _ & H).
      apply bind_Some in H as (u & w5 & Hun & H).
      apply call_Some in Hun. destruct u as [e'|[]]; cbn [failed] in H.
      * apply ret_Some in H as [[=] _].
      * apply ret_Some in H as [_ <-]. destruct Hun as (fs' & _ & ->). right. reflexivity.
    + apply bind_Some in H as (u & w4 & _ & H). apply ret_Some in H as [[=] _].
  - apply ret_Some in H as [_ <-]. apply call_Some in Hren as (fs' & _ & ->).
    left. reflexivity.
Qed.

(** ** Where the code misses what it sets out to do *)

(** C3: a file moved across devices into an existing directory.  The
    rename fails with [EXDEV], the directory [mnt/d] being on the other
    device.  The fallback copy is written inside the directory, but the
    comparison and the clean-up are made on the directory itself: the
    comparison fails, [unlink] on the directory fails with [EISDIR],
    [ERROR_MOVE_FAILED] is returned and the copy stays behind.  The source
    is untouched. *)
Theorem move_file_into_directory_leaves_copy :
  exists w',
    move_file 2 "a.txt" "mnt/d" shelf_world = Some (ERROR_MOVE_FAILED, w')
    /\ In (Called (Rename "a.txt" "mnt/d") (Some EXDEV)) (w_trace w')
    /\ In (Called (OpenWr "mnt/d/a.txt") None) (w_trace w')
    /\ hd_error (w_trace w') = Some (Called (Unlink "mnt/d") (Some EISDIR))
    /\ w_fs w' !! ["mnt"%string; "d"%string; "a.txt"%string] = Some (File 384 [x68; x69])
    /\ w_fs w' !! ["a.txt"%string] = Some (File 384 [x68; x69])
    /\ w_fs shelf_world !! ["mnt"%string; "d"%string; "a.txt"%string] = None.
Proof.
  eexists. split; [vm_compute; reflexivity|].
  split; [vm_compute; tauto|]. split; [vm_compute; tauto|].
  repeat split; vm_compute; reflexivity.
Qed.

(** C4: a directory moved across devices out of a tree in which nothing
    can be unlinked.  [remove_directory] does not look at the results of
    [unlink] and [rmdir]: after the copy, no file of the source is deleted,
    the directories are not empty and stay, and [move_directory] returns
    [SUCCESS]. *)
Theorem move_directory_hides_delete_failure :
  exists w',
    move_directory 5 "s" "mnt/s" unlink_refused_world = Some (SUCCESS, w')
    /\ In (Called (Unlink "s/f") (Some EACCES)) (w_trace w')
    /\ hd_error (w_trace w') = Some (Called (Rmdir "s") (Some ENOTEMPTY))
    /\ w_fs w' !! ["s"%string] = Some (Dir 493)
    /\ w_fs w' !! ["s"%string; "f"%string] = Some (File 420 [x61])
    /\ w_fs w' !! ["s"%string; "t"%string; "g"%string] = Some (File 420 [x62])
    /\ w_fs w' !! ["mnt"%string; "s"%string; "f"%string] = Some (File 420 [x61]).
Proof.
  eexists. split; [vm_compute; reflexivity|].
  split; [vm_compute; tauto|].
  repeat split; vm_compute; reflexivity.
Qed.

Lemma stat_empty w :
  exists e, stat "" w = Some (inl e, record (Called (Stat "") (Some e)) w).
Proof.
  unfold stat, call, outcome. destruct (w_faults w _ _); eexists; reflexivity.
Qed.

Lemma mkdir_empty w :
  exists e, e <> EEXIST
            /\ mkdir "" w = Some (inl e, record (Called (Mkdir "") (Some e)) w).
Proof.
  unfold mkdir, call, outcome. destruct (w_faults w _ _) as [f|].
  - eexists. split; [|reflexivity]. destruct f; discriminate.
  - eexists. split; [|reflexivity]. discriminate.
Qed.

(** C10: the root directory exists in every world, and
    [create_directory("/")] fails in every world.  The trailing slash is
    cut off first, which leaves the empty name; [stat] and [mkdir] both
    refuse it, with an error that is not [EEXIST].  So [copy_directory]
    into the root returns [ERROR_DIR_CREATE] before it opens the source. *)
Theorem create_directory_root_fails :
  forall w : world,
    resolve (w_fs w) "/" = inr ([], root_dir)
    /\ exists w',
         create_directory "/" w = Some (ERROR_DIR_CREATE, w')
         /\ w_fs w' = w_fs w
         /\ forall fuel src_path,
              copy_directory (S fuel) src_path "/" w = Some (ERROR_DIR_CREATE, w').
Proof.
  intros w. split.
  { unfold resolve, check_name. cbn [String.length Nat.eqb].
    destruct (Nat.leb_spec MAX_PATH 1) as [H|_]; [pose proof MAX_PATH_big; lia|].
    reflexivity. }
  assert (snprintf MAX_PATH "/" = "/"%string) as Hsn.
  { apply snprintf_short. cbn [String.length]. apply MAX_PATH_big. }
  destruct (stat_empty w) as (e1 & Hstat).
  destruct (mkdir_empty (record (Called (Stat "") (Some e1)) w)) as (e2 & Hne & Hmk).
  assert (create_directory "/" w
          = Some (ERROR_DIR_CREATE,
                  record (Called (Mkdir "") (Some e2)) (record (Called (Stat "") (Some e1)) w)))
    as Hrun.
  { unfold create_directory. rewrite Hsn. cbn [String.length Nat.eqb].
    change (strip_trailing_slash "/") with ""%string.
    unfold bind at 1. cbn [ret Z.eqb SUCCESS].
    unfold make_if_missing, path_exists.
    unfold bind at 1. unfold bind at 1. rewrite Hstat. cbn [ret failed negb].
    unfold bind at 1. rewrite Hmk. unfold mkdir_refused.
    rewrite bool_decide_eq_false_2 by exact Hne. reflexivity. }
  eexists. split; [exact Hrun|]. split; [reflexivity|].
  intros fuel src. cbn [copy_directory]. unfold bind at 1. rewrite Hrun. reflexivity.
Qed.

(** ** Creating a directory that exists *)

Lemma append_cons x a b : String x a +:+ b = String x (a +:+ b).
Proof. reflexivity. Qed.

Lemma append_nil b : EmptyString +:+ b = b.
Proof. reflexivity. Qed.

Lemma append_snoc a c r : (a +:+ String c EmptyString) +:+ r = a +:+ String c r.
Proof.
  induction a as [|x a IH]; [reflexivity|].
  rewrite !append_cons, IH. reflexivity.
Qed.

Lemma append_length a b : String.length (a +:+ b) = (String.length a + String.length b)%nat.
Proof.
  induction a as [|x a IH]; [reflexivity|].
  rewrite append_cons. cbn [String.length]. rewrite IH. reflexivity.
Qed.

Lemma segments_app cur a b :
  segments cur (a +:+ String "/" b) = segments cur a ++ segments EmptyString b.
Proof.
  revert cur. induction a as [|c a IH]; intros cur.
  - reflexivity.
  - rewrite append_cons. cbn [segments].
    destruct (Ascii.eqb c "/"); rewrite IH; reflexivity.
Qed.

Lemma norm_app a b : norm (a +:+ String "/" b) = norm a ++ norm b.
Proof. unfold norm. rewrite segments_app. apply List.filter_app. Qed.

Lemma last_char_split s c :
  last_char s = Some c ->
  s = String.substring 0 (String.length s - 1) s +:+ String c EmptyString.
Proof.
  unfold last_char. induction s as [|a s IH]; [discriminate|].
  cbn [String.length]. rewrite Nat.sub_succ, Nat.sub_0_r.
  destruct s as [|b s].
  - cbn [String.get String.length String.substring]. intros [= ->]. reflexivity.
  - cbn [String.length] in *. rewrite Nat.sub_succ, Nat.sub_0_r in IH.
    intros H. change (String.get (S (String.length s)) (String a (String b s)))
      with (String.get (String.length s) (String b s)) in H.
    change (String.substring 0 (S (String.length s)) (String a (String b s)))
      with (String a (String.substring 0 (String.length s) (String b s))).
    rewrite append_cons. rewrite <- IH by exact H. reflexivity.
Qed.

Lemma strip_trailing_slash_spec p :
  (ends_with_slash p = true /\ p = strip_trailing_slash p +:+ String "/" EmptyString)
  \/ (ends_with_slash p = false /\ strip_trailing_slash p = p).
Proof.
  unfold strip_trailing_slash, ends_with_slash.
  destruct (last_char p) as [c|] eqn:E; [|right; auto].
  destruct (Ascii.eqb_spec c "/") as [->|Hne]; [|right; auto].
  left. split; [reflexivity|]. apply last_char_split, E.
Qed.

Lemma norm_strip p : norm (strip_trailing_slash p) = norm p.
Proof.
  destruct (strip_trailing_slash_spec p) as [[_ E]|[_ E]]; [|rewrite E; reflexivity].
  rewrite E at 2. rewrite norm_app. change (norm EmptyString) with (@nil string).
  rewrite app_nil_r. reflexivity.
Qed.

Lemma closedb_parent fs k c n :
  closedb fs = true -> fs !! (k ++ [c]) = Some n ->
  exists perm, node_at fs k = Some (Dir perm).
Proof.
  intros Hc Hl. unfold closedb in Hc. rewrite forallb_forall in Hc.
  specialize (Hc (k ++ [c], n)). cbn [fst] in Hc.
  unfold parent_is_dir, parent in Hc. rewrite removelast_last in Hc.
  destruct (node_at fs k) as [[|perm]|].
  - discriminate Hc. apply list_elem_of_In, elem_of_map_to_list, Hl.
  - eauto.
  - discriminate Hc. apply list_elem_of_In, elem_of_map_to_list, Hl.
Qed.

Lemma prefix_dir fs k1 k2 perm :
  closedb fs = true -> node_at fs (k1 ++ k2) = Some (Dir perm) ->
  exists perm', node_at fs k1 = Some (Dir perm').
Proof.
  intros Hc. revert perm. induction k2 as [|c k2 IH] using rev_ind; intros perm H.
  - rewrite app_nil_r in H. eauto.
  - rewrite app_assoc in H.
    destruct ((k1 ++ k2) ++ [c]) as [|x l] eqn:E; [destruct (k1 ++ k2); discriminate|].
    rewrite node_at_cons, <- E in H.
    destruct (closedb_parent _ _ _ _ Hc H) as [perm' Hp]. eapply IH, Hp.
Qed.

Lemma make_if_missing_existing p w :
  fault_free w -> dir_at (w_fs w) p ->
  exists w',
    make_if_missing p w = Some (SUCCESS, w')
    /\ w_fs w' = w_fs w /\ fault_free w'
    /\ w_trace w' = Called (Stat p) None :: w_trace w.
Proof.
  intros Hff (k & perm & R). unfold make_if_missing, path_exists, stat.
  unfold bind at 1. ff_step. rewrite (sem_stat_resolved _ _ _ _ R). cbn [ret failed negb].
  eexists. split; [reflexivity|]. split; [reflexivity|]. split; [exact Hff|reflexivity].
Qed.

Lemma create_parents_existing rest : forall before w,
  fault_free w ->
  (forall r1 r2, rest = r1 +:+ String "/" r2 -> dir_at (w_fs w) (before +:+ r1)) ->
  exists w' new,
    create_parents before rest w = Some (SUCCESS, w')
    /\ w_fs w' = w_fs w /\ fault_free w'
    /\ w_trace w' = new ++ w_trace w /\ Forall is_stat new.
Proof.
  induction rest as [|c r IH]; intros before w Hff Hdirs; cbn [create_parents].
  - exists w, []. repeat split; auto; constructor.
  - assert (forall r1 r2, r = r1 +:+ String "/" r2 ->
              dir_at (w_fs w) ((before +:+ String c EmptyString) +:+ r1)) as Hnext.
    { intros r1 r2 ->. rewrite append_snoc. apply (Hdirs (String c r1) r2). reflexivity. }
    destruct (Ascii.eqb_spec c "/") as [->|Hc].
    + destruct (make_if_missing_existing before w Hff) as (w1 & Hrun & Hfs1 & Hff1 & T1).
      { specialize (Hdirs EmptyString r eq_refl).
        replace (before +:+ EmptyString) with before in Hdirs; [exact Hdirs|].
        clear. induction before as [|x b IHb]; [reflexivity|].
        rewrite append_cons, <- IHb. reflexivity. }
      unfold bind at 1. rewrite Hrun. cbn [Z.eqb SUCCESS].
      destruct (IH (before +:+ String "/" EmptyString) w1 Hff1) as (w' & new & Hr & Hfs & Hff' & T & F).
      { rewrite Hfs1. exact Hnext. }
      exists w', (new ++ [Called (Stat before) None]).
      split; [exact Hr|]. split; [congruence|]. split; [exact Hff'|].
      split; [rewrite T, T1, <- app_assoc; reflexivity|].
      apply Forall_app. split; [exact F|]. constructor; [eexists; reflexivity|constructor].
    + apply IH; assumption.
Qed.

(** Apart from the root, [create_directory] on a directory that exists
    only looks: when no call fails and every name has its parent
    directory, it returns [SUCCESS] after [stat] calls alone and the file
    system is as it was. *)
Lemma create_directory_existing p w k perm :
  fault_free w ->
  closedb (w_fs w) = true ->
  resolve (w_fs w) p = inr (k, Dir perm) ->
  p <> "/"%string ->
  exists w' new,
    create_directory p w = Some (SUCCESS, w')
    /\ w_fs w' = w_fs w
    /\ w_trace w' = new ++ w_trace w /\ Forall is_stat new.
Proof.
  intros Hff Hclosed R Hroot.
  destruct (resolve_inr _ _ _ _ R) as (Hcn & -> & Hnode & _).
  pose proof (check_name_None _ Hcn) as Hlen.
  unfold create_directory. rewrite snprintf_short by lia.
  destruct (Nat.eqb_spec (String.length p) 0) as [E|_]; [lia|].
  set (tmp := strip_trailing_slash p).
  assert (norm tmp = norm p) as Hnorm by apply norm_strip.
  assert (String.length tmp <= String.length p)%nat as Htmp_len.
  { destruct (strip_trailing_slash_spec p) as [[_ E]|[_ E]]; fold tmp in E.
    - rewrite E at 1. rewrite append_length. lia.
    - rewrite E. lia. }
  assert (tmp <> EmptyString) as Htmp.
  { intros E0. destruct (strip_trailing_slash_spec p) as [[_ E]|[_ E]]; fold tmp in E;
      rewrite E0 in E.
    - apply Hroot. exact E.
    - rewrite <- E in Hlen. simpl in Hlen. lia. }
  (* every proper prefix in front of a slash is a directory *)
  assert (forall a b, tmp = a +:+ String "/" b -> a <> EmptyString -> dir_at (w_fs w) a)
    as Hprefix.
  { intros a b E Ha.
    assert (norm p = norm a ++ norm b) as Hk by (rewrite <- Hnorm, E; apply norm_app).
    rewrite Hk in Hnode.
    destruct (prefix_dir _ _ _ _ Hclosed Hnode) as [perm' Hd].
    exists (norm a), perm'. unfold resolve.
    assert (check_name a = None) as ->.
    { unfold check_name.
      assert (String.length a < String.length tmp)%nat
        by (rewrite E, append_length; cbn [String.length]; lia).
      destruct (Nat.eqb_spec (String.length a) 0) as [E0|_].
      - destruct a; [congruence|discriminate].
      - destruct (Nat.leb_spec MAX_PATH (String.length a)); [lia|reflexivity]. }
    rewrite Hd. reflexivity. }
  assert (dir_at (w_fs w) tmp) as Hfinal.
  { exists (norm p), perm. unfold resolve.
    assert (check_name tmp = None) as ->.
    { unfold check_name.
      destruct (Nat.eqb_spec (String.length tmp) 0) as [E0|_].
      - destruct tmp; [congruence|discriminate].
      - destruct (Nat.leb_spec MAX_PATH (String.length tmp)); [lia|reflexivity]. }
    rewrite Hnorm, Hnode. reflexivity. }
  clearbody tmp. destruct tmp as [|c rest]; [congruence|].
  destruct (create_parents_existing rest (String c EmptyString) w Hff)
    as (w1 & n1 & Hrun & Hfs1 & Hff1 & T1 & F1).
  { intros r1 r2 ->. apply (Hprefix (String c r1) r2); [reflexivity|discriminate]. }
  unfold bind at 1. rewrite Hrun. cbn [Z.eqb SUCCESS].
  destruct (make_if_missing_existing (String c rest) w1 Hff1) as (w2 & Hrun2 & Hfs2 & _ & T2).
  { rewrite Hfs1. exact Hfinal. }
  exists w2, (Called (Stat (String c rest)) None :: n1).
  split; [exact Hrun2|]. split; [congruence|].
  split; [rewrite T2, T1; reflexivity|].
  constructor; [eexists; reflexivity|exact F1].
Qed.

Lemma create_directory_existing_example :
  exists w' new,
    create_directory "s/t/" example_world = Some (SUCCESS, w')
    /\ w_fs w' = w_fs example_world
    /\ w_trace w' = new ++ w_trace example_world /\ Forall is_stat new.
Proof.
  apply (create_directory_existing "s/t/" example_world ["s"%string; "t"%string] 493).
  - intros t c; reflexivity.
  - vm_compute; reflexivity.
  - vm_compute; reflexivity.
  - discriminate.
Qed.

(** ** Copying into a directory that exists *)

Ltac keeps_step :=
  match goal with
  | |- steps keeps (bind _ _) => apply (steps_bind keeps keeps_trans); [|intros ?]
  | |- steps keeps (ret _) => apply (steps_ret keeps keeps_refl)
  | |- steps keeps undefined => apply steps_undefined
  | |- steps keeps (stat _) => apply (steps_stat keeps keeps_refl)
  | |- steps keeps (open_rd _) => apply (steps_open_rd keeps keeps_refl)
  | |- steps keeps (read _ _) => apply (steps_read keeps keeps_refl)
  | |- steps keeps (fstat _) => apply (steps_fstat keeps keeps_refl)
  | |- steps keeps (close _) => apply (steps_close keeps keeps_refl)
  | |- steps keeps (opendir _) => apply (steps_opendir keeps keeps_refl)
  | |- steps keeps (closedir _) => apply (steps_closedir keeps keeps_refl)
  | |- steps keeps (path_exists _) => apply (steps_path_exists keeps keeps_refl keeps_trans)
  | |- steps keeps (is_directory _) => apply (steps_is_directory keeps keeps_refl keeps_trans)
  | |- steps keeps (get_file_size _) => apply (steps_get_file_size keeps keeps_refl keeps_trans)
  | |- steps keeps (match ?x with _ => _ end) => destruct x
  | |- steps keeps (if ?x then _ else _) => destruct x
  end.

Lemma keeps_open_wr p : steps keeps (open_wr p).
Proof.
  apply (steps_call keeps keeps_refl). intros fs dev a fs'. unfold sem_open_wr.
  destruct (check_name p); [discriminate|].
  destruct (node_at fs (norm p)) as [[]|].
  - destruct (ends_with_slash p); [discriminate|]. intros [= _ <-]. apply keeps_insert.
  - discriminate.
  - destruct (ends_with_slash p); [discriminate|].
    destruct (parent_is_dir fs (norm p)); [discriminate|]. intros [= _ <-]. apply keeps_insert.
Qed.

Lemma keeps_write f buf : steps keeps (write f buf).
Proof.
  apply (steps_call keeps keeps_refl). intros fs dev a fs'. unfold sem_write.
  destruct (node_at fs (fd_key f)) as [[]|]; try discriminate.
  intros [= _ <-]. apply keeps_insert.
Qed.

Lemma keeps_fchmod f m : steps keeps (fchmod f m).
Proof.
  apply (steps_call keeps keeps_refl). intros fs dev a fs'. unfold sem_fchmod.
  destruct (fd_key f) as [|c k]; [discriminate|].
  destruct (node_at fs (c :: k)) as [[]|]; intros E; inversion E; subst; apply keeps_insert.
Qed.

Lemma keeps_mkdir p : steps keeps (mkdir p).
Proof.
  apply (steps_call keeps keeps_refl). intros fs dev a fs'. unfold sem_mkdir.
  destruct (check_name p); [discriminate|].
  destruct (node_at fs (norm p)); [discriminate|].
  destruct (parent_is_dir fs (norm p)); [discriminate|].
  intros E; inversion E; subst. apply keeps_insert.
Qed.

Lemma keeps_make_if_missing p : steps keeps (make_if_missing p).
Proof. unfold make_if_missing. repeat keeps_step. apply keeps_mkdir. Qed.

Lemma keeps_create_parents rest : forall before, steps keeps (create_parents before rest).
Proof.
  induction rest as [|c r IH]; intros before; cbn [create_parents].
  - keeps_step.
  - destruct (Ascii.eqb c "/"); [|apply IH].
    keeps_step; [apply keeps_make_if_missing|].
    destruct (_ =? SUCCESS)%Z; [apply IH|keeps_step].
Qed.

Lemma keeps_create_directory p : steps keeps (create_directory p).
Proof.
  unfold create_directory. destruct (Nat.eqb _ 0); [keeps_step|].
  keeps_step.
  - destruct (strip_trailing_slash _); [keeps_step|apply keeps_create_parents].
  - destruct (_ =? SUCCESS)%Z; [apply keeps_make_if_missing|keeps_step].
Qed.

Lemma keeps_copy_chunks fuel : forall s d, steps keeps (copy_chunks fuel s d).
Proof.
  induction fuel as [|fuel IH]; intros s d; cbn [copy_chunks].
  - keeps_step.
  - keeps_step; [keeps_step|].
    destruct a as [e|[chunk s']]; [repeat keeps_step|].
    destruct (Nat.eqb (length chunk) 0); [keeps_step|].
    keeps_step; [apply keeps_write|].
    destruct a as [e|[n d']]; [repeat keeps_step|].
    destruct (Nat.eqb n (length chunk)); [apply IH|repeat keeps_step].
Qed.

Lemma keeps_copy_file fuel src dest : steps keeps (copy_file fuel src dest).
Proof.
  unfold copy_file, copy_mode.
  keeps_step; [keeps_step|]. keeps_step; [keeps_step|].
  destruct a0 as [e|s]; [keeps_step|].
  keeps_step; [keeps_step|]. keeps_step; [apply keeps_open_wr|].
  destruct a1 as [e|d]; [repeat keeps_step|].
  keeps_step; [apply keeps_copy_chunks|].
  destruct a1 as [code|[s' d']]; [keeps_step|].
  keeps_step; [|repeat keeps_step].
  keeps_step; [keeps_step|].
  destruct a1 as [e|st]; [keeps_step|].
  keeps_step; [apply keeps_fchmod|keeps_step].
Qed.

Lemma keeps_copy_entries rec fuel src dest entries :
  (forall a b, steps keeps (rec a b)) ->
  steps keeps (copy_entries rec fuel src dest entries).
Proof.
  intros Hrec. induction entries as [|name rest IH]; cbn [copy_entries].
  - repeat keeps_step.
  - destruct (pseudo_entry name); [exact IH|].
    keeps_step; [keeps_step|].
    keeps_step; [destruct a; [apply Hrec|apply keeps_copy_file]|].
    destruct (_ =? SUCCESS)%Z; [exact IH|repeat keeps_step].
Qed.

(** A recursive copy removes nothing, whatever fails: every name of the
    file system is still there afterwards. *)
Lemma keeps_copy_directory fuel : forall src dest, steps keeps (copy_directory fuel src dest).
Proof.
  induction fuel as [|fuel IH]; intros src dest; cbn [copy_directory].
  - keeps_step.
  - keeps_step; [apply keeps_create_directory|].
    destruct (_ =? SUCCESS)%Z; [|keeps_step].
    keeps_step; [keeps_step|].
    destruct a0 as [e|entries]; [keeps_step|].
    apply keeps_copy_entries, IH.
Qed.

(** Copying [s] into the directory [mnt], which exists and holds a file
    already: the copy succeeds, what was in [mnt] stays, and the files of
    [s] are added next to it. *)
Lemma copy_directory_merges :
  exists w',
    copy_directory 5 "s" "mnt" merge_world = Some (SUCCESS, w')
    /\ w_fs w' !! ["mnt"%string; "old"%string] = Some (File 420 [x63])
    /\ w_fs w' !! ["mnt"%string; "f"%string] = Some (File 420 [x61])
    /\ w_fs w' !! ["mnt"%string; "t"%string; "g"%string] = Some (File 420 [x62])
    /\ keeps (w_fs merge_world) (w_fs w').
Proof.
  destruct (copy_directory 5 "s" "mnt" merge_world) as [[r w']|] eqn:E;
    [|vm_compute in E; discriminate].
  pose proof (keeps_copy_directory _ _ _ _ _ _ E) as K.
  exists w'. vm_compute in E. injection E as <- <-.
  split; [reflexivity|]. split; [reflexivity|]. split; [reflexivity|].
  split; [reflexivity|exact K].
Qed.

(** ** The parent of a path and the pattern lines *)

Lemma after_last_slash_None s :
  after_last_slash s = None <-> has_slash s = false.
Proof.
  unfold has_slash. induction s as [|c s IH]; cbn [after_last_slash list_ascii_of_string existsb].
  - tauto.
  - destruct (after_last_slash s) as [t|].
    + split; [discriminate|]. intros H. apply orb_false_iff in H as [_ H].
      apply IH in H. discriminate.
    + rewrite (Ascii.eqb_sym "/" c). destruct (Ascii.eqb c "/"); cbn [orb].
      * split; discriminate.
      * exact IH.
Qed.

Lemma after_last_slash_Some s t :
  after_last_slash s = Some t ->
  exists a, s = a +:+ String "/" t /\ has_slash t = false.
Proof.
  revert t. induction s as [|c s IH]; intros t; cbn [after_last_slash]; [discriminate|].
  destruct (after_last_slash s) as [t'|] eqn:E.
  - intros [= <-]. destruct (IH _ eq_refl) as (a & -> & Hn).
    exists (String c a). split; [reflexivity|exact Hn].
  - destruct (Ascii.eqb_spec c "/") as [->|]; [|discriminate].
    intros [= <-]. exists EmptyString. split; [reflexivity|].
    apply after_last_slash_None, E.
Qed.

Lemma append_empty_r a : a +:+ EmptyString = a.
Proof. induction a as [|x a IH]; [reflexivity|]. rewrite append_cons, IH. reflexivity. Qed.

Lemma append_assoc a b c : (a +:+ b) +:+ c = a +:+ (b +:+ c).
Proof. induction a as [|x a IH]; [reflexivity|]. rewrite !append_cons, IH. reflexivity. Qed.

Lemma substring_length_le s n :
  (n <= String.length s)%nat -> String.length (String.substring 0 n s) = n.
Proof.
  revert n. induction s as [|c s IH]; intros [|n] H; cbn in *; try reflexivity; try lia.
  rewrite IH by lia. reflexivity.
Qed.

Lemma substring_append a b : String.substring 0 (String.length a) (a +:+ b) = a.
Proof.
  induction a as [|x a IH]; [destruct b; reflexivity|].
  rewrite append_cons. cbn [String.length String.substring]. rewrite IH. reflexivity.
Qed.

Lemma ends_with_slash_split s :
  ends_with_slash s = true ->
  s = String.substring 0 (String.length s - 1) s +:+ String "/" EmptyString.
Proof.
  unfold ends_with_slash. destruct (last_char s) as [c|] eqn:E; [|discriminate].
  destruct (Ascii.eqb_spec c "/") as [->|]; [|discriminate].
  intros _. apply last_char_split, E.
Qed.

Lemma slashes_snoc k : String "/" (slashes k) = slashes k +:+ String "/" EmptyString.
Proof. induction k as [|k IH]; [reflexivity|]. cbn [slashes]. rewrite append_cons, <- IH. reflexivity. Qed.

(** What the loop leaves: the text without the slashes at its end, one
    character at least when there was one. *)
Lemma trim_slashes_spec n : forall s,
  (String.length s <= n)%nat ->
  exists k, s = trim_slashes n s +:+ slashes k
    /\ ((String.length (trim_slashes n s) <= 1)%nat \/ ends_with_slash (trim_slashes n s) = false)
    /\ (s <> EmptyString -> trim_slashes n s <> EmptyString).
Proof.
  induction n as [|n IH]; intros s Hn.
  - destruct s; [|cbn in Hn; lia]. exists 0%nat. cbn. auto.
  - cbn [trim_slashes].
    destruct (Nat.ltb_spec 1 (String.length s)) as [Hlen|Hlen]; cbn [andb].
    + destruct (ends_with_slash s) eqn:Es.
      * pose proof (ends_with_slash_split _ Es) as Hs.
        set (s' := String.substring 0 (String.length s - 1) s) in *.
        assert (String.length s' = String.length s - 1)%nat as Hl'
          by (apply substring_length_le; lia).
        destruct (IH s') as (k & E & Hend & Hne); [lia|].
        exists (S k). split; [|split].
        -- rewrite Hs at 1. rewrite E at 1. rewrite append_assoc.
           rewrite <- slashes_snoc. reflexivity.
        -- exact Hend.
        -- intros _. apply Hne. intros E0. rewrite E0 in Hl'. cbn in Hl'. lia.
      * exists 0%nat. cbn [slashes]. rewrite append_empty_r. auto.
    + exists 0%nat. cbn [slashes]. rewrite append_empty_r. auto.
Qed.

Lemma snprintf_prefix size s : exists rest, s = snprintf size s +:+ rest.
Proof.
  unfold snprintf. generalize (size - 1)%nat as n. induction s as [|c s IH]; intros [|n].
  - exists EmptyString. reflexivity.
  - exists EmptyString. reflexivity.
  - exists (String c s). reflexivity.
  - destruct (IH n) as [rest E]. exists rest.
    change (String.substring 0 (S n) (String c s)) with (String c (String.substring 0 n s)).
    rewrite append_cons, <- E. reflexivity.
Qed.

Lemma snprintf_length size s : (String.length (snprintf size s) <= String.length s)%nat.
Proof.
  destruct (snprintf_prefix size s) as [rest E].
  rewrite E at 2. rewrite append_length. lia.
Qed.

Lemma ends_with_slash_snoc x : ends_with_slash (x +:+ String "/" EmptyString) = true.
Proof.
  unfold ends_with_slash, last_char. rewrite append_length. cbn [String.length].
  replace (String.length x + 1 - 1)%nat with (String.length x) by lia.
  assert (String.get (String.length x) (x +:+ String "/" EmptyString) = Some "/"%char) as ->.
  { induction x as [|y x IH]; [reflexivity|]. rewrite append_cons. exact IH. }
  reflexivity.
Qed.

(** The three ways of [get_parent_directory]: no slash is left after the
    slashes at the end are cut, the only slash left is the first
    character, or the text is cut at the last slash. *)
Lemma get_parent_directory_cases path size :
  (2 <= size)%nat ->
  exists parent k name,
    get_parent_directory path size = Some parent
    /\ final_component (snprintf size path) = name
    /\ has_slash name = false
    /\ ((parent = "."%string /\ snprintf size path = name +:+ slashes k
         /\ (snprintf size path <> EmptyString -> name <> EmptyString))
        \/ (parent = "/"%string /\ snprintf size path = String "/" name +:+ slashes k)
        \/ (parent <> EmptyString /\ name <> EmptyString
            /\ snprintf size path = parent +:+ String "/" name +:+ slashes k)).
Proof.
  intros Hsize. unfold get_parent_directory, final_component, basename.
  destruct (Nat.ltb_spec size 2) as [|_]; [lia|].
  set (s := snprintf size path).
  destruct (trim_slashes_spec (String.length s) s (Nat.le_refl _)) as (k & E & Hend & Hne).
  set (t := trim_slashes (String.length s) s) in *.
  destruct (after_last_slash t) as [tail|] eqn:Ea.
  - destruct (after_last_slash_Some _ _ Ea) as (a & Et & Hns).
    assert (String.length t - S (String.length tail) = String.length a)%nat as Hpos.
    { rewrite Et, append_length. cbn [String.length]. lia. }
    rewrite Hpos. destruct a as [|c a].
    + cbn [String.length Nat.eqb]. exists "/"%string, k, tail. split.
      { rewrite Et, append_nil.
        change (String.substring 0 1 (String "/" tail))
          with (String "/" (String.substring 0 0 tail)).
        destruct tail; reflexivity. }
      split; [reflexivity|]. split; [exact Hns|].
      right. left. split; [reflexivity|]. rewrite E, Et. reflexivity.
    + cbn [String.length Nat.eqb]. exists (String c a), k, tail. split.
      { f_equal. rewrite Et. apply (substring_append (String c a)). }
      split; [reflexivity|]. split; [exact Hns|].
      right. right. split; [discriminate|]. split.
      * intros ->. rewrite Et in Hend. destruct Hend as [Hl|He].
        -- rewrite append_length in Hl. cbn in Hl. lia.
        -- rewrite ends_with_slash_snoc in He. discriminate.
      * rewrite E, Et. rewrite append_assoc. reflexivity.
  - exists "."%string, k, t. split; [reflexivity|]. split; [reflexivity|].
    split; [apply after_last_slash_None, Ea|].
    left. split; [reflexivity|]. split; [exact E|exact Hne].
Qed.

Lemma starts_with_slash_snprintf size s :
  (2 <= size)%nat -> starts_with_slash (snprintf size s) = starts_with_slash s.
Proof.
  intros H. unfold snprintf. destruct (size - 1)%nat as [|n] eqn:E; [lia|].
  destruct s; reflexivity.
Qed.

Lemma starts_with_slash_app a b :
  a <> EmptyString -> starts_with_slash (a +:+ b) = starts_with_slash a.
Proof. destruct a; [congruence|reflexivity]. Qed.

Lemma has_slash_starts s : has_slash s = false -> starts_with_slash s = false.
Proof.
  destruct s as [|c s]; [reflexivity|]. unfold has_slash.
  cbn [list_ascii_of_string existsb starts_with_slash].
  rewrite (Ascii.eqb_sym "/" c). destruct (Ascii.eqb c "/"); [discriminate|reflexivity].
Qed.

Lemma ascend_fixed n : forall p,
  get_parent_directory p MAX_PATH = Some p -> ascend n p = Some p.
Proof. induction n as [|n IH]; intros p H; cbn [ascend]; [reflexivity|]. rewrite H. apply IH, H. Qed.

Lemma get_parent_directory_root : get_parent_directory "/" MAX_PATH = Some "/"%string.
Proof. vm_compute. reflexivity. Qed.

Lemma get_parent_directory_dot : get_parent_directory "." MAX_PATH = Some "."%string.
Proof. vm_compute. reflexivity. Qed.

(** X1: Going up comes to rest.  [get_parent_directory], applied to its own
    result more times than the path has characters, ends at [/] when the
    path starts with a slash and at [.] when it does not, and the parent of
    that text is the text itself: the explorer, which goes up by this
    function, cannot leave these two. *)
Theorem ascend_comes_to_rest :
  forall (path : string) (n : nat),
    (String.length path < n)%nat ->
    exists top,
      ascend n path = Some top
      /\ top = (if starts_with_slash path then "/" else ".")%string
      /\ get_parent_directory top MAX_PATH = Some top.
Proof.
  intros path n. revert path.
  induction n as [|n IH]; intros path Hn; [lia|].
  cbn [ascend].
  destruct (get_parent_directory_cases path MAX_PATH) as (parent & k & name & -> & _ & Hns & Hc).
  { pose proof MAX_PATH_big. lia. }
  pose proof (starts_with_slash_snprintf MAX_PATH path ltac:(pose proof MAX_PATH_big; lia)) as Hst.
  destruct Hc as [(-> & E & Hne)|[(-> & E)|(Hp & Hnm & E)]].
  - exists "."%string. rewrite (ascend_fixed _ _ get_parent_directory_dot).
    split; [reflexivity|]. split; [|exact get_parent_directory_dot].
    rewrite <- Hst. destruct (snprintf MAX_PATH path) as [|c s] eqn:Es; [reflexivity|].
    rewrite E, starts_with_slash_app by (apply Hne; discriminate).
    rewrite (has_slash_starts _ Hns). reflexivity.
  - exists "/"%string. rewrite (ascend_fixed _ _ get_parent_directory_root).
    split; [reflexivity|]. split; [|exact get_parent_directory_root].
    rewrite <- Hst, E. reflexivity.
  - destruct (IH parent) as (top & Ha & Ht & Hfix).
    { pose proof (snprintf_length MAX_PATH path) as Hl. rewrite E in Hl.
      rewrite !append_length in Hl. cbn [String.length] in Hl. lia. }
    exists top. split; [exact Ha|]. split; [|exact Hfix].
    rewrite Ht, <- Hst, E. rewrite starts_with_slash_app by exact Hp. reflexivity.
Qed.

Lemma segments_no_slash s : forall cur,
  has_slash s = false -> segments cur s = [cur +:+ s].
Proof.
  induction s as [|c s IH]; intros cur H.
  - cbn [segments]. rewrite append_empty_r. reflexivity.
  - unfold has_slash in H. cbn [list_ascii_of_string existsb] in H.
    apply orb_false_iff in H as [Hc H]. rewrite Ascii.eqb_sym in Hc.
    cbn [segments]. rewrite Hc. rewrite IH by exact H.
    rewrite append_snoc. reflexivity.
Qed.

Lemma norm_no_slash s :
  has_slash s = false -> norm s = if proper_component s then [s] else [].
Proof.
  intros H. unfold norm. rewrite segments_no_slash by exact H.
  rewrite append_nil. reflexivity.
Qed.

Lemma norm_slashes k : norm (slashes k) = [].
Proof.
  induction k as [|k IH]; [reflexivity|].
  change (slashes (S k)) with (EmptyString +:+ String "/" (slashes k)).
  rewrite norm_app, IH. reflexivity.
Qed.

Lemma norm_trailing a k : norm (a +:+ slashes k) = norm a.
Proof.
  destruct k as [|k]; [cbn [slashes]; rewrite append_empty_r; reflexivity|].
  cbn [slashes]. rewrite norm_app, norm_slashes, app_nil_r. reflexivity.
Qed.

(** X2: The parent that [get_parent_directory] writes names the directory
    that holds the path.  For a buffer of at least two bytes and a path
    whose last component (after the cut to the buffer, the slashes at the
    end aside) is neither [.] nor [..], the components of the text written
    are those of the path as cut, without the last one. *)
Theorem get_parent_directory_is_parent :
  forall (path : string) (size : nat),
    (2 <= size)%nat ->
    final_component (snprintf size path) <> "."%string ->
    final_component (snprintf size path) <> ".."%string ->
    exists dir,
      get_parent_directory path size = Some dir
      /\ norm dir = parent (norm (snprintf size path)).
Proof.
  intros path size Hsize Hdot _.
  destruct (get_parent_directory_cases path size Hsize)
    as (dir & k & name & Hgp & Hfc & Hns & Hc).
  rewrite Hfc in Hdot. exists dir. split; [exact Hgp|]. unfold parent.
  assert (norm name = [] \/ norm name = [name]) as Hname.
  { rewrite (norm_no_slash _ Hns). destruct (proper_component name); auto. }
  destruct Hc as [(-> & E & _)|[(-> & E)|(Hp & Hnm & E)]]; rewrite E.
  - rewrite norm_trailing. destruct Hname as [-> | ->]; reflexivity.
  - change (String "/" name +:+ slashes k) with (EmptyString +:+ String "/" (name +:+ slashes k)).
    rewrite norm_app, norm_trailing. destruct Hname as [-> | ->]; reflexivity.
  - rewrite <- append_assoc, norm_trailing, norm_app.
    rewrite (norm_no_slash _ Hns). unfold proper_component.
    destruct (String.eqb_spec name ""); [congruence|].
    destruct (String.eqb_spec name "."); [congruence|].
    cbn [negb andb]. rewrite removelast_last. reflexivity.
Qed.

Lemma get_parent_directory_is_parent_witness :
  exists dir,
    get_parent_directory "/srv//data/in/" 64 = Some dir
    /\ norm dir = parent (norm (snprintf 64 "/srv//data/in/")).
Proof.
  apply (get_parent_directory_is_parent "/srv//data/in/" 64).
  - lia.
  - vm_compute. discriminate.
  - vm_compute. discriminate.
Defined.

Lemma ascend_comes_to_rest_witness :
  exists top,
    ascend 9 "a/b//c/" = Some top
    /\ top = (if starts_with_slash "a/b//c/" then "/" else ".")%string
    /\ get_parent_directory top MAX_PATH = Some top.
Proof.
  apply (ascend_comes_to_rest "a/b//c/" 9). cbn. lia.
Defined.

Lemma substring_length_bound s n : (String.length (String.substring 0 n s) <= n)%nat.
Proof.
  revert n. induction s as [|c s IH]; intros [|n]; cbn; try lia.
  specialize (IH n). lia.
Qed.

(** X3: Whatever the path and the size of the buffer, the text that
    [get_parent_directory] leaves is not empty and fits the buffer with its
    terminator; only for a buffer of fewer than two bytes, which the
    function overruns, there is no text. *)
Theorem get_parent_directory_fits :
  forall (path : string) (size : nat),
    match get_parent_directory path size with
    | Some dir => (String.length dir < size)%nat /\ dir <> EmptyString
    | None => (size < 2)%nat
    end.
Proof.
  intros path size. destruct (Nat.lt_ge_cases size 2) as [Hs|Hs].
  - unfold get_parent_directory. destruct (Nat.ltb_spec size 2); [assumption|lia].
  - destruct (get_parent_directory_cases path size Hs)
      as (dir & k & name & -> & _ & _ & Hc).
    destruct Hc as [(-> & _)|[(-> & _)|(Hp & _ & E)]].
    + cbn. split; [lia|discriminate].
    + cbn. split; [lia|discriminate].
    + split; [|exact Hp].
      pose proof (substring_length_bound path (size - 1)) as Hb.
      change (String.substring 0 (size - 1) path) with (snprintf size path) in Hb.
      rewrite E, !append_length in Hb. cbn [String.length] in Hb. lia.
Qed.

Lemma fields_no_comma s : has_comma s = false -> fields s = [s].
Proof.
  induction s as [|c s IH]; [reflexivity|].
  unfold has_comma. cbn [list_ascii_of_string existsb]. intros H.
  apply orb_false_iff in H as [Hc H]. rewrite Ascii.eqb_sym in Hc.
  cbn [fields]. rewrite Hc, IH by exact H. reflexivity.
Qed.

Lemma fields_app a b :
  has_comma a = false -> fields (a +:+ String "," b) = a :: fields b.
Proof.
  induction a as [|c a IH]; intros H.
  - reflexivity.
  - unfold has_comma in H. cbn [list_ascii_of_string existsb] in H.
    apply orb_false_iff in H as [Hc H]. rewrite Ascii.eqb_sym in Hc.
    rewrite append_cons. cbn [fields]. rewrite Hc, IH by exact H. reflexivity.
Qed.

Lemma skip_spaces_id p : starts_with_space p = false -> skip_spaces p = p.
Proof. destruct p as [|c p]; [reflexivity|]. cbn. intros ->. reflexivity. Qed.

Lemma strtok_all_comma_separated l :
  Forall (fun p => writable p = true) l -> strtok_all (comma_separated l) = l.
Proof.
  unfold strtok_all. induction l as [|p l IH]; intros H; [reflexivity|].
  apply Forall_cons in H as [Hp Hl].
  unfold writable in Hp. apply andb_true_iff in Hp as [Hp _].
  apply andb_true_iff in Hp as [Hne Hnc]. apply negb_true_iff in Hnc.
  destruct l as [|q l].
  - cbn [comma_separated]. rewrite fields_no_comma by exact Hnc.
    cbn [List.filter]. rewrite Hne. reflexivity.
  - change (comma_separated (p :: q :: l)) with (p +:+ String "," (comma_separated (q :: l))).
    rewrite fields_app by exact Hnc. cbn [List.filter]. rewrite Hne.
    rewrite IH by exact Hl. reflexivity.
Qed.

(** X4: A line written from patterns reads back as those patterns.  For a
    list of one to [MAX_PATTERNS] patterns that are not empty, have no comma
    and do not start with a space, the parsing of the pattern line in
    [handle_filtered_copy] gives, from the patterns joined by commas,
    exactly the list. *)
Theorem parse_patterns_comma_separated :
  forall (l : list string),
    l <> [] ->
    (length l <= MAX_PATTERNS)%nat ->
    Forall (fun p => writable p = true) l ->
    parse_patterns (comma_separated l) = Some l.
Proof.
  intros l Hne Hlen Hw. unfold parse_patterns.
  rewrite strtok_all_comma_separated by exact Hw.
  rewrite take_ge by exact Hlen.
  assert (skip_spaces <$> l = l) as ->.
  { clear Hne Hlen. induction Hw as [|p l Hp _ IH]; [reflexivity|].
    cbn [fmap list_fmap]. rewrite skip_spaces_id.
    - f_equal. exact IH.
    - unfold writable in Hp. apply andb_true_iff in Hp as [_ Hp].
      apply negb_true_iff in Hp. exact Hp. }
  destruct l; [congruence|reflexivity].
Qed.

Lemma fields_have_no_comma s : Forall (fun f => has_comma f = false) (fields s).
Proof.
  induction s as [|c s IH]; cbn [fields].
  - repeat constructor.
  - destruct (Ascii.eqb_spec c ",") as [->|Hc].
    + constructor; [reflexivity|exact IH].
    + apply Ascii.eqb_neq in Hc. rewrite Ascii.eqb_sym in Hc.
      destruct (fields s) as [|f fs].
      * constructor; [|constructor].
        unfold has_comma. cbn [list_ascii_of_string existsb]. rewrite Hc. reflexivity.
      * apply Forall_cons in IH as [Hf Hfs]. constructor; [|exact Hfs].
        unfold has_comma in *. cbn [list_ascii_of_string existsb]. rewrite Hf, Hc.
        reflexivity.
Qed.

Lemma skip_spaces_no_space s : starts_with_space (skip_spaces s) = false.
Proof.
  induction s as [|c s IH]; [reflexivity|]. cbn [skip_spaces].
  destruct (Ascii.eqb c " ") eqn:E; [exact IH|]. cbn. exact E.
Qed.

Lemma skip_spaces_no_comma s : has_comma s = false -> has_comma (skip_spaces s) = false.
Proof.
  induction s as [|c s IH]; [auto|]. cbn [skip_spaces]. intros H.
  destruct (Ascii.eqb c " "); [|exact H]. apply IH.
  unfold has_comma in *. cbn [list_ascii_of_string existsb] in H.
  apply orb_false_iff in H as [_ H]. exact H.
Qed.

Lemma Forall_filter_keeps {A} (P : A -> Prop) (f : A -> bool) (l : list A) :
  Forall P l -> Forall P (List.filter f l).
Proof.
  induction 1 as [|x l Hx _ IH]; cbn [List.filter]; [constructor|].
  destruct (f x); [constructor; assumption|exact IH].
Qed.

(** X5: Whatever the line, the parsing of a pattern line in
    [handle_filtered_copy] hands on either no array (the NULL pointer), and
    then the line has no token at all, or between one and [MAX_PATTERNS]
    patterns, none of which contains a comma or starts with a space. *)
Theorem parse_patterns_wellformed :
  forall (line : string),
    match parse_patterns line with
    | Some patterns =>
        (0 < length patterns <= MAX_PATTERNS)%nat
        /\ Forall (fun p => has_comma p = false /\ starts_with_space p = false) patterns
    | None => strtok_all line = []
    end.
Proof.
  intros line. unfold parse_patterns.
  set (tokens := take MAX_PATTERNS (strtok_all line)).
  destruct (Nat.eqb_spec (length (skip_spaces <$> tokens)) 0) as [Hz|Hnz].
  - rewrite length_fmap in Hz. unfold tokens in Hz.
    destruct (strtok_all line) as [|t ts]; [reflexivity|]. cbn in Hz. lia.
  - split.
    + rewrite length_fmap in *. unfold tokens in *. rewrite length_take in *. lia.
    + apply Forall_fmap. unfold tokens.
      apply Forall_take. unfold strtok_all. apply Forall_filter_keeps.
      eapply Forall_impl; [apply fields_have_no_comma|].
      intros f Hf. cbn. split; [apply skip_spaces_no_comma, Hf|apply skip_spaces_no_space].
Qed.

Lemma skip_spaces_spaces n : skip_spaces (spaces n) = EmptyString.
Proof. induction n as [|n IH]; [reflexivity|]. exact IH. Qed.

Lemma spaces_no_comma n : has_comma (spaces n) = false.
Proof. induction n as [|n IH]; [reflexivity|]. exact IH. Qed.

Lemma match_pattern_empty name : name <> EmptyString -> match_pattern name "" = false.
Proof. destruct name; [congruence|reflexivity]. Qed.

(** X6: A line of blanks is not an empty line.  A pattern line of one or more
    spaces parses to the one pattern that is empty, and as an include list
    it admits no file name that is not empty, whatever the exclude list; the
    empty line parses to no list, which admits every name when there is no
    exclude list either. *)
Theorem blank_include_line_admits_nothing :
  forall (n : nat) (name : string) (exclude_patterns : option (list string)),
    (0 < n)%nat ->
    name <> EmptyString ->
    parse_patterns (spaces n) = Some [EmptyString]
    /\ should_copy_file name (parse_patterns (spaces n)) exclude_patterns = false
    /\ should_copy_file name (parse_patterns EmptyString) None = true.
Proof.
  intros n name excl Hn Hname.
  assert (parse_patterns (spaces n) = Some [EmptyString]) as E.
  { unfold parse_patterns, strtok_all. rewrite fields_no_comma by apply spaces_no_comma.
    destruct n as [|n]; [lia|]. cbn [List.filter nonempty spaces String.eqb negb].
    change (String.eqb (String " " (spaces n)) "") with false. cbn [negb take MAX_PATTERNS].
    unfold MAX_PATTERNS. cbn [take fmap list_fmap].
    change (skip_spaces (String " " (spaces n))) with (skip_spaces (spaces n)).
    rewrite skip_spaces_spaces. reflexivity. }
  split; [exact E|]. split; [|reflexivity].
  rewrite E. unfold should_copy_file.
  destruct (match excl with Some e => any_pattern_matches name e | None => false end);
    [reflexivity|].
  cbn [any_pattern_matches]. rewrite match_pattern_empty by exact Hname. reflexivity.
Qed.

Lemma blank_include_line_admits_nothing_witness :
  parse_patterns (spaces 2) = Some [EmptyString]
  /\ should_copy_file "notes.txt" (parse_patterns (spaces 2)) None = false
  /\ should_copy_file "notes.txt" (parse_patterns EmptyString) None = true.
Proof.
  apply (blank_include_line_admits_nothing 2 "notes.txt" None).
  - lia.
  - discriminate.
Defined.

Lemma parse_patterns_comma_separated_witness :
  parse_patterns (comma_separated ["*.txt"; "*.pdf"; "notes ?"]%string)
  = Some ["*.txt"; "*.pdf"; "notes ?"]%string.
Proof.
  apply (parse_patterns_comma_separated ["*.txt"; "*.pdf"; "notes ?"]%string).
  - discriminate.
  - vm_compute. lia.
  - repeat constructor.
Defined.

(** ** The checksum *)

Lemma to_ulong_idem z : to_ulong (to_ulong z) = to_ulong z.
Proof. unfold to_ulong. apply Z.mod_mod. unfold ULONG_MAX. lia. Qed.

Lemma hash_byte_step cs a b x :
  hash_byte cs (to_ulong a, to_ulong b) x
  = (to_ulong (a * 33 + char_value cs x), to_ulong (b * 31 + char_value cs x)).
Proof.
  unfold hash_byte. cbn [fst snd]. unfold to_ulong.
  set (m := (ULONG_MAX + 1)%Z). assert (m <> 0)%Z as Hm by (unfold m, ULONG_MAX; lia).
  set (c := char_value cs x). rewrite Z.shiftl_mul_pow2 by lia.
  change (2 ^ 5)%Z with 32%Z. f_equal.
  - rewrite Zplus_mod_idemp_r, Zplus_mod_idemp_l.
    rewrite <- Z.add_assoc, Zplus_mod_idemp_l.
    replace (a mod m * 32 + (a mod m + c))%Z with (a mod m * 33 + c)%Z by ring.
    rewrite Zplus_mod, Zmult_mod_idemp_l, <- Zplus_mod. reflexivity.
  - rewrite Zplus_mod_idemp_r, Zplus_mod_idemp_l.
    rewrite Zplus_mod, Zmult_mod_idemp_l, <- Zplus_mod. reflexivity.
Qed.

Lemma hash_bytes_polynomial cs data : forall a b,
  fold_left (hash_byte cs) data (to_ulong a, to_ulong b)
  = (to_ulong (polynomial cs 33 a data), to_ulong (polynomial cs 31 b data)).
Proof.
  unfold polynomial. induction data as [|x data IH]; intros a b; [reflexivity|].
  cbn [fold_left]. rewrite hash_byte_step. apply IH.
Qed.

Lemma hash_chunks_spec cs k perm data : forall fuel off h w,
  fault_free w ->
  node_at (w_fs w) k = Some (File perm data) ->
  (length (drop off data) < fuel)%nat ->
  exists w',
    hash_chunks cs fuel (Fd k off) h w
      = Some (inr (fold_left (hash_byte cs) (drop off data) h), w')
    /\ w_fs w' = w_fs w /\ fault_free w'.
Proof.
  induction fuel as [|fuel IH]; intros off h w Hff Hn Hfuel; [lia|].
  cbn [hash_chunks]. unfold read.
  ff_step. rewrite (sem_read_File _ (Fd k off) _ _ _ Hn). cbn [fd_key fd_off].
  set (c := take BUFFER_SIZE (drop off data)).
  pose proof (chunk_split BUFFER_SIZE off data) as Hs. fold c in Hs.
  destruct (Nat.eqb_spec (length c) 0) as [Hz|Hnz].
  - cbn [ret]. rewrite (chunk_empty _ _ BUFFER_SIZE_pos Hz). cbn [fold_left].
    eexists. split; [reflexivity|]. split; [reflexivity|exact Hff].
  - match goal with
    | |- exists w', hash_chunks _ _ _ ?H ?W = _ /\ _ =>
        destruct (IH (off + length c)%nat H W) as (w' & Hrun & Hfs & Hff')
    end; auto.
    { unfold c in Hnz |- *. rewrite length_drop in *.
      rewrite length_take, length_drop in Hnz |- *. lia. }
    exists w'. split; [|split; [exact Hfs|exact Hff']].
    rewrite Hrun. clearbody c. rewrite Hs, fold_left_app. reflexivity.
Qed.

Lemma substring_0_0 s : String.substring 0 0 s = EmptyString.
Proof. destruct s; reflexivity. Qed.

Lemma hex_length w v : String.length (hex w v) = w.
Proof. induction w as [|w IH]; [reflexivity|]. cbn [hex String.length]. rewrite IH. reflexivity. Qed.

Lemma checksum_text_fits a b : snprintf 33 (hex 16 a +:+ hex 16 b) = hex 16 a +:+ hex 16 b.
Proof.
  unfold snprintf. apply substring_all. rewrite append_length, !hex_length. lia.
Qed.

(** The checksum of a regular file, when no call fails. *)
Lemma calculate_md5_file :
  forall (char_signed : bool) (fuel : nat) (filepath : string) (w : world)
         (k : key) (perm : Z) (data : list byte),
    fault_free w ->
    resolve (w_fs w) filepath = inr (k, File perm data) ->
    (length data < fuel)%nat ->
    exists w',
      calculate_md5 char_signed fuel filepath w
        = Some ((SUCCESS, Some (checksum_of char_signed data)), w')
      /\ w_fs w' = w_fs w.
Proof.
  intros cs fuel p w k perm data Hff R Hfuel.
  destruct (resolve_File _ _ _ _ _ R) as (_ & _ & Hne & L & _).
  unfold calculate_md5, open_rd.
  ff_step. rewrite (sem_open_rd_resolved _ _ _ _ R).
  match goal with
  | |- exists w', bind (hash_chunks _ _ _ ?H) _ ?W = _ /\ _ =>
      destruct (hash_chunks_spec cs k perm data fuel 0 H W) as (w1 & Hrun & Hfs & Hff1)
  end; auto.
  { cbn [w_fs record with_fs]. rewrite node_at_nonempty by assumption. exact L. }
  unfold bind at 1. rewrite Hrun. unfold close. ff_step. cbn [sem_close].
  rewrite drop_0.
  change (5381, 0)%Z with (to_ulong 5381, to_ulong 0).
  rewrite hash_bytes_polynomial. cbn [ret]. rewrite checksum_text_fits.
  eexists. split; [reflexivity|]. cbn [w_fs record with_fs]. exact Hfs.
Qed.

Lemma hash_chunks_reads_only cs fuel : forall f h w r w',
  hash_chunks cs fuel f h w = Some (r, w') -> w_fs w' = w_fs w.
Proof.
  induction fuel as [|fuel IH]; intros f h w r w' H; [discriminate|].
  cbn [hash_chunks] in H. apply bind_Some in H as (rd & w1 & Hr & H).
  apply read_inv in Hr as (Hfs & _ & _).
  destruct rd as [e|[chunk f']].
  - apply ret_Some in H as [_ <-]. exact Hfs.
  - destruct (Nat.eqb (length chunk) 0).
    + apply ret_Some in H as [_ <-]. exact Hfs.
    + apply IH in H. congruence.
Qed.

Lemma list_ascii_of_string_app a b :
  list_ascii_of_string (a +:+ b) = list_ascii_of_string a ++ list_ascii_of_string b.
Proof.
  induction a as [|x a IH]; [reflexivity|].
  rewrite append_cons. cbn [list_ascii_of_string]. rewrite IH. reflexivity.
Qed.

Lemma hex_digit_is_hex x : is_hex (hex_digit (x mod 16)) = true.
Proof.
  assert (0 <= x mod 16 < 16)%Z as H by (apply Z.mod_pos_bound; lia).
  unfold hex_digit. set (n := Z.to_nat (x mod 16)).
  assert (n < 16)%nat as Hn by (unfold n; lia). clearbody n.
  do 16 (destruct n as [|n]; [reflexivity|]). lia.
Qed.

Lemma hex_is_hex w v : forallb is_hex (list_ascii_of_string (hex w v)) = true.
Proof.
  induction w as [|w IH]; [reflexivity|].
  cbn [hex list_ascii_of_string forallb]. rewrite hex_digit_is_hex, IH. reflexivity.
Qed.

(** What [calculate_md5] hands back, when it hands something back. *)
Lemma calculate_md5_shape :
  forall (char_signed : bool) (fuel : nat) (filepath : string) (w w' : world)
         (code : Z) (text : option string),
    calculate_md5 char_signed fuel filepath w = Some ((code, text), w') ->
    w_fs w' = w_fs w
    /\ match text with
       | Some checksum =>
           code = SUCCESS
           /\ String.length checksum = 32%nat
           /\ forallb is_hex (list_ascii_of_string checksum) = true
       | None => code = ERROR_FILE_OPEN \/ code = ERROR_FILE_READ
       end.
Proof.
  intros cs fuel p w w' code text H. unfold calculate_md5 in H.
  apply bind_Some in H as (o & w1 & Ho & H).
  apply open_rd_inv in Ho as (Hfs1 & _ & _).
  destruct o as [e|f].
  - apply ret_Some in H as [[= <- <-] <-]. auto.
  - apply bind_Some in H as (l & w2 & Hl & H).
    apply hash_chunks_reads_only in Hl.
    apply bind_Some in H as (u & w3 & Hc & H).
    apply close_inv in Hc as (Hfs3 & _).
    split; [destruct l as [|[]]; apply ret_Some in H as [_ <-]; congruence|].
    destruct l as [e|[hash hash2]]; apply ret_Some in H as [H _].
    + injection H as <- <-. auto.
    + apply pair_equal_spec in H as [<- <-]. rewrite checksum_text_fits. split; [reflexivity|]. split.
      * rewrite append_length, !hex_length. reflexivity.
      * rewrite list_ascii_of_string_app, forallb_app, !hex_is_hex. reflexivity.
Qed.

(** The read loop comes to an end, whatever fails: every read that gives
    bytes moves the offset on. *)
Lemma hash_chunks_total cs : forall fuel f h w,
  (0 < fuel)%nat ->
  (forall perm data, node_at (w_fs w) (fd_key f) = Some (File perm data) ->
                     (length (drop (fd_off f) data) < fuel)%nat) ->
  exists r w', hash_chunks cs fuel f h w = Some (r, w').
Proof.
  induction fuel as [|fuel IH]; intros f h w Hpos Hlen; [lia|].
  cbn [hash_chunks].
  destruct (call_total (Read f BUFFER_SIZE) (fun fs _ => sem_read fs f BUFFER_SIZE) w)
    as (rd & w1 & Hr).
  fold (read f BUFFER_SIZE) in Hr. unfold bind. rewrite Hr.
  destruct (read_inv _ _ _ _ _ Hr) as (Hfs & _ & Hchunk).
  destruct rd as [e|[chunk f']]; [eexists _, _; reflexivity|].
  destruct (Hchunk chunk f' eq_refl) as (perm & data & Hn & Hc & ->).
  destruct (Nat.eqb_spec (length chunk) 0) as [Hz|Hnz]; [eexists _, _; reflexivity|].
  specialize (Hlen perm data Hn).
  assert (length chunk <= length (drop (fd_off f) data))%nat as Hle.
  { rewrite Hc, length_take. lia. }
  apply IH; [lia|]. cbn [fd_key fd_off]. rewrite Hfs. intros perm' data' Hn'.
  rewrite Hn in Hn'. injection Hn' as <- <-.
  rewrite length_drop in *. lia.
Qed.

(** X7: [calculate_md5] returns, and what it hands back is well formed,
    whatever fails.  With fuel above the size of the file, if the path
    names one, every run of [calculate_md5] has a result and leaves the
    file system as it is: it either writes a checksum and returns
    [SUCCESS], the checksum being 32 characters out of 0-9 and a-f, or
    writes none and returns [ERROR_FILE_OPEN] or [ERROR_FILE_READ]. *)
Theorem calculate_md5_result :
  forall (char_signed : bool) (fuel : nat) (filepath : string) (w : world),
    (0 < fuel)%nat ->
    (forall k perm data, resolve (w_fs w) filepath = inr (k, File perm data) ->
                         (length data < fuel)%nat) ->
    exists (code : Z) (text : option string) (w' : world),
      calculate_md5 char_signed fuel filepath w = Some ((code, text), w')
      /\ w_fs w' = w_fs w
      /\ match text with
         | Some checksum =>
             code = SUCCESS
             /\ String.length checksum = 32%nat
             /\ forallb is_hex (list_ascii_of_string checksum) = true
         | None => code = ERROR_FILE_OPEN \/ code = ERROR_FILE_READ
         end.
Proof.
  intros cs fuel p w Hpos Hlen.
  assert (exists r w', calculate_md5 cs fuel p w = Some (r, w')) as (r & w' & Hrun).
  { unfold calculate_md5.
    destruct (call_total (OpenRd p) (fun fs _ => sem_open_rd fs p) w) as (o & w1 & Ho).
    fold (open_rd p) in Ho. unfold bind at 1. rewrite Ho.
    destruct (open_rd_inv _ _ _ _ Ho) as (Hfs1 & _ & Hfd).
    destruct o as [e|f]; [eexists _, _; reflexivity|].
    destruct (Hfd f eq_refl) as (n & R & Hoff).
    destruct (hash_chunks_total cs fuel f (5381, 0)%Z w1 Hpos) as (l & w2 & Hl).
    { rewrite Hfs1, Hoff. intros perm data Hn. rewrite drop_0.
      destruct (resolve_inr _ _ _ _ R) as (_ & _ & Hn' & _).
      rewrite Hn in Hn'. injection Hn' as <-. eapply Hlen, R. }
    unfold bind at 1. rewrite Hl.
    destruct (call_total (Close f) (fun fs _ => sem_close fs f) w2) as (u & w3 & Hc).
    fold (close f) in Hc. unfold bind at 1. rewrite Hc.
    destruct l as [e|[hash hash2]]; eexists _, _; reflexivity. }
  destruct r as [code text]. exists code, text, w'. split; [exact Hrun|].
  exact (calculate_md5_shape cs fuel p w w' code text Hrun).
Qed.

Lemma calculate_md5_result_witness :
  exists (code : Z) (text : option string) (w' : world),
    calculate_md5 true 3 "a.txt" read_refused_world = Some ((code, text), w')
    /\ w_fs w' = w_fs read_refused_world
    /\ match text with
       | Some checksum =>
           code = SUCCESS
           /\ String.length checksum = 32%nat
           /\ forallb is_hex (list_ascii_of_string checksum) = true
       | None => code = ERROR_FILE_OPEN \/ code = ERROR_FILE_READ
       end.
Proof.
  apply (calculate_md5_result true 3 "a.txt" read_refused_world).
  - lia.
  - intros k perm data. vm_compute. intros [= <- <- <-]. lia.
Defined.

(** X8: The checksum is that of the content.  When no call fails for an
    outside reason and the path names a regular file of fewer bytes than the
    fuel, [calculate_md5] returns [SUCCESS] with the polynomial of the bytes
    in 33 from 5381 and the polynomial in 31 from 0, both reduced to 64
    bits, as 16 hexadecimal digits each; [verify_checksum] returns [SUCCESS]
    when the expected text is this checksum and [ERROR_FILES_DIFFER] for
    every other text; neither changes the file system. *)
Theorem checksum_of_content :
  forall (char_signed : bool) (fuel : nat) (filepath expected_checksum : string)
         (w : world) (k : key) (perm : Z) (data : list byte),
    fault_free w ->
    resolve (w_fs w) filepath = inr (k, File perm data) ->
    (length data < fuel)%nat ->
    (exists w',
       calculate_md5 char_signed fuel filepath w
         = Some ((SUCCESS, Some (checksum_of char_signed data)), w')
       /\ w_fs w' = w_fs w)
    /\ (exists w',
          verify_checksum char_signed fuel filepath expected_checksum w
            = Some (if String.eqb (checksum_of char_signed data) expected_checksum
                    then SUCCESS else ERROR_FILES_DIFFER, w')
          /\ w_fs w' = w_fs w).
Proof.
  intros cs fuel p expected w k perm data Hff R Hfuel.
  destruct (calculate_md5_file cs fuel p w k perm data Hff R Hfuel) as (w' & Hrun & Hfs).
  split; [exists w'; split; assumption|].
  exists w'. split; [|exact Hfs].
  unfold verify_checksum, bind. rewrite Hrun. cbn [Z.eqb SUCCESS negb].
  destruct (String.eqb (checksum_of cs data) expected); reflexivity.
Qed.

Lemma checksum_of_content_witness :
  (exists w',
     calculate_md5 true 3 "a.txt" example_world
       = Some ((SUCCESS, Some (checksum_of true [x68; x69])), w')
     /\ w_fs w' = w_fs example_world)
  /\ (exists w',
        verify_checksum true 3 "a.txt" "00000000005978160000000000000d01" example_world
          = Some (if String.eqb (checksum_of true [x68; x69]) "00000000005978160000000000000d01"
                  then SUCCESS else ERROR_FILES_DIFFER, w')
        /\ w_fs w' = w_fs example_world).
Proof.
  apply (checksum_of_content true 3 "a.txt" "00000000005978160000000000000d01"
           example_world ["a.txt"%string] 384 [x68; x69]).
  - intros t c. reflexivity.
  - vm_compute. reflexivity.
  - cbn. lia.
Defined.

(** X9: Files that [compare_files] finds identical have one checksum: after a
    comparison that returned [SUCCESS], [calculate_md5] returns [SUCCESS]
    with the same checksum for the two paths in every world with that file
    system in which no call fails for an outside reason, given fuel above
    the size of the files. *)
Theorem compared_files_same_checksum :
  forall (char_signed : bool) (fuel : nat) (file1 file2 : string) (w w' : world),
    compare_files fuel file1 file2 w = Some (SUCCESS, w') ->
    exists (size : nat) (checksum : string),
      forall (fuel2 : nat) (w2 : world),
        (size < fuel2)%nat -> fault_free w2 -> w_fs w2 = w_fs w ->
        (exists w3, calculate_md5 char_signed fuel2 file1 w2 = Some ((SUCCESS, Some checksum), w3))
        /\ (exists w3, calculate_md5 char_signed fuel2 file2 w2 = Some ((SUCCESS, Some checksum), w3)).
Proof.
  intros cs fuel f1 f2 w w' H.
  destruct (compare_files_sound _ _ _ _ _ H) as (k1 & k2 & p1 & p2 & data & R1 & R2).
  exists (length data), (checksum_of cs data). intros fuel2 w2 Hfuel Hff E.
  rewrite <- E in R1, R2. split.
  - destruct (calculate_md5_file cs fuel2 f1 w2 k1 p1 data Hff R1 Hfuel) as (w3 & Hrun & _).
    exists w3. exact Hrun.
  - destruct (calculate_md5_file cs fuel2 f2 w2 k2 p2 data Hff R2 Hfuel) as (w3 & Hrun & _).
    exists w3. exact Hrun.
Qed.

Lemma compared_files_same_checksum_witness :
  exists (size : nat) (checksum : string),
    forall (fuel2 : nat) (w2 : world),
      (size < fuel2)%nat -> fault_free w2 -> w_fs w2 = w_fs twin_world ->
      (exists w3, calculate_md5 true fuel2 "a.txt" w2 = Some ((SUCCESS, Some checksum), w3))
      /\ (exists w3, calculate_md5 true fuel2 "b.txt" w2 = Some ((SUCCESS, Some checksum), w3)).
Proof.
  eapply (compared_files_same_checksum true 3 "a.txt" "b.txt" twin_world).
  vm_compute. reflexivity.
Defined.

Lemma char_value_seven_bit b :
  (Byte.to_N b < 128)%N -> char_value true b = char_value false b.
Proof.
  intros H. unfold char_value. cbn [andb].
  destruct (Z.leb_spec 128 (Z.of_N (Byte.to_N b))); [lia|reflexivity].
Qed.

Lemma hash_bytes_seven_bit chunk : forall h,
  Forall (fun b => (Byte.to_N b < 128)%N) chunk ->
  fold_left (hash_byte true) chunk h = fold_left (hash_byte false) chunk h.
Proof.
  induction chunk as [|b chunk IH]; intros h H; [reflexivity|].
  apply Forall_cons in H as [Hb H]. cbn [fold_left].
  unfold hash_byte at 2 4. rewrite (char_value_seven_bit b Hb). apply IH, H.
Qed.

Lemma hash_chunks_seven_bit perm data : forall fuel f h w,
  node_at (w_fs w) (fd_key f) = Some (File perm data) ->
  Forall (fun b => (Byte.to_N b < 128)%N) data ->
  hash_chunks true fuel f h w = hash_chunks false fuel f h w.
Proof.
  induction fuel as [|fuel IH]; intros f h w Hn Hdata; [reflexivity|].
  cbn [hash_chunks]. unfold bind.
  destruct (read f BUFFER_SIZE w) as [[rd w1]|] eqn:Hr; [|reflexivity].
  destruct (read_inv _ _ _ _ _ Hr) as (Hfs & _ & Hchunk).
  destruct rd as [e|[chunk f']]; [reflexivity|].
  destruct (Hchunk chunk f' eq_refl) as (perm' & data' & Hn' & Hc & ->).
  rewrite Hn in Hn'. injection Hn' as <- <-.
  destruct (Nat.eqb (length chunk) 0); [reflexivity|].
  rewrite (hash_bytes_seven_bit chunk).
  - apply IH; [cbn [fd_key]; rewrite Hfs; exact Hn|exact Hdata].
  - rewrite Hc. apply Forall_take, Forall_drop, Hdata.
Qed.

(** X10: On a file whose bytes are all below 128 the checksum does not
    depend on whether [char] is signed: whatever fails, [calculate_md5]
    and [verify_checksum] make the same calls and hand back the same code
    and the same checksum with a signed and with an unsigned [char]. *)
Theorem calculate_md5_seven_bit :
  forall (fuel : nat) (filepath expected_checksum : string) (w : world)
         (k : key) (perm : Z) (data : list byte),
    resolve (w_fs w) filepath = inr (k, File perm data) ->
    Forall (fun b => (Byte.to_N b < 128)%N) data ->
    calculate_md5 true fuel filepath w = calculate_md5 false fuel filepath w
    /\ verify_checksum true fuel filepath expected_checksum w
       = verify_checksum false fuel filepath expected_checksum w.
Proof.
  intros fuel p expected w k perm data R Hdata.
  assert (calculate_md5 true fuel p w = calculate_md5 false fuel p w) as E.
  { unfold calculate_md5, bind.
    destruct (open_rd p w) as [[o w1]|] eqn:Ho; [|reflexivity].
    destruct (open_rd_inv _ _ _ _ Ho) as (Hfs1 & _ & Hfd).
    destruct o as [e|f]; [reflexivity|].
    destruct (Hfd f eq_refl) as (n & R' & _).
    rewrite R in R'. injection R' as -> <-.
    destruct (resolve_File _ _ _ _ _ R) as (_ & _ & Hne & L & _).
    rewrite (hash_chunks_seven_bit perm data fuel f (5381, 0)%Z w1); [reflexivity| |exact Hdata].
    rewrite Hfs1, node_at_nonempty by exact Hne. exact L. }
  split; [exact E|]. unfold verify_checksum, bind. rewrite E. reflexivity.
Qed.

Lemma calculate_md5_seven_bit_witness :
  calculate_md5 true 3 "a.txt" example_world = calculate_md5 false 3 "a.txt" example_world
  /\ verify_checksum true 3 "a.txt" "" example_world
     = verify_checksum false 3 "a.txt" "" example_world.
Proof.
  apply (calculate_md5_seven_bit 3 "a.txt" "" example_world ["a.txt"%string] 384 [x68; x69]).
  - vm_compute. reflexivity.
  - repeat constructor.
Defined.

(** A byte above 127 is read as a negative number where [char] is signed:
    the checksums differ. *)
Lemma checksum_of_high_byte : checksum_of true [xff] <> checksum_of false [xff].
Proof. vm_compute. discriminate. Qed.

Lemma sem_read_Dir fs f count perm :
  node_at fs (fd_key f) = Some (Dir perm) -> sem_read fs f count = inl EISDIR.
Proof. intros H. unfold sem_read. rewrite H. reflexivity. Qed.

(** X11: What is not a regular file has no checksum.  When no call fails for
    an outside reason: for a path that does not resolve, [calculate_md5]
    returns [ERROR_FILE_OPEN] after the one [open] that fails; for a
    directory it returns [ERROR_FILE_READ], since the [open] succeeds and
    the first [read] fails with EISDIR, after which the descriptor is
    closed; [verify_checksum] returns the same codes; the file system is
    unchanged. *)
Theorem calculate_md5_errors :
  forall (char_signed : bool) (fuel : nat) (filepath expected_checksum : string) (w : world),
    fault_free w ->
    match resolve (w_fs w) filepath with
    | inl e =>
        calculate_md5 char_signed fuel filepath w
          = Some ((ERROR_FILE_OPEN, None), record (Called (OpenRd filepath) (Some e)) w)
        /\ verify_checksum char_signed fuel filepath expected_checksum w
          = Some (ERROR_FILE_OPEN, record (Called (OpenRd filepath) (Some e)) w)
    | inr (k, Dir _) =>
        exists w',
          calculate_md5 char_signed (S fuel) filepath w = Some ((ERROR_FILE_READ, None), w')
          /\ verify_checksum char_signed (S fuel) filepath expected_checksum w
               = Some (ERROR_FILE_READ, w')
          /\ w_fs w' = w_fs w
          /\ w_trace w' =
               [ Called (Close (Fd k 0)) None;
                 Called (Read (Fd k 0) BUFFER_SIZE) (Some EISDIR);
                 Called (OpenRd filepath) None ] ++ w_trace w
    | inr (_, File _ _) => True
    end.
Proof.
  intros cs fuel p expected w Hff.
  destruct (resolve (w_fs w) p) as [e|[k [perm data|perm]]] eqn:R; [| exact I |].
  - assert (calculate_md5 cs fuel p w
            = Some ((ERROR_FILE_OPEN, None), record (Called (OpenRd p) (Some e)) w)) as Hrun.
    { unfold calculate_md5, open_rd. ff_step. unfold sem_open_rd. rewrite R. reflexivity. }
    split; [exact Hrun|]. unfold verify_checksum, bind. rewrite Hrun. reflexivity.
  - destruct (resolve_inr _ _ _ _ R) as (_ & _ & Hn & _).
    assert (exists w',
              calculate_md5 cs (S fuel) p w = Some ((ERROR_FILE_READ, None), w')
              /\ w_fs w' = w_fs w
              /\ w_trace w' =
                   [ Called (Close (Fd k 0)) None;
                     Called (Read (Fd k 0) BUFFER_SIZE) (Some EISDIR);
                     Called (OpenRd p) None ] ++ w_trace w) as (w' & Hrun & Hfs & Ht).
    { unfold calculate_md5, open_rd. ff_step. rewrite (sem_open_rd_resolved _ _ _ _ R).
      unfold bind at 1. cbn [hash_chunks]. unfold read. ff_step.
      rewrite (sem_read_Dir _ (Fd k 0) _ perm) by exact Hn. cbn [ret].
      unfold close. ff_step. cbn [sem_close ret].
      eexists. split; [reflexivity|]. split; reflexivity. }
    exists w'. split; [exact Hrun|]. split; [|split; assumption].
    unfold verify_checksum, bind. rewrite Hrun. reflexivity.
Qed.

Lemma calculate_md5_errors_witness :
  match resolve (w_fs example_world) "s" with
  | inl e =>
      calculate_md5 true 0 "s" example_world
        = Some ((ERROR_FILE_OPEN, None), record (Called (OpenRd "s") (Some e)) example_world)
      /\ verify_checksum true 0 "s" "" example_world
        = Some (ERROR_FILE_OPEN, record (Called (OpenRd "s") (Some e)) example_world)
  | inr (k, Dir _) =>
      exists w',
        calculate_md5 true 1 "s" example_world = Some ((ERROR_FILE_READ, None), w')
        /\ verify_checksum true 1 "s" "" example_world = Some (ERROR_FILE_READ, w')
        /\ w_fs w' = w_fs example_world
        /\ w_trace w' =
             [ Called (Close (Fd k 0)) None;
               Called (Read (Fd k 0) BUFFER_SIZE) (Some EISDIR);
               Called (OpenRd "s") None ] ++ w_trace example_world
  | inr (_, File _ _) => True
  end.
Proof.
  apply (calculate_md5_errors true 0 "s" "" example_world).
  intros t c. reflexivity.
Defined.

(** ** The filtered copy and its statistics *)

Lemma bind_assoc {A B C} (m : M A) (f : A -> M B) (g : B -> M C) w :
  bind (bind m f) g w = bind m (fun a => bind (f a) g) w.
Proof. unfold bind. destruct (m w) as [[a w']|]; reflexivity. Qed.

Lemma bind_ext {A B} (m : M A) (f g : A -> M B) w :
  (forall a w', f a w' = g a w') -> bind m f w = bind m g w.
Proof. intros H. unfold bind. destruct (m w) as [[a w']|]; [apply H|reflexivity]. Qed.

Lemma bind_cong {A B} (m m' : M A) (f : A -> M B) w :
  m w = m' w -> bind m f w = bind m' f w.
Proof. intros H. unfold bind. rewrite H. reflexivity. Qed.

Lemma copy_file_filtered_unfiltered clock fuel src dest w :
  copy_file_filtered clock fuel src dest None None None w
  = (result <- copy_file fuel src dest ;; ret (result, None)) w.
Proof. reflexivity. Qed.

Lemma copy_entries_filtered_unfiltered clock
    (rec_f : string -> string -> option CopyStats -> M (Z * option CopyStats))
    (rec : string -> string -> M Z) fuel src dest :
  (forall s d w, rec_f s d None w = (result <- rec s d ;; ret (result, None)) w) ->
  forall entries w,
    copy_entries_filtered clock rec_f fuel src dest None None entries None w
    = (result <- copy_entries rec fuel src dest entries ;; ret (result, None)) w.
Proof.
  intros Hrec. induction entries as [|name rest IH]; intros w.
  - cbn [copy_entries_filtered copy_entries]. rewrite bind_assoc. reflexivity.
  - cbn [copy_entries_filtered copy_entries].
    destruct (pseudo_entry name); [apply IH|].
    rewrite bind_assoc. apply bind_ext. intros d w1.
    rewrite bind_assoc.
    rewrite (bind_cong _ (result <- (if d then rec (join src name) (join dest name)
                                     else copy_file fuel (join src name) (join dest name)) ;;
                          ret (result, None))).
    2:{ destruct d; [apply Hrec|apply copy_file_filtered_unfiltered]. }
    rewrite bind_assoc. apply bind_ext. intros result w2.
    change (bind (ret (result, @None CopyStats)) ?k w2) with (k (result, @None CopyStats) w2).
    cbv beta iota. destruct (result =? SUCCESS)%Z; [apply IH|].
    rewrite bind_assoc. reflexivity.
Qed.

(** X12: Without patterns and without statistics the filtered copy of a
    directory is the plain copy: with the three pointers NULL,
    [copy_directory_filtered] makes the same calls, leaves the same world
    and returns the same code as [copy_directory], in every world and
    whatever fails. *)
Theorem copy_directory_filtered_unfiltered :
  forall (clock : nat -> Z) (fuel : nat) (src_path dest_path : string) (w : world),
    copy_directory_filtered clock fuel src_path dest_path None None None w
    = (result <- copy_directory fuel src_path dest_path ;; ret (result, None)) w.
Proof.
  intros clock. induction fuel as [|fuel IH]; intros src dest w; [reflexivity|].
  cbn [copy_directory_filtered copy_directory].
  rewrite bind_assoc. apply bind_ext. intros result w1.
  destruct (result =? SUCCESS)%Z; [|reflexivity].
  change (bind (ret (@None CopyStats)) ?k w1) with (k (@None CopyStats) w1). cbv beta.
  rewrite bind_assoc. apply bind_ext. intros [e|entries] w2; [reflexivity|].
  apply copy_entries_filtered_unfiltered. intros s d w'. apply IH.
Qed.

Lemma emits_lift {A} (P : event -> Prop) (o : option A) : emits P (lift o).
Proof. destruct o; [apply emits_ret|apply emits_undefined]. Qed.

Lemma emits_time (P : event -> Prop) clock : emits P (time clock).
Proof. intros w a w' [= _ <-]. exists []. split; [reflexivity|constructor]. Qed.

Lemma match_star_all (s : list ascii) : Fnmatch.match_tokens [Fnmatch.TStar] s = true.
Proof. induction s as [|c s IH]; [reflexivity|]. cbn in *. exact IH. Qed.

Lemma match_pattern_star name : match_pattern name "*" = true.
Proof.
  unfold match_pattern, Fnmatch.fnmatch.
  change (Fnmatch.tokenize 0 (list_ascii_of_string "*")) with [Fnmatch.TStar].
  rewrite match_star_all. reflexivity.
Qed.

Lemma any_pattern_matches_In name p patterns :
  In p patterns -> match_pattern name p = true -> any_pattern_matches name patterns = true.
Proof.
  induction patterns as [|q rest IH]; intros Hin Hm; [destruct Hin|].
  cbn [any_pattern_matches]. destruct Hin as [->|Hin].
  - rewrite Hm. reflexivity.
  - destruct (match_pattern name q); [reflexivity|]. apply IH; assumption.
Qed.

Lemma should_copy_file_star name incl excl :
  In "*"%string excl -> should_copy_file name incl (Some excl) = false.
Proof.
  intros H. unfold should_copy_file.
  rewrite (any_pattern_matches_In name "*" excl H (match_pattern_star name)). reflexivity.
Qed.

Lemma walk_create_directory p : emits is_walk (create_directory p).
Proof.
  assert (forall q, emits is_walk (make_if_missing q)) as Hm.
  { intros q. unfold make_if_missing, path_exists, stat, mkdir. emits_auto. }
  assert (forall rest before, emits is_walk (create_parents before rest)) as Hp.
  { induction rest as [|c r IH]; intros before; cbn [create_parents].
    - apply emits_ret.
    - destruct (Ascii.eqb c "/"); [|apply IH].
      apply emits_bind; [apply Hm|intros res].
      destruct (res =? SUCCESS)%Z; [apply IH|apply emits_ret]. }
  unfold create_directory.
  destruct (Nat.eqb _ 0); [apply emits_undefined|].
  apply emits_bind.
  - destruct (strip_trailing_slash _); [apply emits_ret|apply Hp].
  - intros res. destruct (res =? SUCCESS)%Z; [apply Hm|apply emits_ret].
Qed.

Lemma walk_copy_entries_filtered clock rec fuel src dest incl excl :
  In "*"%string excl ->
  (forall s d st, emits is_walk (rec s d st)) ->
  forall entries stats,
    emits is_walk (copy_entries_filtered clock rec fuel src dest incl (Some excl) entries stats).
Proof.
  intros Hin Hrec. induction entries as [|name rest IH]; intros stats;
    cbn [copy_entries_filtered].
  - unfold closedir. emits_auto.
  - destruct (pseudo_entry name); [apply IH|].
    apply emits_bind; [unfold is_directory, stat; emits_auto|intros d].
    apply emits_bind.
    + destruct d; [apply Hrec|].
      unfold copy_file_filtered. rewrite should_copy_file_star by exact Hin.
      apply emits_ret.
    + intros [result stats']. destruct (result =? SUCCESS)%Z; [apply IH|].
      unfold closedir. emits_auto.
Qed.

(** X13: With [*] among the exclude patterns a filtered copy touches no file:
    whatever the include patterns, the statistics and the faults, every call
    that [copy_directory_filtered] makes is a [stat], a [mkdir], an
    [opendir] or a [closedir]; it makes the directories and opens, reads and
    writes no file. *)
Theorem copy_directory_filtered_all_excluded :
  forall (clock : nat -> Z) (fuel : nat) (src_path dest_path : string)
         (include_patterns : option (list string)) (exclude_patterns : list string)
         (stats : option CopyStats),
    In "*"%string exclude_patterns ->
    emits is_walk
      (copy_directory_filtered clock fuel src_path dest_path
         include_patterns (Some exclude_patterns) stats).
Proof.
  intros clock fuel src dest incl excl stats Hin. revert src dest stats.
  induction fuel as [|fuel IH]; intros src dest stats; cbn [copy_directory_filtered].
  - apply emits_undefined.
  - apply emits_bind; [apply walk_create_directory|intros result].
    destruct (result =? SUCCESS)%Z; [|apply emits_ret].
    apply emits_bind.
    + destruct stats; [|apply emits_ret].
      apply emits_bind; [apply emits_lift|intros dirs; apply emits_ret].
    + intros stats'. apply emits_bind; [unfold opendir; emits_auto|intros [e|entries]].
      * apply emits_ret.
      * apply walk_copy_entries_filtered; [exact Hin|]. intros s d st. apply IH.
Qed.

Lemma copy_directory_filtered_all_excluded_witness :
  emits is_walk
    (copy_directory_filtered (fun _ => 0%Z) 3 "s" "mnt/s" None (Some ["*.o"; "*"]%string) None).
Proof.
  apply (copy_directory_filtered_all_excluded (fun _ => 0%Z) 3 "s" "mnt/s" None ["*.o"; "*"]%string None).
  right. left. reflexivity.
Defined.

Lemma advances_refl s : advances s s.
Proof. unfold advances. repeat split; lia. Qed.

Lemma advances_trans a b c : advances a b -> advances b c -> advances a c.
Proof. unfold advances. intros (?&?&?&?&?) (?&?&?&?&?). repeat split; try lia; congruence. Qed.

Lemma advances_if_given_refl st : advances_if_given st st.
Proof. destruct st; [apply advances_refl|exact I]. Qed.

Lemma advances_if_given_trans a b c :
  advances_if_given a b -> advances_if_given b c -> advances_if_given a c.
Proof.
  destruct a, b, c; cbn; try tauto. apply advances_trans.
Qed.

Lemma long_Some z v : long z = Some v -> v = z.
Proof. unfold long. destruct (_ && _); [intros [= <-]; reflexivity|discriminate]. Qed.

Lemma lift_Some {A} (o : option A) w a w' : lift o w = Some (a, w') -> o = Some a /\ w' = w.
Proof. destruct o; cbn; [intros [= <- <-]; auto|discriminate]. Qed.

Lemma update_stats_inv clock s bytes w s' w' :
  update_stats clock s bytes w = Some (s', w') ->
  w' = w
  /\ total_files s' = total_files s /\ total_dirs s' = total_dirs s
  /\ total_bytes s' = total_bytes s /\ copied_bytes s' = (copied_bytes s + bytes)%Z
  /\ start_time s' = start_time s
  /\ current_time s' = clock (length (w_trace w)).
Proof.
  unfold update_stats. intros H.
  apply bind_Some in H as (copied & w1 & H1 & H). apply lift_Some in H1 as [H1 ->].
  apply long_Some in H1. subst copied.
  apply bind_Some in H as (now & w2 & H2 & H). injection H2 as <- <-.
  apply bind_Some in H as (speed & w3 & H3 & H). apply lift_Some in H3 as [_ ->].
  apply ret_Some in H as [<- <-]. cbn. repeat split; reflexivity.
Qed.

Lemma advances_copy_file_filtered clock fuel src dest incl excl stats w r w' :
  copy_file_filtered clock fuel src dest incl excl stats w = Some (r, w') ->
  advances_if_given stats r.2.
Proof.
  unfold copy_file_filtered. intros H.
  destruct (negb (should_copy_file (basename src) incl excl)).
  { apply ret_Some in H as [<- _]. apply advances_if_given_refl. }
  apply bind_Some in H as (result & w1 & _ & H).
  destruct stats as [s|]; [|apply ret_Some in H as [<- _]; exact I].
  destruct (result =? SUCCESS)%Z;
    [|apply ret_Some in H as [<- _]; apply advances_refl].
  apply bind_Some in H as (files & w2 & H2 & H). apply lift_Some in H2 as [H2 ->].
  apply long_Some in H2. subst files.
  apply bind_Some in H as (size & w3 & _ & H).
  destruct (Z.ltb_spec 0 size) as [Hsize|Hsize].
  - apply bind_Some in H as (bytes & w4 & H4 & H). apply lift_Some in H4 as [H4 ->].
    apply long_Some in H4. cbn in H4. subst bytes.
    apply bind_Some in H as (s' & w5 & H5 & H).
    apply update_stats_inv in H5 as (_ & Hf & Hd & Hb & Hc & Hs & _). cbn in *.
    apply ret_Some in H as [<- _]. cbn. unfold advances. rewrite Hf, Hd, Hb, Hc, Hs.
    repeat split; lia.
  - apply ret_Some in H as [<- _]. cbn. unfold advances. cbn. repeat split; lia.
Qed.

Lemma advances_copy_entries_filtered clock rec fuel src dest incl excl :
  (forall s d st w r w', rec s d st w = Some (r, w') -> advances_if_given st r.2) ->
  forall entries stats w r w',
    copy_entries_filtered clock rec fuel src dest incl excl entries stats w = Some (r, w') ->
    advances_if_given stats r.2.
Proof.
  intros Hrec. induction entries as [|name rest IH]; intros stats w r w' H;
    cbn [copy_entries_filtered] in H.
  - apply bind_Some in H as (u & w1 & _ & H). apply ret_Some in H as [<- _].
    apply advances_if_given_refl.
  - destruct (pseudo_entry name); [eapply IH, H|].
    apply bind_Some in H as (d & w1 & _ & H).
    apply bind_Some in H as ([result stats1] & w2 & H2 & H).
    assert (advances_if_given stats stats1) as A1.
    { destruct d; [apply Hrec in H2|apply advances_copy_file_filtered in H2]; exact H2. }
    eapply advances_if_given_trans; [exact A1|].
    destruct (result =? SUCCESS)%Z; [eapply IH, H|].
    apply bind_Some in H as (u & w3 & _ & H). apply ret_Some in H as [<- _].
    apply advances_if_given_refl.
Qed.

(** X14: Whatever happens in a filtered copy, the statistics only move
    forward: the start time stays, the numbers of files, directories and
    bytes do not go down, and the bytes copied grow by exactly what the
    bytes counted grow; when no statistics are passed, none come back. *)
Theorem copy_directory_filtered_advances :
  forall (clock : nat -> Z) (fuel : nat) (src_path dest_path : string)
         (include_patterns exclude_patterns : option (list string))
         (stats : option CopyStats) (w : world) (r : Z * option CopyStats) (w' : world),
    copy_directory_filtered clock fuel src_path dest_path
      include_patterns exclude_patterns stats w = Some (r, w') ->
    advances_if_given stats r.2.
Proof.
  intros clock fuel src dest incl excl. revert src dest.
  induction fuel as [|fuel IH]; intros src dest stats w r w' H; [discriminate|].
  cbn [copy_directory_filtered] in H.
  apply bind_Some in H as (result & w1 & _ & H).
  destruct (result =? SUCCESS)%Z;
    [|apply ret_Some in H as [<- _]; apply advances_if_given_refl].
  apply bind_Some in H as (stats1 & w2 & H2 & H).
  assert (advances_if_given stats stats1) as A1.
  { destruct stats as [s|]; [|apply ret_Some in H2 as [<- _]; exact I].
    apply bind_Some in H2 as (dirs & w3 & H3 & H2). apply lift_Some in H3 as [H3 _].
    apply long_Some in H3. subst dirs. apply ret_Some in H2 as [<- _].
    cbn. unfold advances. cbn. repeat split; lia. }
  eapply advances_if_given_trans; [exact A1|].
  apply bind_Some in H as (d & w3 & _ & H).
  destruct d as [e|entries]; [apply ret_Some in H as [<- _]; apply advances_if_given_refl|].
  eapply advances_copy_entries_filtered; [|exact H].
  intros s d st w0 r0 w0' H0. eapply IH, H0.
Qed.

(** X15: When all the bytes counted have been copied and the transfer speed is
    a number, [estimate_time_remaining] gives 0. *)
Theorem estimate_time_remaining_done :
  forall (stats : CopyStats),
    copied_bytes stats = total_bytes stats ->
    PrimFloat.is_nan (transfer_speed stats) = false ->
    estimate_time_remaining stats = Some 0%Z.
Proof.
  intros s Hdone Hnan. unfold estimate_time_remaining.
  destruct (PrimFloat.leb (transfer_speed s) 0) eqn:Hle; [reflexivity|].
  destruct (total_bytes s <=? 0)%Z; [reflexivity|]. cbn [orb].
  rewrite Hdone, Z.sub_diag.
  change (long 0) with (Some 0%Z).
  change (double_of_long 0) with 0%float.
  unfold long_of_double. rewrite FloatAxioms.div_spec.
  change (Prim2SF 0) with (S754_zero false).
  rewrite FloatAxioms.leb_spec in Hle. change (Prim2SF 0) with (S754_zero false) in Hle.
  unfold PrimFloat.is_nan in Hnan. rewrite FloatAxioms.eqb_spec in Hnan.
  destruct (Prim2SF (transfer_speed s)) as [sg|sg| |sg m e]; cbn in *;
    try reflexivity; try discriminate.
Qed.

(** ** What the copies and the removal leave alone *)

Ltac steps_step R refl trans :=
  match goal with
  | |- steps R (bind _ _) => apply (steps_bind R trans); [|intros ?]
  | |- steps R (ret _) => apply (steps_ret R refl)
  | |- steps R undefined => apply steps_undefined
  | |- steps R (mark _) => apply (steps_mark R refl)
  | |- steps R (stat _) => apply (steps_stat R refl)
  | |- steps R (open_rd _) => apply (steps_open_rd R refl)
  | |- steps R (read _ _) => apply (steps_read R refl)
  | |- steps R (fstat _) => apply (steps_fstat R refl)
  | |- steps R (close _) => apply (steps_close R refl)
  | |- steps R (opendir _) => apply (steps_opendir R refl)
  | |- steps R (closedir _) => apply (steps_closedir R refl)
  | |- steps R (path_exists _) => apply (steps_path_exists R refl trans)
  | |- steps R (is_directory _) => apply (steps_is_directory R refl trans)
  | |- steps R (get_file_size _) => apply (steps_get_file_size R refl trans)
  | |- steps R (match ?x with _ => _ end) => destruct x
  | |- steps R (if ?x then _ else _) => destruct x
  end.

Lemma dirs_stay_refl fs : dirs_stay fs fs.
Proof. intros k H. exact H. Qed.

Lemma dirs_stay_trans a b c : dirs_stay a b -> dirs_stay b c -> dirs_stay a c.
Proof. intros H1 H2 k H. apply H2, H1, H. Qed.

Lemma dirs_stay_insert_new fs k n :
  holds_dir fs k = false -> dirs_stay fs (<[k := n]> fs).
Proof.
  intros Hk k' H. unfold holds_dir in *. destruct (decide (k = k')) as [<-|Hne].
  - rewrite H in Hk. discriminate.
  - rewrite lookup_insert_ne by exact Hne. exact H.
Qed.

Lemma dirs_stay_insert_dir fs k perm : dirs_stay fs (<[k := Dir perm]> fs).
Proof.
  intros k' H. unfold holds_dir in *. destruct (decide (k = k')) as [<-|Hne].
  - rewrite lookup_insert_eq. reflexivity.
  - rewrite lookup_insert_ne by exact Hne. exact H.
Qed.

Lemma holds_dir_node_at fs k :
  k <> [] -> holds_dir fs k = match node_at fs k with Some (Dir _) => true | _ => false end.
Proof. intros H. unfold holds_dir. rewrite node_at_nonempty by exact H. reflexivity. Qed.

Ltac ds_step := steps_step dirs_stay dirs_stay_refl dirs_stay_trans.

Lemma dirs_stay_open_wr p : steps dirs_stay (open_wr p).
Proof.
  apply (steps_call dirs_stay dirs_stay_refl). intros fs dev a fs'. unfold sem_open_wr.
  destruct (check_name p); [discriminate|].
  destruct (norm p) as [|c k] eqn:E; [discriminate|]. rewrite node_at_cons.
  destruct (fs !! (c :: k)) as [[perm data|perm]|] eqn:L.
  - destruct (ends_with_slash p); [discriminate|]. intros [= _ <-].
    apply dirs_stay_insert_new. unfold holds_dir. rewrite L. reflexivity.
  - discriminate.
  - destruct (ends_with_slash p); [discriminate|].
    destruct (parent_is_dir fs (c :: k)); [discriminate|]. intros [= _ <-].
    apply dirs_stay_insert_new. unfold holds_dir. rewrite L. reflexivity.
Qed.

Lemma dirs_stay_write f buf : steps dirs_stay (write f buf).
Proof.
  apply (steps_call dirs_stay dirs_stay_refl). intros fs dev a fs'. unfold sem_write.
  destruct (node_at fs (fd_key f)) as [[perm data|perm]|] eqn:L; try discriminate.
  intros [= _ <-]. apply node_at_File in L as [_ L].
  apply dirs_stay_insert_new. unfold holds_dir. rewrite L. reflexivity.
Qed.

Lemma dirs_stay_fchmod f m : steps dirs_stay (fchmod f m).
Proof.
  apply (steps_call dirs_stay dirs_stay_refl). intros fs dev a fs'. unfold sem_fchmod.
  destruct (fd_key f) as [|c k]; [discriminate|]. rewrite node_at_cons.
  destruct (fs !! (c :: k)) as [[perm data|perm]|] eqn:L; intros E; inversion E; subst.
  - apply dirs_stay_insert_new. unfold holds_dir. rewrite L. reflexivity.
  - apply dirs_stay_insert_dir.
Qed.

Lemma dirs_stay_mkdir p : steps dirs_stay (mkdir p).
Proof.
  apply (steps_call dirs_stay dirs_stay_refl). intros fs dev a fs'. unfold sem_mkdir.
  destruct (check_name p); [discriminate|].
  destruct (node_at fs (norm p)); [discriminate|].
  destruct (parent_is_dir fs (norm p)); [discriminate|].
  intros E; inversion E; subst. apply dirs_stay_insert_dir.
Qed.

Lemma dirs_stay_copy_chunks fuel : forall s d, steps dirs_stay (copy_chunks fuel s d).
Proof.
  induction fuel as [|fuel IH]; intros s d; cbn [copy_chunks].
  - ds_step.
  - ds_step; [ds_step|].
    destruct a as [e|[chunk s']]; [repeat ds_step|].
    destruct (Nat.eqb (length chunk) 0); [ds_step|].
    ds_step; [apply dirs_stay_write|].
    destruct a as [e|[n d']]; [repeat ds_step|].
    destruct (Nat.eqb n (length chunk)); [apply IH|repeat ds_step].
Qed.

Lemma dirs_stay_copy_file fuel src dest : steps dirs_stay (copy_file fuel src dest).
Proof.
  unfold copy_file, copy_mode.
  ds_step; [ds_step|]. ds_step; [ds_step|].
  destruct a0 as [e|s]; [ds_step|].
  ds_step; [ds_step|]. ds_step; [apply dirs_stay_open_wr|].
  destruct a1 as [e|d]; [repeat ds_step|].
  ds_step; [apply dirs_stay_copy_chunks|].
  destruct a1 as [code|[s' d']]; [ds_step|].
  ds_step; [|repeat ds_step].
  ds_step; [ds_step|].
  destruct a1 as [e|st]; [ds_step|].
  ds_step; [apply dirs_stay_fchmod|ds_step].
Qed.

Lemma same_env_ret {A} (a : A) : same_env (ret a).
Proof. intros w b w' [= _ <-]. auto. Qed.

Lemma same_env_undefined {A} : same_env (@undefined A).
Proof. intros w b w' [=]. Qed.

Lemma same_env_mark e : same_env (mark e).
Proof. intros w [] w' [= <-]. auto. Qed.

Lemma same_env_bind {A B} (m : M A) (f : A -> M B) :
  same_env m -> (forall a, same_env (f a)) -> same_env (bind m f).
Proof.
  intros Hm Hf w b w'' H. apply bind_Some in H as (a & w' & H1 & H2).
  destruct (Hm _ _ _ H1) as [F1 D1]. destruct (Hf _ _ _ _ H2) as [F2 D2].
  split; congruence.
Qed.

Lemma same_env_call {A} (c : syscall)
    (sem : gmap key node -> (key -> nat) -> errno + (A * gmap key node)) :
  same_env (call c sem).
Proof. intros w r w' H. destruct (call_env _ _ _ _ _ H) as (F & D & _). auto. Qed.

Lemma same_env_lift {A} (o : option A) : same_env (lift o).
Proof. destruct o; [apply same_env_ret|apply same_env_undefined]. Qed.

Lemma same_env_time clock : same_env (time clock).
Proof. intros w a w' [= _ <-]. auto. Qed.

Ltac same_env_step :=
  match goal with
  | |- same_env (bind _ _) => apply same_env_bind; [|intros ?]
  | |- same_env (ret _) => apply same_env_ret
  | |- same_env undefined => apply same_env_undefined
  | |- same_env (call _ _) => apply same_env_call
  | |- same_env (mark _) => apply same_env_mark
  | |- same_env (lift _) => apply same_env_lift
  | |- same_env (time _) => apply same_env_time
  | |- same_env (match ?x with _ => _ end) => destruct x
  | |- same_env (if ?x then _ else _) => destruct x
  end.

Ltac same_env_auto := repeat same_env_step.

Lemma same_env_get_file_size p : same_env (get_file_size p).
Proof. unfold get_file_size, stat. same_env_auto. Qed.

Lemma same_env_is_directory p : same_env (is_directory p).
Proof. unfold is_directory, stat. same_env_auto. Qed.

Lemma same_env_path_exists p : same_env (path_exists p).
Proof. unfold path_exists, stat. same_env_auto. Qed.

Lemma same_env_copy_chunks fuel : forall s d, same_env (copy_chunks fuel s d).
Proof.
  induction fuel as [|fuel IH]; intros s d; cbn [copy_chunks]; [apply same_env_undefined|].
  unfold read, write, close.
  same_env_step; [same_env_step|]. destruct a as [e|[chunk s']]; [same_env_auto|].
  destruct (Nat.eqb (length chunk) 0); [same_env_auto|].
  same_env_step; [same_env_step|]. destruct a as [e|[n d']]; [same_env_auto|].
  destruct (Nat.eqb n (length chunk)); [apply IH|same_env_auto].
Qed.

Lemma same_env_copy_file fuel src dest : same_env (copy_file fuel src dest).
Proof.
  unfold copy_file, copy_mode.
  same_env_step; [apply same_env_get_file_size|].
  unfold open_rd, stat, open_wr, close, fstat, fchmod.
  same_env_step; [same_env_step|]. destruct a0 as [e|s]; [same_env_auto|].
  same_env_step; [same_env_step|]. same_env_step; [same_env_step|].
  destruct a1 as [e|d]; [same_env_auto|].
  same_env_step; [apply same_env_copy_chunks|].
  destruct a1 as [code|[s' d']]; same_env_auto.
Qed.

Lemma holds_dir_resolve fs fs' p k perm :
  dirs_stay fs fs' -> resolve fs p = inr (k, Dir perm) ->
  exists perm', resolve fs' p = inr (k, Dir perm').
Proof.
  intros Hd R. destruct (resolve_inr _ _ _ _ R) as (Hc & -> & Hn & _).
  unfold resolve. rewrite Hc. destruct (norm p) as [|c k] eqn:E.
  - cbn. eauto.
  - rewrite node_at_cons in *. specialize (Hd (c :: k)). unfold holds_dir in Hd.
    rewrite Hn in Hd. specialize (Hd eq_refl).
    destruct (fs' !! (c :: k)) as [[|perm']|]; try discriminate. eauto.
Qed.

(** X16: A filtered copy of a file into a directory counts the directory.
    When the destination path names a directory, the file name is admitted
    and [copy_file_filtered] returns [SUCCESS] with statistics, one file has
    been counted, and the bytes counted have grown by the size that [stat]
    gives for the directory, not for the file written in it, or by nothing;
    by the size of the directory whenever [stat] of the destination is not
    made to fail. *)
Theorem copy_file_filtered_counts_directory :
  forall (clock : nat -> Z) (fuel : nat) (src_path dest_path : string)
         (include_patterns exclude_patterns : option (list string))
         (s s' : CopyStats) (w w' : world) (k : key) (perm : Z),
    resolve (w_fs w) dest_path = inr (k, Dir perm) ->
    should_copy_file (basename src_path) include_patterns exclude_patterns = true ->
    copy_file_filtered clock fuel src_path dest_path include_patterns exclude_patterns
      (Some s) w = Some ((SUCCESS, Some s'), w') ->
    total_files s' = (total_files s + 1)%Z
    /\ (total_bytes s' = (total_bytes s + DIR_SIZE)%Z \/ total_bytes s' = total_bytes s)
    /\ ((forall t, w_faults w t (Stat dest_path) = None) ->
        total_bytes s' = (total_bytes s + DIR_SIZE)%Z).
Proof.
  intros clock fuel src dest incl excl s s' w w' k perm R Hadm H.
  unfold copy_file_filtered in H. rewrite Hadm in H. cbn [negb] in H.
  apply bind_Some in H as (result & w1 & Hcopy & H).
  destruct (Z.eqb_spec result SUCCESS) as [->|Hne];
    [|apply ret_Some in H as [[= E _] _]; congruence].
  apply bind_Some in H as (files & w2 & H2 & H). apply lift_Some in H2 as [H2 ->].
  apply long_Some in H2. subst files.
  pose proof (dirs_stay_copy_file _ _ _ _ _ _ Hcopy) as Hds.
  destruct (same_env_copy_file _ _ _ _ _ _ Hcopy) as [Hf1 _].
  destruct (holds_dir_resolve _ _ _ _ _ Hds R) as (perm' & R1).
  apply bind_Some in H as (size & w3 & Hsize & H).
  assert (size = DIR_SIZE \/ (size = (-1)%Z /\ exists t, w_faults w t (Stat dest) <> None))
    as Hsz.
  { unfold get_file_size in Hsize. apply bind_Some in Hsize as (r & w4 & Hst & Hsize).
    pose proof Hst as Hst'. apply call_Some in Hst'. destruct r as [e|st].
    - apply ret_Some in Hsize as [<- _]. right. split; [reflexivity|].
      destruct Hst' as [Ho _]. unfold outcome in Ho. rewrite Hf1 in Ho.
      destruct (w_faults w (length (w_trace w1)) (Stat dest)) eqn:Ef.
      + exists (length (w_trace w1)). congruence.
      + unfold sem_stat in Ho. rewrite R1 in Ho. discriminate.
    - apply stat_inv in Hst as (_ & _ & Hr). destruct (Hr _ eq_refl) as (k' & n & Rn & ->).
      rewrite R1 in Rn. injection Rn as <- <-. apply ret_Some in Hsize as [<- _].
      left. reflexivity. }
  destruct Hsz as [-> | (-> & t & Ht)].
  - change (0 <? DIR_SIZE)%Z with true in H. cbv iota in H.
    apply bind_Some in H as (bytes & w4 & H4 & H). apply lift_Some in H4 as [H4 ->].
    apply long_Some in H4. cbn in H4. subst bytes.
    apply bind_Some in H as (s1 & w5 & H5 & H).
    apply update_stats_inv in H5 as (_ & Hf & _ & Hb & _). cbn in Hf, Hb.
    apply ret_Some in H as [[= <-] _]. rewrite Hf, Hb. auto.
  - change (0 <? -1)%Z with false in H. cbv iota in H.
    apply ret_Some in H as [[= <-] _]. cbn. split; [reflexivity|]. split; [auto|].
    intros Hno. destruct (Ht (Hno t)).
Qed.

Lemma copy_file_filtered_counts_directory_witness :
  exists (s' : CopyStats) (w' : world),
    copy_file_filtered ticking 3 "a.txt" "s" None None (Some fresh_stats) example_world
      = Some ((SUCCESS, Some s'), w')
    /\ total_files s' = (total_files fresh_stats + 1)%Z
    /\ (total_bytes s' = (total_bytes fresh_stats + DIR_SIZE)%Z
        \/ total_bytes s' = total_bytes fresh_stats)
    /\ ((forall t, w_faults example_world t (Stat "s") = None) ->
        total_bytes s' = (total_bytes fresh_stats + DIR_SIZE)%Z).
Proof.
  eexists _, _. split; [vm_compute; reflexivity|].
  eapply (copy_file_filtered_counts_directory ticking 3 "a.txt" "s" None None
            fresh_stats _ example_world _ ["s"%string] 493).
  - vm_compute. reflexivity.
  - vm_compute. reflexivity.
  - vm_compute. reflexivity.
Defined.

Lemma copy_directory_filtered_advances_witness :
  exists (r : Z * option CopyStats) (w' : world),
    copy_directory_filtered ticking 5 "s" "mnt/s" (Some ["*"%string]) None
      (Some fresh_stats) example_world = Some (r, w')
    /\ advances_if_given (Some fresh_stats) r.2.
Proof.
  eexists _, _. split; [vm_compute; reflexivity|].
  eapply (copy_directory_filtered_advances ticking 5 "s" "mnt/s" (Some ["*"%string]) None
            (Some fresh_stats) example_world).
  vm_compute. reflexivity.
Defined.

Lemma estimate_time_remaining_done_witness :
  estimate_time_remaining
    {| total_files := 2; total_dirs := 1; total_bytes := 10; copied_bytes := 10;
       start_time := 0; current_time := 4; transfer_speed := 2.5%float |} = Some 0%Z.
Proof.
  apply estimate_time_remaining_done; vm_compute; reflexivity.
Defined.

Lemma within_refl k : within k k = true.
Proof. unfold within. apply bool_decide_eq_true_2. apply take_ge. lia. Qed.

Lemma within_app k x : within k (k ++ x) = true.
Proof. unfold within. apply bool_decide_eq_true_2. apply take_app_length. Qed.

Lemma within_inv a b : within a b = true -> exists x, b = a ++ x.
Proof.
  unfold within. intros H. apply bool_decide_eq_true_1 in H.
  exists (drop (length a) b). rewrite <- H at 1. symmetry. apply take_drop.
Qed.

Lemma within_trans a b c : within a b = true -> within b c = true -> within a c = true.
Proof.
  intros H1 H2. apply within_inv in H1 as [x ->]. apply within_inv in H2 as [y ->].
  rewrite <- app_assoc. apply within_app.
Qed.

Lemma outside_mono a b k : within a b = true -> within a k = false -> within b k = false.
Proof.
  intros Hab Hk. destruct (within b k) eqn:E; [|reflexivity].
  rewrite (within_trans _ _ _ Hab E) in Hk. discriminate.
Qed.

Lemma changes_within_refl kd fs : changes_within kd fs fs.
Proof. intros k _. reflexivity. Qed.

Lemma changes_within_trans kd a b c :
  changes_within kd a b -> changes_within kd b c -> changes_within kd a c.
Proof. intros H1 H2 k Hk. rewrite (H2 k Hk). apply H1, Hk. Qed.

Lemma changes_within_mono kd kd' fs fs' :
  within kd kd' = true -> changes_within kd' fs fs' -> changes_within kd fs fs'.
Proof. intros Hw H k Hk. apply H. eapply outside_mono; eassumption. Qed.

Lemma changes_within_delete kd k fs :
  within kd k = true -> changes_within kd fs (delete k fs).
Proof.
  intros Hw k' Hk'. apply lookup_delete_ne. intros ->. congruence.
Qed.

Lemma substring_app_short a b n :
  (String.length a <= n)%nat ->
  String.substring 0 n (a +:+ b) = a +:+ String.substring 0 (n - String.length a) b.
Proof.
  revert n. induction a as [|c a IH]; intros n H.
  - cbn [String.length]. rewrite Nat.sub_0_r. reflexivity.
  - destruct n as [|n]; [cbn in H; lia|].
    rewrite !append_cons. cbn [String.length Nat.sub].
    change (String.substring 0 (S n) (String c (a +:+ b)))
      with (String c (String.substring 0 n (a +:+ b))).
    rewrite IH by (cbn in H; lia). reflexivity.
Qed.

Lemma substring_slash n s :
  String.substring 0 n (String "/" s) = EmptyString
  \/ exists t, String.substring 0 n (String "/" s) = String "/" t.
Proof. destruct n; [left; reflexivity|right]. eexists. reflexivity. Qed.

(** The text that [join] builds names the directory itself or a name
    under it. *)
Lemma join_within dir name :
  (String.length dir < MAX_PATH)%nat -> within (norm dir) (norm (join dir name)) = true.
Proof.
  intros H. unfold join, snprintf.
  rewrite substring_app_short by lia.
  destruct (substring_slash (MAX_PATH - 1 - String.length dir) name) as [E|[t E]].
  - change ("/" +:+ name) with (String "/" name). rewrite E, append_empty_r. apply within_refl.
  - change ("/" +:+ name) with (String "/" name). rewrite E, norm_app. apply within_app.
Qed.

Lemma join_length dir name : (String.length (join dir name) < MAX_PATH)%nat.
Proof.
  unfold join, snprintf. pose proof (substring_length_bound (dir +:+ "/" +:+ name) (MAX_PATH - 1)).
  pose proof MAX_PATH_big. lia.
Qed.

Lemma opendir_inv p w r w' :
  opendir p w = Some (r, w') ->
  w_fs w' = w_fs w
  /\ (forall entries, r = inr entries ->
        exists perm, resolve (w_fs w) p = inr (norm p, Dir perm)
                     /\ entries = "."%string :: ".."%string :: children (w_fs w) (norm p)).
Proof.
  intros H. apply call_Some in H. destruct r as [e|entries].
  - destruct H as [_ ->]. split; [reflexivity|discriminate].
  - destruct H as (fs' & Ho & ->). apply outcome_inr in Ho. unfold sem_opendir in Ho.
    destruct (resolve (w_fs w) p) as [e|[k [perm data|perm]]] eqn:R; try discriminate.
    injection Ho as <- <-. split; [reflexivity|]. intros entries' [= <-].
    destruct (resolve_inr _ _ _ _ R) as (_ & -> & _). eauto.
Qed.

Lemma changes_within_unlink kd p w u w' :
  within kd (norm p) = true ->
  unlink p w = Some (u, w') -> changes_within kd (w_fs w) (w_fs w').
Proof.
  intros Hw H. apply frame_unlink in H as [F _].
  intros k Hk. apply F. intros ->. congruence.
Qed.

Lemma changes_within_rmdir p w u w' :
  rmdir p w = Some (u, w') -> changes_within (norm p) (w_fs w) (w_fs w').
Proof.
  intros H. apply call_Some in H. destruct u as [e|[]].
  - destruct H as [_ ->]. apply changes_within_refl.
  - destruct H as (fs' & Ho & ->). apply outcome_inr in Ho. unfold sem_rmdir in Ho.
    destruct (resolve (w_fs w) p) as [e|[k n]] eqn:R; [discriminate|].
    pose proof (resolve_inr _ _ _ _ R) as (_ & Hk & _).
    destruct n as [perm data|perm]; destruct k as [|c k]; try discriminate.
    destruct (children (w_fs w) (c :: k)); [|discriminate].
    injection Ho as <-. cbn [w_fs record with_fs]. rewrite <- Hk.
    apply changes_within_delete, within_refl.
Qed.

Lemma changes_within_remove_entries rec path :
  (String.length path < MAX_PATH)%nat ->
  (forall p w r w', rec p w = Some (r, w') -> changes_within (norm p) (w_fs w) (w_fs w')) ->
  forall entries w u w',
    remove_entries rec path entries w = Some (u, w') ->
    changes_within (norm path) (w_fs w) (w_fs w').
Proof.
  intros Hlen Hrec. induction entries as [|name rest IH]; intros w u w' H;
    cbn [remove_entries] in H.
  - apply ret_Some in H as [_ <-]. apply changes_within_refl.
  - destruct (pseudo_entry name); [eapply IH, H|].
    apply bind_Some in H as (d & w1 & Hd & H).
    apply (steps_is_directory eq (fun _ => eq_refl) (fun a b c => @eq_trans _ a b c)) in Hd.
    apply bind_Some in H as (x & w2 & Hx & H).
    eapply changes_within_trans; [|eapply IH, H].
    rewrite Hd. pose proof (join_within path name Hlen) as Hw.
    destruct d.
    + apply bind_Some in Hx as (r & w3 & Hr & Hx). apply ret_Some in Hx as [_ <-].
      eapply changes_within_mono; [exact Hw|]. eapply Hrec, Hr.
    + apply bind_Some in Hx as (r & w3 & Hr & Hx). apply ret_Some in Hx as [_ <-].
      eapply changes_within_unlink; [exact Hw|exact Hr].
Qed.

Lemma changes_within_remove_directory :
  forall (fuel : nat) (path : string) (w : world) (result : Z) (w' : world),
    remove_directory fuel path w = Some (result, w') ->
    forall k, within (norm path) k = false -> w_fs w' !! k = w_fs w !! k.
Proof.
  induction fuel as [|fuel IH]; intros path w result w' H; [discriminate|].
  change (changes_within (norm path) (w_fs w) (w_fs w')).
  cbn [remove_directory] in H.
  apply bind_Some in H as (d & w1 & Hd & H).
  apply opendir_inv in Hd as (Hfs1 & Hent).
  destruct d as [e|entries].
  { apply ret_Some in H as [_ <-]. rewrite Hfs1. apply changes_within_refl. }
  destruct (Hent _ eq_refl) as (perm & R & _).
  apply resolve_inr in R as (Hc & _). apply check_name_None in Hc.
  apply bind_Some in H as (u & w2 & Hloop & H).
  apply bind_Some in H as (u2 & w3 & Hcl & H).
  apply bind_Some in H as (u3 & w4 & Hrm & H).
  apply ret_Some in H as [_ <-].
  apply (steps_closedir eq (fun _ => eq_refl)) in Hcl.
  apply changes_within_rmdir in Hrm.
  rewrite <- Hfs1. apply (changes_within_trans _ _ (w_fs w2)); [|rewrite Hcl; exact Hrm].
  eapply changes_within_remove_entries; [lia| |exact Hloop].
  intros p w0 r w0' H0. exact (IH p w0 r w0' H0).
Qed.

(** X17: Whatever fails, [remove_directory] changes nothing outside the
    directory.  In a namespace of regular files and directories without
    links, for a path and names of which no component begins with two
    dots, every name that is neither the path nor under it is after the
    run as it was before. *)
Theorem remove_directory_stays_inside :
  forall (fuel : nat) (path : string) (w : world) (result : Z) (w' : world),
    no_dots (norm path) = true ->
    no_dots_fs (w_fs w) = true ->
    remove_directory fuel path w = Some (result, w') ->
    forall k, within (norm path) k = false -> w_fs w' !! k = w_fs w !! k.
Proof.
  intros fuel path w result w' _ _ H.
  exact (changes_within_remove_directory fuel path w result w' H).
Qed.

Lemma spares_outside_refl kd fs : spares_outside kd fs fs.
Proof. intros k _ _. reflexivity. Qed.

Lemma spares_outside_trans kd a b c :
  spares_outside kd a b -> spares_outside kd b c -> spares_outside kd a c.
Proof.
  intros H1 H2 k Hk Hs. rewrite <- (H1 k Hk Hs). apply H2; [exact Hk|].
  rewrite (H1 k Hk Hs). exact Hs.
Qed.

Lemma spares_outside_mono kd kd' fs fs' :
  within kd kd' = true -> spares_outside kd' fs fs' -> spares_outside kd fs fs'.
Proof. intros Hw H k Hk. apply H. eapply outside_mono; eassumption. Qed.

Lemma spares_outside_new kd k n fs :
  fs !! k = None -> spares_outside kd fs (<[k := n]> fs).
Proof.
  intros Hnew k' _ [x Hx]. apply lookup_insert_ne. intros ->. congruence.
Qed.

Lemma spares_outside_frame kd k fs fs' :
  within kd k = true -> frame k fs fs' -> spares_outside kd fs fs'.
Proof. intros Hw F k' Hk' _. apply F. intros ->. congruence. Qed.

Ltac so_step kd :=
  steps_step (spares_outside kd) (spares_outside_refl kd) (spares_outside_trans kd).

Lemma spares_outside_mkdir kd p : steps (spares_outside kd) (mkdir p).
Proof.
  apply (steps_call _ (spares_outside_refl kd)). intros fs dev a fs'. unfold sem_mkdir.
  destruct (check_name p); [discriminate|].
  destruct (norm p) as [|c k]; [discriminate|]. rewrite node_at_cons.
  destruct (fs !! (c :: k)) eqn:L; [discriminate|].
  destruct (parent_is_dir fs (c :: k)); [discriminate|].
  intros E; inversion E; subst. apply spares_outside_new, L.
Qed.

Lemma spares_outside_create_directory kd p : steps (spares_outside kd) (create_directory p).
Proof.
  assert (forall q, steps (spares_outside kd) (make_if_missing q)) as Hm.
  { intros q. unfold make_if_missing. repeat so_step kd. apply spares_outside_mkdir. }
  assert (forall rest before, steps (spares_outside kd) (create_parents before rest)) as Hp.
  { induction rest as [|c r IH]; intros before; cbn [create_parents].
    - so_step kd.
    - destruct (Ascii.eqb c "/"); [|apply IH].
      so_step kd; [apply Hm|]. destruct (_ =? SUCCESS)%Z; [apply IH|so_step kd]. }
  unfold create_directory. destruct (Nat.eqb _ 0); [so_step kd|].
  so_step kd.
  - destruct (strip_trailing_slash _); [so_step kd|apply Hp].
  - destruct (_ =? SUCCESS)%Z; [apply Hm|so_step kd].
Qed.

Lemma snprintf_snprintf n s : snprintf n (snprintf n s) = snprintf n s.
Proof.
  unfold snprintf. apply substring_all. apply substring_length_bound.
Qed.

Lemma substring_app_long dir x n :
  (n <= String.length dir)%nat ->
  String.substring 0 n (dir +:+ x) = String.substring 0 n dir.
Proof.
  revert n. induction dir as [|c dir IH]; intros [|n] H.
  - rewrite !substring_0_0. reflexivity.
  - cbn in H. lia.
  - rewrite !substring_0_0. reflexivity.
  - rewrite append_cons.
    change (String.substring 0 (S n) (String c (dir +:+ x)))
      with (String c (String.substring 0 n (dir +:+ x))).
    rewrite IH by (cbn in H; lia). reflexivity.
Qed.

(** The text that [join] builds names what [dir] names when cut to the
    length of a path, or a name under it. *)
Lemma join_within_cut dir name :
  within (norm (snprintf MAX_PATH dir)) (norm (join dir name)) = true.
Proof.
  destruct (Nat.lt_ge_cases (String.length dir) MAX_PATH) as [H|H].
  - rewrite snprintf_short by exact H. apply join_within, H.
  - assert (join dir name = snprintf MAX_PATH dir) as ->; [|apply within_refl].
    unfold join, snprintf. apply substring_app_long. lia.
Qed.

Lemma final_dest_path_within src dest st :
  within (norm (snprintf MAX_PATH dest)) (norm (final_dest_path src dest st)) = true.
Proof.
  unfold final_dest_path. destruct st as [e|s]; [apply within_refl|].
  destruct (S_ISDIR (st_mode s)); [|apply within_refl].
  apply (join_within_cut dest (basename src)).
Qed.

Lemma spares_outside_copy_file fuel src dest :
  steps (spares_outside (norm (snprintf MAX_PATH dest))) (copy_file fuel src dest).
Proof.
  intros w r w' H. destruct (copy_file_frame _ _ _ _ _ _ H) as (st & _ & F).
  eapply spares_outside_frame; [|exact F]. apply final_dest_path_within.
Qed.

Lemma join_cut dir name : snprintf MAX_PATH (join dir name) = join dir name.
Proof. apply snprintf_snprintf. Qed.

Lemma spares_outside_copy_entries rec fuel src dest :
  (forall s d, steps (spares_outside (norm (snprintf MAX_PATH d))) (rec s d)) ->
  forall entries,
    steps (spares_outside (norm (snprintf MAX_PATH dest)))
      (copy_entries rec fuel src dest entries).
Proof.
  intros Hrec. set (kd := norm (snprintf MAX_PATH dest)).
  induction entries as [|name rest IH]; cbn [copy_entries].
  - repeat so_step kd.
  - destruct (pseudo_entry name); [exact IH|].
    so_step kd; [so_step kd|].
    so_step kd.
    + intros w r w' H. apply (spares_outside_mono kd (norm (join dest name))).
      { apply join_within_cut. }
      rewrite <- (join_cut dest name).
      destruct a; [eapply Hrec, H|eapply spares_outside_copy_file, H].
    + destruct (_ =? SUCCESS)%Z; [exact IH|repeat so_step kd].
Qed.

Lemma spares_outside_copy_directory :
  forall (fuel : nat) (src_path dest_path : string) (w : world) (result : Z) (w' : world),
    copy_directory fuel src_path dest_path w = Some (result, w') ->
    spares_outside (norm (snprintf MAX_PATH dest_path)) (w_fs w) (w_fs w').
Proof.
  intros fuel src dest w result w' H.
  revert src dest w result w' H.
  induction fuel as [|fuel IH]; intros src dest; [apply steps_undefined|].
  fold (steps (spares_outside (norm (snprintf MAX_PATH dest))) (copy_directory (S fuel) src dest)).
  cbn [copy_directory]. set (kd := norm (snprintf MAX_PATH dest)).
  so_step kd; [apply spares_outside_create_directory|].
  destruct (_ =? SUCCESS)%Z; [|so_step kd].
  so_step kd; [so_step kd|].
  destruct a0 as [e|entries]; [so_step kd|].
  apply spares_outside_copy_entries. intros s d. exact (IH s d).
Qed.

(** X18: Whatever fails, a directory copy changes nothing that exists outside
    the destination.  In a namespace of regular files and directories
    without links, for a source path, a destination path (cut to
    [MAX_PATH]) and names of which no component begins with two dots,
    every name that is there before the copy and is neither the
    destination path nor under it is after the run as it was before. *)
Theorem copy_directory_spares_outside :
  forall (fuel : nat) (src_path dest_path : string) (w : world) (result : Z) (w' : world),
    no_dots (norm src_path) = true ->
    no_dots (norm (snprintf MAX_PATH dest_path)) = true ->
    no_dots_fs (w_fs w) = true ->
    copy_directory fuel src_path dest_path w = Some (result, w') ->
    forall k,
      within (norm (snprintf MAX_PATH dest_path)) k = false ->
      is_Some (w_fs w !! k) ->
      w_fs w' !! k = w_fs w !! k.
Proof.
  intros fuel src dest w result w' _ _ _ H.
  exact (spares_outside_copy_directory fuel src dest w result w' H).
Qed.

(** ** What the answers mean *)

(** X19: The three inspections change nothing and never say more than is
    there, whatever fails: [path_exists] says yes only for a path that
    resolves, [is_directory] only for a path that resolves to a directory,
    and [get_file_size] gives -1 or the size that [stat] reports for what
    the path resolves to. *)
Theorem inspections_sound :
  forall (path : string) (w : world),
    (forall b w', path_exists path w = Some (b, w') ->
       w_fs w' = w_fs w
       /\ (b = true -> exists k n, resolve (w_fs w) path = inr (k, n)))
    /\ (forall b w', is_directory path w = Some (b, w') ->
          w_fs w' = w_fs w
          /\ (b = true -> exists k perm, resolve (w_fs w) path = inr (k, Dir perm)))
    /\ (forall size w', get_file_size path w = Some (size, w') ->
          w_fs w' = w_fs w
          /\ (size = (-1)%Z
              \/ exists k n, resolve (w_fs w) path = inr (k, n) /\ size = st_size (stat_of n))).
Proof.
  intros path w. split; [|split].
  - intros b w' H. unfold path_exists in H.
    apply bind_Some in H as (r & w1 & Hs & H). apply ret_Some in H as [<- <-].
    apply stat_inv in Hs as (Hfs & _ & Hr). split; [exact Hfs|].
    destruct r as [e|st]; [discriminate|]. intros _.
    destruct (Hr _ eq_refl) as (k & n & R & _). eauto.
  - intros b w' H. unfold is_directory in H.
    apply bind_Some in H as (r & w1 & Hs & H).
    apply stat_inv in Hs as (Hfs & _ & Hr).
    destruct r as [e|st]; apply ret_Some in H as [<- <-]; (split; [exact Hfs|]);
      [discriminate|].
    destruct (Hr _ eq_refl) as (k & n & R & ->). rewrite S_ISDIR_stat_of.
    destruct n as [perm data|perm]; [discriminate|]. eauto.
  - intros size w' H. unfold get_file_size in H.
    apply bind_Some in H as (r & w1 & Hs & H).
    apply stat_inv in Hs as (Hfs & _ & Hr).
    destruct r as [e|st]; apply ret_Some in H as [<- <-]; (split; [exact Hfs|]);
      [left; reflexivity|].
    destruct (Hr _ eq_refl) as (k & n & R & ->). right. eauto.
Qed.

Lemma compare_chunks_differ k1 k2 fuel : forall off w w' p1 p2 d1 d2,
  compare_chunks fuel (Fd k1 off) (Fd k2 off) w = Some (ERROR_FILES_DIFFER, w') ->
  node_at (w_fs w) k1 = Some (File p1 d1) ->
  node_at (w_fs w) k2 = Some (File p2 d2) ->
  drop off d1 <> drop off d2.
Proof.
  induction fuel as [|fuel IH]; intros off w w' p1 p2 d1 d2 H N1 N2; [discriminate|].
  cbn [compare_chunks] in H.
  apply bind_Some in H as (r1 & w1 & Hr1 & H).
  apply bind_Some in H as (r2 & w2 & Hr2 & H).
  apply read_inv in Hr1 as (Hfs1 & _ & Hr1). apply read_inv in Hr2 as (Hfs2 & _ & Hr2).
  destruct r1 as [e1|[b1 f1]]; [destruct r2 as [?|[? ?]]; apply closes_result in H; discriminate|].
  destruct r2 as [e2|[b2 f2]]; [apply closes_result in H; discriminate|].
  destruct (Hr1 _ _ eq_refl) as (p1' & d1' & N1' & -> & ->).
  destruct (Hr2 _ _ eq_refl) as (p2' & d2' & N2' & -> & ->).
  cbn [fd_key fd_off] in *. rewrite Hfs1 in N2'.
  rewrite N1 in N1'. rewrite N2 in N2'. injection N1' as <- <-. injection N2' as <- <-.
  set (c1 := take BUFFER_SIZE (drop off d1)) in *.
  set (c2 := take BUFFER_SIZE (drop off d2)) in *.
  intros E.
  assert (c1 = c2) as Hc by (unfold c1, c2; rewrite E; reflexivity).
  rewrite <- Hc, Nat.eqb_refl in H. cbn [negb] in H.
  destruct (Nat.eqb_spec (length c1) 0) as [Hz|Hnz];
    [apply closes_result in H; discriminate|].
  rewrite (bool_decide_eq_true_2 _ eq_refl) in H. cbn [negb] in H.
  eapply (IH _ _ _ p1 p2 d1 d2 H).
  - rewrite Hfs2, Hfs1. exact N1.
  - rewrite Hfs2, Hfs1. exact N2.
  - rewrite <- !drop_drop. rewrite E. reflexivity.
Qed.

Lemma get_file_size_no_fault p w z w' k n :
  stat_calls_succeed w ->
  resolve (w_fs w) p = inr (k, n) ->
  get_file_size p w = Some (z, w') -> z = st_size (stat_of n).
Proof.
  intros Hs R H. unfold get_file_size in H.
  apply bind_Some in H as (r & w1 & Hst & H).
  apply call_Some in Hst. destruct r as [e|st].
  - destruct Hst as [Ho _]. unfold outcome in Ho. rewrite Hs in Ho.
    unfold sem_stat in Ho. rewrite R in Ho. discriminate.
  - destruct Hst as (fs' & Ho & _). apply outcome_inr in Ho.
    unfold sem_stat in Ho. rewrite R in Ho. injection Ho as <- _.
    apply ret_Some in H as [<- _]. reflexivity.
Qed.

(** X20: What the answers of [compare_files] mean, whatever fails.  The
    comparison changes nothing in the file system; it returns [SUCCESS] only
    when both paths name regular files with the same content; and when no
    [stat] call is made to fail, it returns [ERROR_FILES_DIFFER] for two
    regular files only when their contents differ. *)
Theorem compare_files_verdicts :
  forall (fuel : nat) (file1 file2 : string) (w : world) (result : Z) (w' : world),
    compare_files fuel file1 file2 w = Some (result, w') ->
    w_fs w' = w_fs w
    /\ (result = SUCCESS ->
        exists k1 k2 p1 p2 data,
          resolve (w_fs w) file1 = inr (k1, File p1 data)
          /\ resolve (w_fs w) file2 = inr (k2, File p2 data))
    /\ (result = ERROR_FILES_DIFFER -> stat_calls_succeed w ->
        forall k1 k2 p1 p2 d1 d2,
          resolve (w_fs w) file1 = inr (k1, File p1 d1) ->
          resolve (w_fs w) file2 = inr (k2, File p2 d2) ->
          d1 <> d2).
Proof.
  intros fuel file1 file2 w result w' H.
  split; [eapply compare_files_reads_only, H|].
  split; [intros ->; eapply compare_files_sound, H|].
  intros -> Hs k1 k2 p1 p2 d1 d2 R1 R2.
  unfold compare_files in H.
  apply bind_Some in H as (e1 & w1 & H1 & H).
  pose proof (same_env_path_exists _ _ _ _ H1) as [Hf1 _].
  apply (steps_path_exists eq (fun _ => eq_refl) (fun a b c => @eq_trans _ a b c)) in H1.
  apply bind_Some in H as (e2 & w2 & H2 & H).
  assert (w_fs w1 = w_fs w2 /\ w_faults w2 = w_faults w1) as [Hfs2 Hf2].
  { destruct e1; [|apply ret_Some in H2 as [_ <-]; auto].
    pose proof (same_env_path_exists _ _ _ _ H2) as [Hf _].
    apply (steps_path_exists eq (fun _ => eq_refl) (fun a b c => @eq_trans _ a b c)) in H2.
    auto. }
  destruct (negb e1 || negb e2); [apply ret_Some in H as [[=] _]|].
  apply bind_Some in H as (s1 & w3 & H3 & H).
  pose proof (get_file_size_inv _ _ _ _ H3) as (Hfs3 & Hf3).
  apply bind_Some in H as (s2 & w4 & H4 & H).
  pose proof (get_file_size_inv _ _ _ _ H4) as (Hfs4 & Hf4).
  assert (w_fs w2 = w_fs w) as E2 by congruence.
  assert (w_fs w3 = w_fs w) as E3 by congruence.
  assert (stat_calls_succeed w2) as Hs2 by (intros t p; rewrite Hf2, Hf1; apply Hs).
  assert (stat_calls_succeed w3) as Hs3 by (intros t p; rewrite Hf3; apply Hs2).
  rewrite <- E2 in R1. rewrite <- E3 in R2.
  rewrite (get_file_size_no_fault _ _ _ _ _ _ Hs2 R1 H3) in H.
  rewrite (get_file_size_no_fault _ _ _ _ _ _ Hs3 R2 H4) in H.
  cbn [stat_of st_size] in H.
  destruct (Z.eqb_spec (Z.of_nat (length d1)) (Z.of_nat (length d2))) as [Hlen|Hlen];
    cbn [negb] in H; [|intros ->; congruence].
  apply bind_Some in H as (o1 & w5 & H5 & H).
  apply open_rd_inv in H5 as (Hfs5 & _ & Ho1).
  destruct o1 as [e|[k1' off1]]; [apply ret_Some in H as [[=] _]|].
  destruct (Ho1 _ eq_refl) as (n1 & R1' & Hoff1). cbn [fd_key fd_off] in *. subst off1.
  apply bind_Some in H as (o2 & w6 & H6 & H).
  apply open_rd_inv in H6 as (Hfs6 & _ & Ho2).
  destruct o2 as [e|[k2' off2]].
  { apply bind_Some in H as (? & ? & _ & H). apply ret_Some in H as [[=] _]. }
  destruct (Ho2 _ eq_refl) as (n2 & R2' & Hoff2). cbn [fd_key fd_off] in *. subst off2.
  assert (w_fs w4 = w_fs w2) as E4 by congruence.
  assert (w_fs w5 = w_fs w3) as E5 by congruence.
  rewrite E4, R1 in R1'. rewrite E5, R2 in R2'.
  injection R1' as <- <-. injection R2' as <- <-.
  apply resolve_inr in R1 as (_ & _ & N1 & _). apply resolve_inr in R2 as (_ & _ & N2 & _).
  assert (w_fs w6 = w_fs w2) as E6 by congruence.
  assert (w_fs w6 = w_fs w3) as E6' by congruence.
  rewrite <- E6 in N1. rewrite <- E6' in N2.
  pose proof (compare_chunks_differ _ _ _ _ _ _ _ _ _ _ H N1 N2) as Hd.
  rewrite !drop_0 in Hd. exact Hd.
Qed.

(** X21: A source that is not a regular file.  When no call fails for an
    outside reason: for a source that does not resolve, [copy_file] returns
    [ERROR_FILE_OPEN] after one [stat] and one [open] that fail, and nothing
    else; for a source that is a directory and a destination that is an
    existing regular file, it returns [ERROR_FILE_READ], and the destination
    has been cut to no bytes by then: its content is lost though nothing was
    copied. *)
Theorem copy_file_bad_source :
  forall (fuel : nat) (src_path dest_path : string) (w : world),
    fault_free w ->
    match resolve (w_fs w) src_path with
    | inl e =>
        copy_file fuel src_path dest_path w
        = Some (ERROR_FILE_OPEN,
                record (Called (OpenRd src_path) (Some e))
                  (record (Called (Stat src_path) (Some e)) w))
    | inr (ks, Dir _) =>
        forall kd pd data,
          resolve (w_fs w) dest_path = inr (kd, File pd data) ->
          exists w',
            copy_file (S fuel) src_path dest_path w = Some (ERROR_FILE_READ, w')
            /\ w_fs w' = <[kd := File pd []]> (w_fs w)
    | inr (_, File _ _) => True
    end.
Proof.
  intros fuel src dest w Hff.
  destruct (resolve (w_fs w) src) as [e|[ks [ps ds|perm]]] eqn:R; [| exact I |].
  - unfold copy_file, get_file_size, stat, open_rd.
    unfold bind at 1. ff_step. unfold sem_stat. rewrite R. cbn [ret].
    ff_step. unfold sem_open_rd. rewrite R. reflexivity.
  - intros kd pd data Rd.
    destruct (resolve_File _ _ _ _ _ Rd) as (Hc & Hk & Hne & Hlook & Hslash).
    pose proof (check_name_None _ Hc) as Hlen.
    destruct (resolve_inr _ _ _ _ R) as (_ & Hks & Hn & _).
    assert (ks <> kd) as Hkk.
    { intros ->. rewrite (node_at_nonempty _ _ Hne), Hlook in Hn. discriminate. }
    unfold copy_file, get_file_size, stat, open_rd, open_wr.
    unfold bind at 1. ff_step. rewrite (sem_stat_resolved _ _ _ _ R). cbn [ret].
    ff_step. rewrite (sem_open_rd_resolved _ _ _ _ R).
    ff_step. rewrite (sem_stat_resolved _ _ _ _ Rd).
    rewrite final_dest_path_file by (try apply S_ISDIR_stat_of; lia).
    ff_step. rewrite (sem_open_wr_File _ _ _ _ _ Rd).
    unfold bind at 1. cbn [copy_chunks]. unfold read. ff_step.
    rewrite (sem_read_Dir _ (Fd ks 0) _ perm).
    2:{ cbn [fd_key]. rewrite node_at_insert_ne by congruence. exact Hn. }
    unfold close. ff_step. cbn [sem_close]. ff_step. cbn [sem_close ret].
    eexists. split; [reflexivity|]. reflexivity.
Qed.

Lemma remove_directory_stays_inside_witness :
  exists (result : Z) (w' : world),
    remove_directory 4 "s" example_world = Some (result, w')
    /\ forall k, within (norm "s") k = false -> w_fs w' !! k = w_fs example_world !! k.
Proof.
  eexists _, _. split; [vm_compute; reflexivity|].
  eapply (remove_directory_stays_inside 4 "s" example_world).
  - vm_compute. reflexivity.
  - vm_compute. reflexivity.
  - vm_compute. reflexivity.
Defined.

Lemma copy_directory_spares_outside_witness :
  exists (result : Z) (w' : world),
    copy_directory 5 "s" "mnt/copy" example_world = Some (result, w')
    /\ forall k,
         within (norm (snprintf MAX_PATH "mnt/copy")) k = false ->
         is_Some (w_fs example_world !! k) ->
         w_fs w' !! k = w_fs example_world !! k.
Proof.
  eexists _, _. split; [vm_compute; reflexivity|].
  eapply (copy_directory_spares_outside 5 "s" "mnt/copy" example_world).
  - vm_compute. reflexivity.
  - vm_compute. reflexivity.
  - vm_compute. reflexivity.
  - vm_compute. reflexivity.
Defined.

Lemma compare_files_verdicts_witness :
  exists (result : Z) (w' : world),
    compare_files 3 "s/f" "s/t/g" example_world = Some (result, w')
    /\ w_fs w' = w_fs example_world
    /\ (result = SUCCESS ->
        exists k1 k2 p1 p2 data,
          resolve (w_fs example_world) "s/f" = inr (k1, File p1 data)
          /\ resolve (w_fs example_world) "s/t/g" = inr (k2, File p2 data))
    /\ (result = ERROR_FILES_DIFFER -> stat_calls_succeed example_world ->
        forall k1 k2 p1 p2 d1 d2,
          resolve (w_fs example_world) "s/f" = inr (k1, File p1 d1) ->
          resolve (w_fs example_world) "s/t/g" = inr (k2, File p2 d2) ->
          d1 <> d2).
Proof.
  eexists _, _. split; [vm_compute; reflexivity|].
  eapply (compare_files_verdicts 3 "s/f" "s/t/g" example_world).
  vm_compute. reflexivity.
Defined.

Lemma copy_file_bad_source_witness :
  match resolve (w_fs example_world) "s" with
  | inl e =>
      copy_file 0 "s" "a.txt" example_world
      = Some (ERROR_FILE_OPEN,
              record (Called (OpenRd "s") (Some e))
                (record (Called (Stat "s") (Some e)) example_world))
  | inr (ks, Dir _) =>
      forall kd pd data,
        resolve (w_fs example_world) "a.txt" = inr (kd, File pd data) ->
        exists w',
          copy_file 1 "s" "a.txt" example_world = Some (ERROR_FILE_READ, w')
          /\ w_fs w' = <[kd := File pd []]> (w_fs example_world)
  | inr (_, File _ _) => True
  end.
Proof.
  apply (copy_file_bad_source 0 "s" "a.txt" example_world).
  intros t c. reflexivity.
Defined.

(** ** Making a path of directories *)

Lemma segments_nonempty s : forall cur, segments cur s <> [].
Proof.
  induction s as [|c s IH]; intros cur; cbn [segments]; [discriminate|].
  destruct (Ascii.eqb c "/"); [discriminate|apply IH].
Qed.

Lemma segments_snoc_char s c : forall cur,
  Ascii.eqb c "/" = false ->
  segments cur (s +:+ String c EmptyString)
  = removelast (segments cur s) ++ [List.last (segments cur s) EmptyString +:+ String c EmptyString].
Proof.
  induction s as [|d s IH]; intros cur Hc.
  - rewrite append_nil. cbn [segments]. rewrite Hc. reflexivity.
  - rewrite append_cons. cbn [segments]. destruct (Ascii.eqb d "/").
    + rewrite IH by exact Hc. pose proof (segments_nonempty s EmptyString) as Hne.
      destruct (segments EmptyString s) as [|x l] eqn:E; [congruence|]. reflexivity.
    + apply IH, Hc.
Qed.

Lemma segments_snoc_slash s cur :
  segments cur (s +:+ String "/" EmptyString) = segments cur s ++ [EmptyString].
Proof. rewrite segments_app. reflexivity. Qed.

Lemma dir_part_snoc_char s c :
  Ascii.eqb c "/" = false -> dir_part (s +:+ String c EmptyString) = dir_part s.
Proof.
  intros Hc. unfold dir_part. rewrite segments_snoc_char by exact Hc.
  rewrite removelast_last. reflexivity.
Qed.

Lemma dir_part_snoc_slash s : dir_part (s +:+ String "/" EmptyString) = norm s.
Proof. unfold dir_part, norm. rewrite segments_snoc_slash, removelast_last. reflexivity. Qed.

(** The names of a text: those of its directory part, and its last
    component when that is a name. *)
Lemma norm_dir_part s :
  norm s = dir_part s \/ exists name, norm s = dir_part s ++ [name].
Proof.
  unfold norm, dir_part. pose proof (segments_nonempty s EmptyString) as Hne.
  destruct (exists_last Hne) as (l & x & E). rewrite E, removelast_last.
  rewrite List.filter_app. cbn [List.filter].
  destruct (proper_component x); [right; eauto|left; apply app_nil_r].
Qed.

Lemma made_refl k fs : made k fs fs.
Proof. intros k'. left. reflexivity. Qed.

Lemma made_trans k a b c : made k a b -> made k b c -> made k a c.
Proof.
  intros H1 H2 k'. destruct (H1 k') as [E1|(N1 & D1 & P1)], (H2 k') as [E2|(N2 & D2 & P2)].
  - left. congruence.
  - right. rewrite <- E1. auto.
  - right. rewrite E2. auto.
  - congruence.
Qed.

Lemma made_insert k n fs :
  fs !! take n k = None -> made k fs (<[take n k := Dir 493]> fs).
Proof.
  intros Hnew k'. destruct (decide (take n k = k')) as [<-|Hne].
  - right. rewrite lookup_insert_eq. eauto.
  - left. apply lookup_insert_ne, Hne.
Qed.

Lemma made_node_at k fs fs' k' :
  made k fs fs' ->
  node_at fs' k' = node_at fs k'
  \/ (node_at fs k' = None /\ node_at fs' k' = Some (Dir 493)).
Proof.
  intros H. destruct k' as [|c k']; [left; reflexivity|]. rewrite !node_at_cons.
  destruct (H (c :: k')) as [E|(N & D & _)]; auto.
Qed.

Lemma made_is_dir k fs fs' k' : made k fs fs' -> is_dir (node_at fs k') -> is_dir (node_at fs' k').
Proof.
  intros H [perm E]. destruct (made_node_at _ _ _ k' H) as [E'|[N _]].
  - exists perm. congruence.
  - congruence.
Qed.

Lemma made_not_file k fs fs' k' :
  made k fs fs' -> not_file (node_at fs k') -> not_file (node_at fs' k').
Proof.
  intros H Hn perm data E. destruct (made_node_at _ _ _ k' H) as [E'|[_ D]].
  - apply (Hn perm data). congruence.
  - congruence.
Qed.

Lemma file_in_the_way_false fs k :
  file_in_the_way fs k = false -> forall n, not_file (node_at fs (take n k)).
Proof.
  unfold file_in_the_way. intros H n perm data E.
  assert (take n k = take (Nat.min n (length k)) k) as Et.
  { destruct (Nat.le_ge_cases n (length k)).
    - rewrite Nat.min_l by assumption. reflexivity.
    - rewrite Nat.min_r by assumption. rewrite !take_ge by lia. reflexivity. }
  rewrite Et in E.
  assert (existsb (fun n => match node_at fs (take n k) with
                            | Some (File _ _) => true
                            | _ => false
                            end) (seq 0 (S (length k))) = true) as Ht.
  { apply existsb_exists. exists (Nat.min n (length k)). split.
    - apply in_seq. lia.
    - rewrite E. reflexivity. }
  congruence.
Qed.

(** [make_if_missing] on a text whose directory part is there. *)
Lemma make_if_missing_makes tmp kt w :
  fault_free w ->
  (0 < String.length tmp < MAX_PATH)%nat ->
  (exists n, norm tmp = take n kt) ->
  not_file (node_at (w_fs w) (norm tmp)) ->
  is_dir (node_at (w_fs w) (dir_part tmp)) ->
  exists w',
    make_if_missing tmp w = Some (SUCCESS, w')
    /\ fault_free w'
    /\ made kt (w_fs w) (w_fs w')
    /\ is_dir (node_at (w_fs w') (norm tmp)).
Proof.
  intros Hff Hlen [n Hn] Hnf Hdp.
  assert (check_name tmp = None) as Hc.
  { unfold check_name. destruct (Nat.eqb_spec (String.length tmp) 0); [lia|].
    destruct (Nat.leb_spec MAX_PATH (String.length tmp)); [lia|reflexivity]. }
  unfold make_if_missing, path_exists, stat.
  unfold bind at 1. ff_step. unfold sem_stat, resolve. rewrite Hc.
  destruct (node_at (w_fs w) (norm tmp)) as [[perm data|perm]|] eqn:E.
  - destruct (Hnf perm data eq_refl).
  - cbn [ret failed negb]. eexists. split; [reflexivity|]. split; [exact Hff|].
    cbn [w_fs record with_fs]. split; [apply made_refl|]. exists perm. exact E.
  - cbn [ret failed negb]. unfold mkdir. ff_step. unfold sem_mkdir. rewrite Hc, E.
    assert (exists name, norm tmp = dir_part tmp ++ [name]) as [name Ek].
    { destruct (norm_dir_part tmp) as [Ed|Hx]; [|exact Hx].
      destruct Hdp as [perm Hp]. rewrite <- Ed in Hp. congruence. }
    unfold parent_is_dir, parent. rewrite Ek, removelast_last.
    destruct Hdp as [perm ->]. cbn [ret mkdir_refused].
    eexists. split; [reflexivity|]. split; [exact Hff|].
    cbn [w_fs record with_fs]. rewrite <- Ek. split.
    + rewrite Hn. apply made_insert. rewrite <- Hn.
      rewrite <- (node_at_nonempty (w_fs w)); [exact E|].
      rewrite Ek. destruct (dir_part tmp); discriminate.
    + exists 493%Z. apply node_at_insert_eq. rewrite Ek. destruct (dir_part tmp); discriminate.
Qed.

Lemma take_app_prefix {A} (a b : list A) : a = take (length a) (a ++ b).
Proof. symmetry. apply take_app_length. Qed.

(** The loop of [create_directory] makes the directories of the text that
    are missing, one after the other. *)
Lemma create_parents_makes kt rest : forall before w,
  fault_free w ->
  (0 < String.length before)%nat ->
  (String.length before + String.length rest < MAX_PATH)%nat ->
  kt = norm (before +:+ rest) ->
  (forall n, not_file (node_at (w_fs w) (take n kt))) ->
  is_dir (node_at (w_fs w) (dir_part before)) ->
  exists w',
    create_parents before rest w = Some (SUCCESS, w')
    /\ fault_free w'
    /\ made kt (w_fs w) (w_fs w')
    /\ is_dir (node_at (w_fs w') (dir_part (before +:+ rest))).
Proof.
  induction rest as [|c r IH]; intros before w Hff Hpos Hlen Hkt Hway Hdone;
    cbn [create_parents].
  - rewrite append_empty_r. exists w. split; [reflexivity|]. split; [exact Hff|].
    split; [apply made_refl|exact Hdone].
  - cbn [String.length] in Hlen.
    assert (before +:+ String c r = (before +:+ String c EmptyString) +:+ r) as Eapp
        by (rewrite append_snoc; reflexivity).
    assert (String.length (before +:+ String c EmptyString) = S (String.length before)) as El
        by (rewrite append_length; cbn; lia).
    destruct (Ascii.eqb c "/") eqn:Hc.
    + apply Ascii.eqb_eq in Hc. subst c.
      destruct (make_if_missing_makes before kt w) as (w1 & Hrun & Hff1 & Hm1 & Hd1); auto.
      { lia. }
      { exists (length (norm before)). rewrite Hkt, norm_app. apply take_app_prefix. }
      { assert (norm before = take (length (norm before)) kt) as ->; [|apply Hway].
        rewrite Hkt, norm_app. apply take_app_prefix. }
      unfold bind at 1. rewrite Hrun. cbn [Z.eqb SUCCESS].
      destruct (IH (before +:+ String "/" EmptyString) w1) as (w' & Hr & Hff' & Hm & Hd); auto.
      * lia.
      * lia.
      * rewrite <- Eapp. exact Hkt.
      * intros n. eapply made_not_file; [exact Hm1|apply Hway].
      * rewrite dir_part_snoc_slash. exact Hd1.
      * exists w'. split; [exact Hr|]. split; [exact Hff'|].
        split; [eapply made_trans; eassumption|]. rewrite Eapp. exact Hd.
    + destruct (IH (before +:+ String c EmptyString) w) as (w' & Hr & Hff' & Hm & Hd); auto.
      * lia.
      * lia.
      * rewrite <- Eapp. exact Hkt.
      * rewrite dir_part_snoc_char by exact Hc. exact Hdone.
      * exists w'. split; [exact Hr|]. split; [exact Hff'|].
        split; [exact Hm|]. rewrite Eapp. exact Hd.
Qed.

Lemma create_directory_run :
  forall (path : string) (w : world),
    fault_free w ->
    (0 < String.length path < MAX_PATH)%nat ->
    path <> "/"%string ->
    file_in_the_way (w_fs w) (norm path) = false ->
    exists w',
      create_directory path w = Some (SUCCESS, w')
      /\ fault_free w'
      /\ (exists perm, resolve (w_fs w') path = inr (norm path, Dir perm))
      /\ made (norm path) (w_fs w) (w_fs w').
Proof.
  intros path w Hff Hlen Hroot Hway.
  pose proof (file_in_the_way_false _ _ Hway) as Hnf.
  unfold create_directory. rewrite snprintf_short by lia.
  destruct (Nat.eqb_spec (String.length path) 0) as [|_]; [lia|].
  pose proof (norm_strip path) as Hnorm.
  assert (String.length (strip_trailing_slash path) <= String.length path)%nat as Hsl.
  { destruct (strip_trailing_slash_spec path) as [[_ E]|[_ E]].
    - rewrite E at 2. rewrite append_length. lia.
    - rewrite E. lia. }
  destruct (strip_trailing_slash path) as [|c rest] eqn:Etmp.
  { exfalso. destruct (strip_trailing_slash_spec path) as [[_ E]|[_ E]].
    - rewrite Etmp in E. apply Hroot. exact E.
    - rewrite Etmp in E. subst path. cbn in Hlen. lia. }
  cbn [String.length] in Hsl.
  assert (norm (String c EmptyString +:+ rest) = norm path) as Hkt by exact Hnorm.
  destruct (create_parents_makes (norm path) rest (String c EmptyString) w)
    as (w1 & Hrun & Hff1 & Hm1 & Hd1).
  { exact Hff. }
  { cbn. lia. }
  { cbn [String.length]. lia. }
  { symmetry. exact Hkt. }
  { exact Hnf. }
  { unfold dir_part. cbn [segments].
    destruct (Ascii.eqb c "/"); cbn; exists 493%Z; reflexivity. }
  unfold bind at 1. rewrite Hrun. cbn [Z.eqb SUCCESS].
  change (String c EmptyString +:+ rest) with (String c rest) in Hd1.
  destruct (make_if_missing_makes (String c rest) (norm path) w1)
    as (w' & Hrun2 & Hff' & Hm2 & Hd2).
  { exact Hff1. }
  { cbn [String.length]. lia. }
  { exists (length (norm path)). rewrite Hnorm. symmetry. apply take_ge. lia. }
  { rewrite Hnorm. rewrite <- (take_ge (norm path) (length (norm path))) by lia.
    eapply made_not_file; [exact Hm1|apply Hnf]. }
  { exact Hd1. }
  exists w'. split; [exact Hrun2|]. split; [exact Hff'|].
  split; [|eapply made_trans; eassumption].
  destruct Hd2 as [perm Hp]. exists perm. rewrite Hnorm in Hp.
  unfold resolve.
  assert (check_name path = None) as ->.
  { unfold check_name. destruct (Nat.eqb_spec (String.length path) 0); [lia|].
    destruct (Nat.leb_spec MAX_PATH (String.length path)); [lia|reflexivity]. }
  rewrite Hp. reflexivity.
Qed.

(** X22: [create_directory] makes the directory and the directories above
    it that are missing, and nothing else.  When no call fails for an
    outside reason, the path is not empty, shorter than [MAX_PATH], not
    the root and without a [..] component, and no regular file sits at the
    path or at a name above it, [create_directory] returns [SUCCESS], the
    path names a directory afterwards, and every name of the file system
    is as it was or is a new directory of mode 0755 at the path or above
    it. *)
Theorem create_directory_makes_path :
  forall (path : string) (w : world),
    fault_free w ->
    (0 < String.length path < MAX_PATH)%nat ->
    path <> "/"%string ->
    file_in_the_way (w_fs w) (norm path) = false ->
    ~ In ".."%string (norm path) ->
    exists w',
      create_directory path w = Some (SUCCESS, w')
      /\ (exists perm, resolve (w_fs w') path = inr (norm path, Dir perm))
      /\ made (norm path) (w_fs w) (w_fs w').
Proof.
  intros path w Hff Hlen Hroot Hway _.
  destruct (create_directory_run path w Hff Hlen Hroot Hway) as (w' & Hr & _ & Hd & Hm).
  exists w'. split; [exact Hr|]. split; assumption.
Qed.

Lemma create_directory_makes_path_witness :
  exists w',
    create_directory "mnt/x/./y/" example_world = Some (SUCCESS, w')
    /\ (exists perm, resolve (w_fs w') "mnt/x/./y/" = inr (norm "mnt/x/./y/", Dir perm))
    /\ made (norm "mnt/x/./y/") (w_fs example_world) (w_fs w').
Proof.
  apply (create_directory_makes_path "mnt/x/./y/" example_world).
  - intros t c. reflexivity.
  - vm_compute. lia.
  - discriminate.
  - vm_compute. reflexivity.
  - vm_compute. intros [H|[H|[H|[]]]]; discriminate.
Defined.

(** Making directories at [k] and above it does not change how a path
    resolves that names none of them. *)
Lemma made_resolve k fs fs' p :
  made k fs fs' ->
  (forall n, norm p <> take n k) ->
  resolve fs' p = resolve fs p.
Proof.
  intros Hm Hp. unfold resolve. destruct (check_name p); [reflexivity|].
  assert (node_at fs' (norm p) = node_at fs (norm p)) as ->; [|reflexivity].
  destruct (norm p) as [|c r] eqn:E; [reflexivity|]. cbn [node_at].
  destruct (Hm (c :: r)) as [H|(_ & _ & n & Hn)]; [exact H|].
  exfalso. exact (Hp n Hn).
Qed.

(** X24: A directory copy from what is not a directory leaves the
    destination directory behind.  When no call fails for an outside
    reason, neither path has a [..] component, [create_directory] can make
    the destination (the path is not empty, shorter than [MAX_PATH], not
    the root, and no regular file is in the way), and the source does not
    name a directory, nor the destination or a name above it,
    [copy_directory] returns [ERROR_DIR_OPEN], and the destination is a
    directory afterwards: the directories that were missing on the way to
    it have been made, and nothing else has changed. *)
Theorem copy_directory_not_a_directory :
  forall (fuel : nat) (src_path dest_path : string) (w : world),
    fault_free w ->
    (0 < String.length dest_path < MAX_PATH)%nat ->
    dest_path <> "/"%string ->
    ~ In ".."%string (norm dest_path) ->
    ~ In ".."%string (norm src_path) ->
    file_in_the_way (w_fs w) (norm dest_path) = false ->
    (forall k perm, resolve (w_fs w) src_path <> inr (k, Dir perm)) ->
    (forall n, norm src_path <> take n (norm dest_path)) ->
    exists w',
      copy_directory (S fuel) src_path dest_path w = Some (ERROR_DIR_OPEN, w')
      /\ (exists perm, resolve (w_fs w') dest_path = inr (norm dest_path, Dir perm))
      /\ made (norm dest_path) (w_fs w) (w_fs w').
Proof.
  intros fuel src dest w Hff Hlen Hroot _ _ Hway Hsrc Hno.
  destruct (create_directory_run dest w Hff Hlen Hroot Hway) as (w1 & Hr & Hff1 & Hd & Hm).
  cbn [copy_directory]. unfold bind at 1. rewrite Hr. cbn [Z.eqb SUCCESS].
  unfold bind. unfold opendir. rewrite call_fault_free by exact Hff1.
  unfold sem_opendir. rewrite (made_resolve _ _ _ _ Hm Hno).
  destruct (resolve (w_fs w) src) as [e|[k [pf d|pd]]] eqn:E.
  - eexists. split; [reflexivity|]. split; assumption.
  - eexists. split; [reflexivity|]. split; assumption.
  - exfalso. exact (Hsrc k pd eq_refl).
Qed.

Lemma copy_directory_not_a_directory_witness :
  exists w',
    copy_directory 1 "nowhere" "mnt/x/y" example_world = Some (ERROR_DIR_OPEN, w')
    /\ (exists perm, resolve (w_fs w') "mnt/x/y" = inr (norm "mnt/x/y", Dir perm))
    /\ made (norm "mnt/x/y") (w_fs example_world) (w_fs w').
Proof.
  apply (copy_directory_not_a_directory 0 "nowhere" "mnt/x/y" example_world).
  - intros t c. reflexivity.
  - vm_compute. lia.
  - discriminate.
  - vm_compute. intros [H|[H|[H|[]]]]; discriminate.
  - vm_compute. intros [H|[]]; discriminate.
  - vm_compute. reflexivity.
  - intros k perm. vm_compute. discriminate.
  - intros n. vm_compute. destruct n as [|[|[|n]]]; discriminate.
Defined.

(** ** Removing a tree *)

(** What [walkable] says of one name of the tree. *)
Lemma walkable_spec fs path fuel :
  walkable fs path fuel = true <->
  forall k' n, fs !! k' = Some n -> within (norm path) k' = true -> k' <> norm path ->
    forallb plain_name (drop (length (norm path)) k') = true
    /\ (joined_length (String.length path) (drop (length (norm path)) k') < MAX_PATH)%nat
    /\ (length (drop (length (norm path)) k') < fuel)%nat
    /\ holds_dir fs (removelast k') = true.
Proof.
  unfold walkable. rewrite forallb_forall. split.
  - intros H k' n L Hw Hne. specialize (H (k', n)). cbn [fst] in H.
    rewrite Hw, (bool_decide_eq_false_2 _ Hne) in H. cbn [andb negb] in H.
    assert (In (k', n) (map_to_list fs)) as Hin
        by (apply list_elem_of_In, elem_of_map_to_list, L).
    specialize (H Hin). repeat (apply andb_true_iff in H as [H ?]).
    repeat split; auto.
    + apply Nat.ltb_lt. assumption.
    + apply Nat.ltb_lt. assumption.
  - intros H [k' n] Hin. cbn [fst].
    apply list_elem_of_In, elem_of_map_to_list in Hin.
    destruct (within (norm path) k') eqn:Hw; [|reflexivity].
    destruct (bool_decide_reflect (k' = norm path)) as [|Hne]; [reflexivity|].
    cbn [andb negb]. destruct (H k' n Hin Hw Hne) as (H1 & H2 & H3 & H4).
    rewrite H1, H4. apply Nat.ltb_lt in H2, H3. rewrite H2, H3. reflexivity.
Qed.

Lemma child_name_spec k k' n : child_name k k' = Some n <-> k' = k ++ [n].
Proof.
  unfold child_name. split.
  - destruct (reverse k') as [|x rk] eqn:E; [discriminate|].
    destruct (bool_decide_reflect (reverse rk = k)) as [Hk|]; [|discriminate].
    intros [= ->]. rewrite <- Hk, <- (reverse_involutive k'), E.
    rewrite reverse_cons. reflexivity.
  - intros ->. rewrite reverse_app. cbn [reverse app]. rewrite reverse_singleton. cbn [app].
    rewrite reverse_involutive, bool_decide_eq_true_2 by reflexivity. reflexivity.
Qed.

(** The names that [readdir] gives are the names that the directory
    holds. *)
Lemma children_spec fs k n : n ∈ children fs k <-> is_Some (fs !! (k ++ [n])).
Proof.
  unfold children. rewrite list_elem_of_omap. split.
  - intros ([k' x] & Hin & Hc). cbn [fst] in Hc. apply child_name_spec in Hc. subst k'.
    apply elem_of_map_to_list in Hin. eauto.
  - intros [x Hx]. exists (k ++ [n], x). split.
    + apply elem_of_map_to_list, Hx.
    + cbn [fst]. apply child_name_spec. reflexivity.
Qed.

Lemma is_directory_ff p w :
  fault_free w ->
  exists w',
    is_directory p w
      = Some (match resolve (w_fs w) p with inr (_, Dir _) => true | _ => false end, w')
    /\ w_fs w' = w_fs w /\ fault_free w'.
Proof.
  intros Hff. unfold is_directory, stat. unfold bind. rewrite call_fault_free by exact Hff.
  unfold sem_stat. destruct (resolve (w_fs w) p) as [e|[k n]].
  - eexists. split; [reflexivity|]. split; [reflexivity|exact Hff].
  - cbn [ret]. rewrite S_ISDIR_stat_of. destruct n; eexists; (split; [reflexivity|]);
      (split; [reflexivity|exact Hff]).
Qed.

Lemma unlink_ff p w :
  fault_free w ->
  exists r w',
    unlink p w = Some (r, w') /\ fault_free w'
    /\ w_fs w' = match resolve (w_fs w) p with
                 | inr (k, File _ _) => delete k (w_fs w)
                 | _ => w_fs w
                 end.
Proof.
  intros Hff. unfold unlink. rewrite call_fault_free by exact Hff. unfold sem_unlink.
  destruct (resolve (w_fs w) p) as [e|[k [perm data|perm]]]; eexists _, _;
    (split; [reflexivity|]); (split; [exact Hff|reflexivity]).
Qed.

Lemma plain_name_norm n : plain_name n = true -> norm n = [n] /\ pseudo_entry n = false.
Proof.
  unfold plain_name. intros H. apply andb_true_iff in H as [H Hp].
  apply andb_true_iff in H as [Hne Hs]. apply negb_true_iff in Hs, Hp.
  split; [|exact Hp]. rewrite (norm_no_slash _ Hs). unfold proper_component.
  unfold nonempty in Hne. rewrite Hne. unfold pseudo_entry in Hp.
  apply orb_false_iff in Hp as [Hd _]. rewrite Hd. reflexivity.
Qed.

Lemma join_plain path n :
  (String.length path + 1 + String.length n < MAX_PATH)%nat ->
  plain_name n = true ->
  join path n = path +:+ String "/" n
  /\ norm (join path n) = norm path ++ [n]
  /\ String.length (join path n) = (String.length path + 1 + String.length n)%nat.
Proof.
  intros Hlen Hp. assert (join path n = path +:+ String "/" n) as E.
  { unfold join. apply snprintf_short. rewrite !append_length. cbn [String.length]. lia. }
  rewrite E. split; [reflexivity|]. split.
  - rewrite norm_app. destruct (plain_name_norm _ Hp) as [-> _]. reflexivity.
  - rewrite append_length. cbn [String.length]. lia.
Qed.

Lemma within_child k n k' : within (k ++ [n]) k' = true -> within k k' = true.
Proof. intros H. eapply within_trans; [|exact H]. apply within_app. Qed.

Lemma within_child_eq k m n : within (k ++ [m]) (k ++ [n]) = true -> m = n.
Proof.
  intros H. apply within_inv in H as [x E]. rewrite <- app_assoc in E.
  apply app_inv_head in E. cbn in E. congruence.
Qed.

Lemma within_longer k n : within (k ++ [n]) k = false.
Proof.
  destruct (within (k ++ [n]) k) eqn:E; [|reflexivity].
  apply within_inv in E as [x E]. apply (f_equal length) in E.
  rewrite !length_app in E. cbn in E. lia.
Qed.

(** A name strictly under [k] is under one of the names that [k] holds. *)
Lemma within_strict k k' :
  within k k' = true -> k' <> k -> exists n rest, k' = k ++ n :: rest.
Proof.
  intros H Hne. apply within_inv in H as [x ->]. destruct x as [|n rest].
  - rewrite app_nil_r in Hne. congruence.
  - eauto.
Qed.

Lemma existsb_within_gone k gone k' :
  existsb (fun m => within (k ++ [m]) k') gone = true ->
  exists m, In m gone /\ within (k ++ [m]) k' = true.
Proof. intros H. apply existsb_exists in H. exact H. Qed.

Lemma get_app_right x n i : String.get (String.length x + i) (x +:+ n) = String.get i n.
Proof. induction x as [|y x IH]; [reflexivity|]. rewrite append_cons. exact IH. Qed.

Lemma get_In n : forall i c, String.get i n = Some c -> In c (list_ascii_of_string n).
Proof.
  induction n as [|y n IH]; intros i c; [destruct i; discriminate|].
  destruct i as [|i]; cbn [String.get list_ascii_of_string].
  - intros [= ->]. left. reflexivity.
  - intros H. right. eapply IH, H.
Qed.

Lemma ends_with_slash_app x n :
  nonempty n = true -> has_slash n = false -> ends_with_slash (x +:+ n) = false.
Proof.
  intros Hne Hs. unfold ends_with_slash, last_char. rewrite append_length.
  assert (0 < String.length n)%nat as Hl by (destruct n; [discriminate|cbn; lia]).
  replace (String.length x + String.length n - 1)%nat
    with (String.length x + (String.length n - 1))%nat by lia.
  rewrite get_app_right. destruct (String.get _ n) as [c|] eqn:E; [|reflexivity].
  apply get_In in E. destruct (Ascii.eqb_spec c "/") as [->|]; [|reflexivity].
  unfold has_slash in Hs. assert (existsb (Ascii.eqb "/") (list_ascii_of_string n) = true) as Ht.
  { apply existsb_exists. exists "/"%char. split; [exact E|apply Ascii.eqb_refl]. }
  congruence.
Qed.

(** How the path of an entry resolves. *)
Lemma resolve_child fs path n :
  (String.length path + 1 + String.length n < MAX_PATH)%nat ->
  plain_name n = true ->
  resolve fs (join path n)
  = match fs !! (norm path ++ [n]) with
    | None => inl ENOENT
    | Some nd => inr (norm path ++ [n], nd)
    end.
Proof.
  intros Hl Hp. destruct (join_plain _ _ Hl Hp) as (E & Hn & Hlen).
  unfold resolve, check_name. rewrite Hlen, Hn.
  destruct (Nat.eqb_spec (String.length path + 1 + String.length n) 0) as [|_]; [lia|].
  destruct (Nat.leb_spec MAX_PATH (String.length path + 1 + String.length n)) as [|_]; [lia|].
  rewrite node_at_nonempty by (destruct (norm path); discriminate).
  destruct (fs !! (norm path ++ [n])) as [[pf d|pd]|]; try reflexivity.
  rewrite E. unfold plain_name in Hp. apply andb_true_iff in Hp as [Hp _].
  apply andb_true_iff in Hp as [Hne Hs]. apply negb_true_iff in Hs.
  rewrite <- append_snoc, ends_with_slash_app; [reflexivity|exact Hne|exact Hs].
Qed.

Section Tree.
Context (fs0 : gmap key node) (path : string) (k : key) (total : nat).
Context (Hk : norm path = k).
Context (HW : forall k' n, fs0 !! k' = Some n -> within k k' = true -> k' <> k ->
            forallb plain_name (drop (length k) k') = true
            /\ (joined_length (String.length path) (drop (length k) k') < MAX_PATH)%nat
            /\ (length (drop (length k) k') < total)%nat
            /\ holds_dir fs0 (removelast k') = true).

Lemma strictly_under n rest : k ++ n :: rest <> k.
Proof. intros E. apply (f_equal length) in E. rewrite length_app in E. cbn in E. lia. Qed.

Lemma within_under n rest : within k (k ++ n :: rest) = true.
Proof. apply within_app. Qed.

(** Above a name of the tree there are directories only. *)
Lemma ancestors_are_directories rest : forall n v,
  fs0 !! (k ++ n :: rest) = Some v ->
  is_Some (fs0 !! (k ++ [n])) /\ (rest <> [] -> holds_dir fs0 (k ++ [n]) = true).
Proof.
  induction rest as [|x r IH] using rev_ind; intros n v L.
  - split; [eauto|congruence].
  - destruct (HW _ _ L (within_under _ _) (strictly_under _ _)) as (_ & _ & _ & Hd).
    replace (k ++ n :: r ++ [x]) with ((k ++ n :: r) ++ [x]) in Hd
        by (rewrite <- app_assoc; reflexivity).
    rewrite removelast_last in Hd. unfold holds_dir in Hd.
    destruct (fs0 !! (k ++ n :: r)) as [[|perm]|] eqn:E; try discriminate.
    destruct r as [|y r'].
    + split; [eauto|]. intros _. unfold holds_dir. rewrite E. reflexivity.
    + destruct (IH n _ E) as [Hs Hh]. split; [exact Hs|]. intros _. apply Hh. discriminate.
Qed.

Lemma child_is_plain n v :
  fs0 !! (k ++ [n]) = Some v ->
  plain_name n = true
  /\ (String.length path + 1 + String.length n < MAX_PATH)%nat
  /\ (1 < total)%nat.
Proof.
  intros L. destruct (HW _ _ L (within_app _ _) (strictly_under _ _)) as (Hp & Hl & Hf & _).
  rewrite drop_app_length in Hp, Hl, Hf. cbn in Hp, Hl, Hf.
  rewrite andb_true_r in Hp. auto.
Qed.

Lemma not_gone_under gone n k' :
  existsb (fun m => within (k ++ [m]) (k ++ [n])) gone = false ->
  within (k ++ [n]) k' = true ->
  existsb (fun m => within (k ++ [m]) k') gone = false.
Proof.
  intros Hn Hw. destruct (existsb (fun m => within (k ++ [m]) k') gone) eqn:E; [|reflexivity].
  apply existsb_exists in E as (m & Hin & Hm).
  assert (m = n) as ->.
  { apply within_inv in Hw as [x ->]. apply within_inv in Hm as [y E].
    rewrite <- !app_assoc in E. apply app_inv_head in E. cbn in E. congruence. }
  assert (existsb (fun m => within (k ++ [m]) (k ++ [n])) gone = true) as Ht.
  { apply existsb_exists. exists n. split; [exact Hin|apply within_refl]. }
  congruence.
Qed.

Lemma gone_under gone n k' :
  In n gone -> within (k ++ [n]) k' = true ->
  existsb (fun m => within (k ++ [m]) k') gone = true.
Proof. intros Hin Hw. apply existsb_exists. eauto. Qed.

Context (rec : string -> M Z) (fuel' : nat) (Htotal : total = S fuel').
Context (IH : forall p w kp perm,
            fault_free w -> resolve (w_fs w) p = inr (kp, Dir perm) -> kp <> [] ->
            walkable (w_fs w) p fuel' = true -> (0 < fuel')%nat ->
            exists w', rec p w = Some (SUCCESS, w') /\ fault_free w'
              /\ forall k', w_fs w' !! k' = if within kp k' then None else w_fs w !! k').

(** The subtree of an entry that is still there is as walkable as the
    tree. *)
Lemma walkable_child gone fs n v :
  removed_under k gone fs0 fs ->
  fs !! (k ++ [n]) = Some v ->
  fs0 !! (k ++ [n]) = Some v
  /\ existsb (fun m => within (k ++ [m]) (k ++ [n])) gone = false
  /\ walkable fs (join path n) fuel' = true.
Proof.
  intros Inv L. pose proof (Inv (k ++ [n])) as Hn. rewrite L in Hn.
  destruct (existsb (fun m => within (k ++ [m]) (k ++ [n])) gone) eqn:Eg; [discriminate|].
  symmetry in Hn. split; [exact Hn|]. split; [reflexivity|].
  destruct (child_is_plain _ _ Hn) as (Hp & Hl & _).
  destruct (join_plain _ _ Hl Hp) as (_ & Hnorm & Hlen). rewrite Hk in Hnorm.
  apply walkable_spec. rewrite Hnorm, Hlen. intros k' x Lx Hw Hne.
  destruct (within_strict _ _ Hw Hne) as (c & rest & ->).
  pose proof (not_gone_under _ _ _ Eg Hw) as Eg'.
  pose proof (Inv ((k ++ [n]) ++ c :: rest)) as Hx. rewrite Eg', Lx in Hx. symmetry in Hx.
  rewrite <- app_assoc in Hx. cbn [app] in Hx.
  destruct (HW _ _ Hx (within_under _ _) (strictly_under _ _)) as (H1 & H2 & H3 & H4).
  rewrite drop_app_length in H1, H2, H3. rewrite drop_app_length.
  cbn [forallb] in H1. apply andb_true_iff in H1 as [_ H1].
  cbn [joined_length] in H2. cbn [length] in H3.
  split; [exact H1|]. split; [exact H2|]. split; [cbn [length]; lia|].
  replace ((k ++ [n]) ++ c :: rest) with (k ++ n :: c :: rest)
      by (rewrite <- app_assoc; reflexivity).
  unfold holds_dir in *. 
  assert (within (k ++ [n]) (removelast (k ++ n :: c :: rest)) = true) as Hwr.
  { rewrite removelast_app by discriminate.
    change (removelast (n :: c :: rest)) with (n :: removelast (c :: rest)).
    replace (k ++ n :: removelast (c :: rest)) with ((k ++ [n]) ++ removelast (c :: rest))
        by (rewrite <- app_assoc; reflexivity).
    apply within_app. }
  rewrite (Inv (removelast (k ++ n :: c :: rest))), (not_gone_under _ _ _ Eg Hwr).
  exact H4.
Qed.

Lemma remove_entries_run names : forall gone w,
  fault_free w ->
  removed_under k gone fs0 (w_fs w) ->
  (forall n, In n names -> pseudo_entry n = true \/ is_Some (fs0 !! (k ++ [n]))) ->
  exists w', remove_entries rec path names w = Some (tt, w') /\ fault_free w'
    /\ removed_under k (dealt_with names gone) fs0 (w_fs w').
Proof.
  induction names as [|n names IHn]; intros gone w Hff Inv Hnames.
  - exists w. split; [reflexivity|]. split; assumption.
  - cbn [remove_entries]. unfold dealt_with. cbn [fold_left].
    fold (dealt_with names (if pseudo_entry n then gone else n :: gone)).
    assert (forall m, In m names -> pseudo_entry m = true \/ is_Some (fs0 !! (k ++ [m]))) as Hrest
        by (intros m Hm; apply Hnames; right; exact Hm).
    destruct (pseudo_entry n) eqn:Hps; [apply IHn; assumption|].
    destruct (Hnames n (or_introl eq_refl)) as [|[v0 L0]]; [congruence|].
    destruct (child_is_plain _ _ L0) as (Hp & Hl & Hf).
    pose proof (resolve_child (w_fs w) _ _ Hl Hp) as Hres. rewrite Hk in Hres.
    destruct (is_directory_ff (join path n) w Hff) as (w1 & E1 & Hfs1 & Hff1).
    unfold bind at 1. rewrite E1. rewrite Hres.
    destruct (w_fs w !! (k ++ [n])) as [[pf d|pd]|] eqn:L.
    + (* a file: unlinked *)
      destruct (unlink_ff (join path n) w1 Hff1) as (r & w2 & E2 & Hff2 & Hfs2).
      rewrite Hfs1, Hres in Hfs2.
      unfold bind. rewrite E2. cbn [ret]. apply IHn; [exact Hff2| |exact Hrest].
      destruct (walkable_child _ _ _ _ Inv L) as (L0' & Eg & _).
      intros k'. rewrite Hfs2. cbn [existsb].
      destruct (within (k ++ [n]) k') eqn:Hw; cbn [orb].
      * destruct (decide (k' = k ++ [n])) as [->|Hne]; [apply lookup_delete_eq|].
        rewrite lookup_delete_ne by congruence. rewrite (Inv k'), (not_gone_under _ _ _ Eg Hw).
        destruct (fs0 !! k') as [x|] eqn:Lx; [|reflexivity].
        destruct (within_strict _ _ Hw Hne) as (c & rest & ->).
        rewrite <- app_assoc in Lx. cbn [app] in Lx.
        destruct (ancestors_are_directories _ _ _ Lx) as [_ Hd].
        unfold holds_dir in Hd. rewrite L0' in Hd. specialize (Hd ltac:(discriminate)).
        discriminate.
      * rewrite lookup_delete_ne; [apply Inv|]. intros <-. rewrite within_refl in Hw. discriminate.
    + (* a directory: removed with what it holds *)
      destruct (walkable_child _ _ _ _ Inv L) as (L0' & Eg & Hwalk).
      assert (resolve (w_fs w1) (join path n) = inr (k ++ [n], Dir pd)) as Hres1
          by (rewrite Hfs1, Hres; reflexivity).
      destruct (IH _ _ _ _ Hff1 Hres1) as (w2 & E2 & Hff2 & Hfs2);
        [destruct k; discriminate|rewrite Hfs1; exact Hwalk|lia|].
      unfold bind. rewrite E2. cbn [ret]. apply IHn; [exact Hff2| |exact Hrest].
      intros k'. rewrite Hfs2, Hfs1. cbn [existsb].
      destruct (within (k ++ [n]) k'); cbn [orb]; [reflexivity|apply Inv].
    + (* gone already *)
      destruct (unlink_ff (join path n) w1 Hff1) as (r & w2 & E2 & Hff2 & Hfs2).
      rewrite Hfs1, Hres in Hfs2.
      unfold bind. rewrite E2. cbn [ret]. apply IHn; [exact Hff2| |exact Hrest].
      intros k'. rewrite Hfs2. cbn [existsb].
      destruct (within (k ++ [n]) k') eqn:Hw; cbn [orb]; [|apply Inv].
      rewrite (Inv k').
      destruct (existsb (fun m => within (k ++ [m]) k') gone) eqn:Eg'; [reflexivity|].
      pose proof (Inv (k ++ [n])) as Hn. rewrite L, L0 in Hn.
      destruct (existsb (fun m => within (k ++ [m]) (k ++ [n])) gone) eqn:Eg; [|discriminate].
      apply existsb_within_gone in Eg as (m & Hin & Hm). apply within_child_eq in Hm. subst m.
      rewrite (gone_under _ _ _ Hin Hw) in Eg'. discriminate.
Qed.

End Tree.

Lemma dealt_with_keeps names : forall gone n, In n gone -> In n (dealt_with names gone).
Proof.
  induction names as [|m names IH]; intros gone n H; [exact H|].
  unfold dealt_with. cbn [fold_left]. apply IH.
  destruct (pseudo_entry m); [exact H|right; exact H].
Qed.

Lemma dealt_with_In names : forall gone n,
  In n names -> pseudo_entry n = false -> In n (dealt_with names gone).
Proof.
  induction names as [|m names IH]; intros gone n H Hp; [destruct H|].
  unfold dealt_with. cbn [fold_left]. destruct H as [->|H].
  - apply dealt_with_keeps. rewrite Hp. left. reflexivity.
  - apply IH; assumption.
Qed.

Lemma remove_directory_run fuel : forall path w k perm,
  fault_free w ->
  resolve (w_fs w) path = inr (k, Dir perm) ->
  k <> [] ->
  walkable (w_fs w) path fuel = true ->
  (0 < fuel)%nat ->
  exists w', remove_directory fuel path w = Some (SUCCESS, w') /\ fault_free w'
    /\ forall k', w_fs w' !! k' = if within k k' then None else w_fs w !! k'.
Proof.
  induction fuel as [|fuel IH]; intros path w k perm Hff Hres Hk Hwalk Hpos; [lia|].
  destruct (resolve_inr _ _ _ _ Hres) as (Hc & Hnorm & Hnode & _).
  rewrite node_at_nonempty in Hnode by exact Hk.
  pose proof (proj1 (walkable_spec _ _ _) Hwalk) as HW. rewrite <- Hnorm in HW.
  cbn [remove_directory]. unfold bind at 1. unfold opendir.
  rewrite call_fault_free by exact Hff. unfold sem_opendir. rewrite Hres.
  set (w1 := record _ _).
  assert (fault_free w1) as Hff1 by (apply fault_free_record, fault_free_with_fs, Hff).
  assert (w_fs w1 = w_fs w) as Hfs1 by reflexivity.
  destruct (remove_entries_run (w_fs w) path k (S fuel) (eq_sym Hnorm) HW
              (remove_directory fuel) fuel eq_refl IH
              ("."%string :: ".."%string :: children (w_fs w) k) [] w1 Hff1)
    as (w2 & E2 & Hff2 & Inv).
  { intros k'. rewrite Hfs1. reflexivity. }
  { intros n [<-|[<-|Hin]]; [left; reflexivity|left; reflexivity|].
    right. apply children_spec, list_elem_of_In, Hin. }
  unfold bind at 1. rewrite E2.
  unfold bind at 1. unfold closedir. rewrite call_fault_free by exact Hff2.
  unfold sem_closedir. set (w3 := record _ _).
  assert (fault_free w3) as Hff3 by (apply fault_free_record, fault_free_with_fs, Hff2).
  assert (w_fs w3 = w_fs w2) as Hfs3 by reflexivity.
  set (gone := dealt_with _ _) in Inv.
  assert (forall n, is_Some (w_fs w !! (k ++ [n])) -> In n gone) as Hall.
  { intros n [v L]. destruct (child_is_plain _ _ _ _ HW _ _ L) as (Hp & _).
    apply plain_name_norm in Hp as [_ Hp]. apply dealt_with_In; [|exact Hp].
    right. right. apply list_elem_of_In, children_spec. eauto. }
  assert (children (w_fs w3) k = []) as Hempty.
  { destruct (children (w_fs w3) k) as [|n rest] eqn:Ec; [reflexivity|].
    assert (n ∈ children (w_fs w3) k) as Hin by (rewrite Ec; left).
    apply children_spec in Hin as [v L]. rewrite Hfs3, (Inv (k ++ [n])) in L.
    destruct (existsb (fun m => within (k ++ [m]) (k ++ [n])) gone) eqn:Eg; [discriminate|].
    assert (In n gone) as Hg by (apply Hall; eauto).
    rewrite (gone_under k gone n (k ++ [n]) Hg (within_refl _)) in Eg. discriminate. }
  assert (w_fs w3 !! k = Some (Dir perm)) as Lk.
  { rewrite Hfs3, (Inv k).
    destruct (existsb (fun m => within (k ++ [m]) k) gone) eqn:Eg; [|exact Hnode].
    apply existsb_within_gone in Eg as (m & _ & Hm). rewrite within_longer in Hm. discriminate. }
  assert (resolve (w_fs w3) path = inr (k, Dir perm)) as Hres3.
  { unfold resolve. rewrite Hc, <- Hnorm, node_at_nonempty by exact Hk. rewrite Lk. reflexivity. }
  unfold bind at 1. unfold rmdir. rewrite call_fault_free by exact Hff3.
  unfold sem_rmdir. rewrite Hres3, Hempty.
  destruct k as [|c k0]; [congruence|]. cbn [ret].
  eexists. split; [reflexivity|]. split.
  - apply fault_free_record, fault_free_with_fs, Hff3.
  - intros k'. cbn [w_fs record with_fs]. 
    destruct (within (c :: k0) k') eqn:Hw.
    + destruct (decide (k' = c :: k0)) as [->|Hne]; [apply lookup_delete_eq|].
      rewrite lookup_delete_ne by congruence. rewrite Hfs3, (Inv k').
      destruct (within_strict _ _ Hw Hne) as (n & rest & ->).
      destruct (w_fs w !! ((c :: k0) ++ n :: rest)) as [v|] eqn:L;
        [|destruct (existsb _ gone); reflexivity].
      destruct (ancestors_are_directories _ _ _ _ HW _ _ _ L) as [Hs _].
      rewrite (gone_under (c :: k0) gone n _ (Hall _ Hs)); [reflexivity|].
      replace ((c :: k0) ++ n :: rest) with (((c :: k0) ++ [n]) ++ rest)
          by (rewrite <- app_assoc; reflexivity).
      apply within_app.
    + rewrite lookup_delete_ne by (intros <-; rewrite within_refl in Hw; discriminate).
      rewrite Hfs3, (Inv k').
      destruct (existsb (fun m => within ((c :: k0) ++ [m]) k') gone) eqn:Eg; [|reflexivity].
      apply existsb_within_gone in Eg as (m & _ & Hm). apply within_child in Hm. congruence.
Qed.

(** X23: [remove_directory] removes the whole tree.  When no call fails for
    an outside reason, [path] names a directory other than the root, and
    the tree under it is walkable (its names are plain, every name has its
    parent directory, the joined paths stay below [MAX_PATH] characters and
    the depth is within the fuel), [remove_directory] returns [SUCCESS],
    the directory and every name under it are gone afterwards, and every
    other name of the file system is as it was. *)
Theorem remove_directory_removes_tree fuel path w k perm :
  fault_free w ->
  resolve (w_fs w) path = inr (k, Dir perm) ->
  k <> [] ->
  walkable (w_fs w) path fuel = true ->
  (0 < fuel)%nat ->
  exists w', remove_directory fuel path w = Some (SUCCESS, w')
    /\ forall k', w_fs w' !! k' = if within k k' then None else w_fs w !! k'.
Proof.
  intros Hff Hres Hk Hwalk Hpos.
  destruct (remove_directory_run fuel path w k perm Hff Hres Hk Hwalk Hpos)
    as (w' & E & _ & Hfs).
  exists w'. split; assumption.
Qed.

Lemma remove_directory_removes_tree_witness :
  exists w', remove_directory 3 "s" example_world = Some (SUCCESS, w')
    /\ forall k', w_fs w' !! k'
                  = if within ["s"%string] k' then None else w_fs example_world !! k'.
Proof.
  apply (remove_directory_removes_tree 3 "s" example_world ["s"%string] 493).
  - intros t c. reflexivity.
  - vm_compute. reflexivity.
  - discriminate.
  - vm_compute. reflexivity.
  - lia.
Defined.
